(** * atdtool log archival daemon: a shallow embedding and its properties

    The development follows the Go sources of the log archival daemon:

    - [pkg/compress]                      streaming zstd compression with a cap,
    - [logarchive/modules/cos]            the object-store output module,
    - [logarchive/modules/filearchive]    the file archive module and its event loop,
    - [logarchive]                        the module loader, startup and shutdown.

    Go values are modelled as follows.  An [int]/[int64] is a [Z]; where the
    source adds two 64-bit quantities the wrap-around is written out
    ([add64]).  A Go [error] is a value of [error], where the sentinels that
    the source compares by identity are constructors of their own.  Maps are
    stdpp [gmap]s, channels are FIFO lists, and everything the code asks of
    the operating system or of a remote service (stat, remove, time, the
    object store, the zstd encoder) is an explicit oracle argument. *)

From Stdlib Require Import ZArith Ascii String DecimalString.
From stdpp Require Import base gmap strings list.

Local Open Scope string_scope.
Local Open Scope list_scope.
Local Open Scope Z_scope.

(** ** Errors *)

Inductive error : Type :=
| EOF                                         (* io.EOF *)
| ErrUnexpectedEOF                            (* compress.ErrUnexpectedEOF *)
| ErrUnsupportAlgorithm                       (* compress.ErrUnsupportAlgorithm *)
| errorNew (msg : string)                     (* errors.New, fmt.Errorf with %v, library errors *)
| errorWrap (inner : error) (msg : string).   (* fmt.Errorf with %w *)

Fixpoint error_eqb (a b : error) : bool :=
  match a, b with
  | EOF, EOF => true
  | ErrUnexpectedEOF, ErrUnexpectedEOF => true
  | ErrUnsupportAlgorithm, ErrUnsupportAlgorithm => true
  | errorNew m, errorNew m' => String.eqb m m'
  | errorWrap i m, errorWrap i' m' => error_eqb i i' && String.eqb m m'
  | _, _ => false
  end.

(** [err.Error()], which is what the verb %v prints. *)
Definition Error (e : error) : string :=
  match e with
  | EOF => "EOF"
  | ErrUnexpectedEOF => "unexpected EOF"
  | ErrUnsupportAlgorithm => "unsupport compress algorithm"
  | errorNew msg => msg
  | errorWrap _ msg => msg
  end.

(** [err != nil] and [err == target] on an [error] that may be nil. *)
Definition isError (e : option error) : bool :=
  match e with
  | Some _ => true
  | None => false
  end.

Definition errorIs (e : option error) (target : error) : bool :=
  match e with
  | Some e => error_eqb e target
  | None => false
  end.

(** %v applied to an [error] that may be nil. *)
Definition fmtV (e : option error) : string :=
  match e with
  | None => "<nil>"
  | Some e => Error e
  end.

(** A call either returns or panics. *)
Inductive outcome (A : Type) : Type :=
| Returned (a : A)
| Panicked (msg : string).
Arguments Returned {A} a.
Arguments Panicked {A} msg.

(** ** Machine integers *)

Definition wrap64 (x : Z) : Z := (x + 2 ^ 63) mod 2 ^ 64 - 2 ^ 63.
Definition add64 (x y : Z) : Z := wrap64 (x + y).
Definition inInt64 (x : Z) : Prop := - 2 ^ 63 <= x < 2 ^ 63.

(** strconv.Itoa *)
Definition Itoa (x : Z) : string :=
  if x <? 0 then "-" +:+ NilZero.string_of_uint (N.to_uint (Z.to_N (- x)))
  else NilZero.string_of_uint (N.to_uint (Z.to_N x)).

(** ** Labelled counters (prometheus CounterVec): label values to count *)

Definition Inc (labels : list string) (c : gmap (list string) nat) : gmap (list string) nat :=
  <[labels := S (default 0%nat (c !! labels))]> c.

Definition counterValue (labels : list string) (c : gmap (list string) nat) : nat :=
  default 0%nat (c !! labels).

(** ** Strings split at a separator *)

Fixpoint splitOn (sep : ascii) (s : string) : list string :=
  match s with
  | EmptyString => [EmptyString]
  | String c rest =>
      if Ascii.eqb c sep then EmptyString :: splitOn sep rest
      else match splitOn sep rest with
           | [] => [String c EmptyString]
           | hd :: tl => String c hd :: tl
           end
  end.

(** strings.Join *)
Fixpoint joinWith (sep : string) (parts : list string) : string :=
  match parts with
  | [] => ""
  | [p] => p
  | p :: rest => p +:+ sep +:+ joinWith sep rest
  end.

(** ** path/filepath on a Unix system

    The standard library scans the path byte by byte; the model works on the
    elements between separators, which is what that scan computes. *)

Module Filepath.

Definition Separator : ascii := "/"%char.

Definition isRooted (path : string) : bool :=
  match path with
  | String c _ => Ascii.eqb c Separator
  | EmptyString => false
  end.

(** One element of the scan in [Clean]; [out] holds the elements written so
    far, last one first.  An empty element and "." are skipped; ".." removes
    the last element when there is one to remove, is kept in front of a
    relative path, and is dropped at the root. *)
Definition cleanElem (rooted : bool) (out : list string) (elem : string) : list string :=
  if String.eqb elem "" then out
  else if String.eqb elem "." then out
  else if String.eqb elem ".." then
    match out with
    | top :: below =>
        if String.eqb top ".." then (if rooted then out else elem :: out) else below
    | [] => if rooted then out else [elem]
    end
  else elem :: out.

Definition cleanElems (rooted : bool) (elems : list string) : list string :=
  rev (fold_left (cleanElem rooted) elems []).

Definition cleanComps (path : string) : list string :=
  cleanElems (isRooted path) (splitOn Separator path).

Definition render (rooted : bool) (comps : list string) : string :=
  if rooted then "/" +:+ joinWith "/" comps
  else match comps with
       | [] => "."
       | _ => joinWith "/" comps
       end.

Definition Clean (path : string) : string :=
  if String.eqb path "" then "."
  else render (isRooted path) (cleanComps path).

(** Join skips leading empty elements and cleans the rest joined by "/". *)
Fixpoint Join (elem : list string) : string :=
  match elem with
  | [] => ""
  | e :: rest => if String.eqb e "" then Join rest else Clean (joinWith "/" elem)
  end.

Fixpoint hasSeparator (s : string) : bool :=
  match s with
  | EmptyString => false
  | String c rest => Ascii.eqb c Separator || hasSeparator rest
  end.

(** path[:i+1] where i is the index of the last separator *)
Fixpoint upToLastSeparator (s : string) : string :=
  match s with
  | EmptyString => EmptyString
  | String c rest => if hasSeparator s then String c (upToLastSeparator rest) else EmptyString
  end.

Definition Dir (path : string) : string := Clean (upToLastSeparator path).

Fixpoint stripCommon (base targ : list string) : list string * list string :=
  match base, targ with
  | b :: base', t :: targ' =>
      if String.eqb b t then stripCommon base' targ' else (base, targ)
  | _, _ => (base, targ)
  end.

Definition relError (basepath targpath : string) : error :=
  errorNew ("Rel: can't make " +:+ targpath +:+ " relative to " +:+ basepath).

(** Rel cleans both paths, fails when exactly one of them is rooted or when
    the first element of the base that differs is "..", and otherwise climbs
    out of the remaining base elements and descends into the target's. *)
Definition Rel (basepath targpath : string) : string + error :=
  let base := cleanComps basepath in
  let targ := cleanComps targpath in
  if String.eqb (Clean targpath) (Clean basepath) then inl "."
  else if negb (Bool.eqb (isRooted basepath) (isRooted targpath)) then
    inr (relError basepath targpath)
  else
    match stripCommon base targ with
    | ([], targRest) => inl (joinWith "/" targRest)
    | (b :: baseRest, targRest) =>
        if String.eqb b ".." then inr (relError basepath targpath)
        else inl (joinWith "/" (replicate (List.length (b :: baseRest)) ".." ++ targRest))
    end.

End Filepath.

(** ** time.Time, as far as the daemon looks at it

    [Unix] is the time in seconds since the epoch; the other fields are the
    calendar fields of the same instant in the local zone, which is what
    [Format] prints. *)

Record Time : Type := mkTime {
  Unix : Z;
  Year : Z;
  Month : Z;
  Day : Z;
  Hour : Z
}.

Definition decimal (u : Z) : string := NilZero.string_of_uint (N.to_uint (Z.to_N u)).

(** time.appendInt: sign, then the digits padded with zeros to [width]. *)
Definition appendInt (x : Z) (width : nat) : string :=
  let u := Z.abs x in
  let digits := decimal u in
  (if x <? 0 then "-" else "") +:+
  joinWith "" (replicate (width - String.length digits) "0") +:+ digits.

Definition hasPrefix (p s : string) : bool := String.prefix p s.

Fixpoint dropString (n : nat) (s : string) : string :=
  match n, s with
  | O, _ => s
  | S n', String _ rest => dropString n' rest
  | S _, EmptyString => EmptyString
  end.

(** Time.Format for the layout chunks the daemon uses: "2006" (year, four
    digits), "01" (month), "02" (day), "15" (hour); any other byte is copied. *)
Fixpoint formatChunks (fuel : nat) (t : Time) (layout : string) : string :=
  match fuel with
  | O => ""
  | S fuel' =>
      match layout with
      | EmptyString => ""
      | String c rest =>
          if hasPrefix "2006" layout then
            appendInt (Year t) 4 +:+ formatChunks fuel' t (dropString 4 layout)
          else if hasPrefix "01" layout then
            appendInt (Month t) 2 +:+ formatChunks fuel' t (dropString 2 layout)
          else if hasPrefix "02" layout then
            appendInt (Day t) 2 +:+ formatChunks fuel' t (dropString 2 layout)
          else if hasPrefix "15" layout then
            appendInt (Hour t) 2 +:+ formatChunks fuel' t (dropString 2 layout)
          else String c (formatChunks fuel' t rest)
      end
  end.

Definition Format (t : Time) (layout : string) : string :=
  formatChunks (String.length layout) t layout.


(** ** os.FileInfo, as returned by os.Stat and fs.DirEntry.Info *)

Record FileInfo : Type := mkFileInfo {
  IsDir : bool;
  ModTime : Time;
  Size : Z
}.

(** ** logarchive.ModuleID *)

Definition Namespace (id : string) : string :=
  match rev (splitOn "."%char id) with
  | _ :: before => joinWith "." (rev before)
  | [] => ""
  end.

Definition Name (id : string) : string :=
  if String.eqb id "" then "" else List.last (splitOn "."%char id) "".

(** ** Package compress *)

Module Compress.

Definition maxChunkSize : Z := Z.shiftl 8 20.
Definition maxBufferSize : Z := Z.shiftl 16 20.

Definition NONE : string := "".
Definition ZSTD : string := "zstd".
Definition LZ4 : string := "lz4".

Record CompressOption : Type := mkOption {
  CompressAlgorithm : string;
  MaxWriterBuffSize : Z
}.

Definition NewDefaultCompressOption (algorithm : string) : CompressOption :=
  {| CompressAlgorithm := algorithm; MaxWriterBuffSize := maxBufferSize |}.

(** An io.Reader is the list of what its successive Read calls return, the
    number of bytes and the error; once the list is used up Read returns
    (0, io.EOF).  Errors of the reader are values of its own making, never a
    sentinel of this package. *)
Inductive readErr : Type :=
| ReadNil
| ReadEOF
| ReadFail (msg : string).

Definition reader : Type := list (Z * readErr).

(** Length of the chunk handed to Read. *)
Definition chunkLen : Z := 4096.

Definition readsFit (r : reader) : Prop :=
  Forall (fun c : Z * readErr => 0 <= fst c <= chunkLen) r.

(** The zstd encoder writes to [out]; whether its operations fail is the
    writer's doing, so it is given: [ReadFromErr i] and [FlushErr i] for the
    i-th buffer handed over, [CloseErr] for Close. *)
Record Encoder : Type := mkEncoder {
  ReadFromErr : nat -> option string;
  FlushErr : nat -> option string;
  CloseErr : option string
}.

(** What the encoder was given: the source bytes it consumed and in how
    many buffers, and whether it was closed. *)
Record encState : Type := mkEncState {
  consumed : Z;
  buffers : nat;
  closed : bool
}.

Definition encReset : encState := {| consumed := 0; buffers := 0; closed := false |}.

Definition encClose (st : encState) : encState :=
  {| consumed := consumed st; buffers := buffers st; closed := true |}.

(** compressBuffer: ReadFrom, Reset of the buffer, Flush. *)
Definition compressBuffer (enc : Encoder) (st : encState) (buf : Z) : option error * encState :=
  match ReadFromErr enc (buffers st) with
  | Some msg => (Some (errorNew msg), st)
  | None =>
      (errorNew <$> FlushErr enc (buffers st),
       {| consumed := consumed st + buf; buffers := S (buffers st); closed := closed st |})
  end.

Definition handleEncoderError (enc : Encoder) (err : error) : error :=
  match CloseErr enc with
  | Some closeErr => errorWrap err (Error err +:+ "; encoder close error: " +:+ closeErr)
  | None => err
  end.

(** The loop of zstdCompress; [buf] is buf.Len() at the head of the loop. *)
Fixpoint zstdLoop (enc : Encoder) (opt : CompressOption) (r : reader)
    (buf : Z) (st : encState) : option error * encState :=
  let atEOF :=
    if 0 <? buf then
      match compressBuffer enc st buf with
      | (Some err, st') => (Some (handleEncoderError enc err), encClose st')
      | (None, st') => (errorNew <$> CloseErr enc, encClose st')
      end
    else (errorNew <$> CloseErr enc, encClose st) in
  match r with
  | [] => atEOF
  | (n, e) :: r' =>
      let len := buf + n in
      let afterRead :=
        if (0 <? MaxWriterBuffSize opt) && (MaxWriterBuffSize opt <? len) then
          (Some (handleEncoderError enc ErrUnexpectedEOF), encClose st)
        else if maxChunkSize <=? len then
          match compressBuffer enc st len with
          | (Some err, st') => (Some (handleEncoderError enc err), encClose st')
          | (None, st') => zstdLoop enc opt r' 0 st'
          end
        else zstdLoop enc opt r' len st in
      match e with
      | ReadEOF => if n =? 0 then atEOF else afterRead
      | ReadFail msg => (Some (handleEncoderError enc (errorNew msg)), encClose st)
      | ReadNil => afterRead
      end
  end.

Definition zstdCompress (r : reader) (enc : Encoder) (opt : CompressOption) :
    option error * encState :=
  zstdLoop enc opt r 0 encReset.

(** CompressFile; [open] is os.Open followed by reading the file. *)
Definition CompressFile (open : string -> reader + string) (enc : Encoder)
    (path : string) (opt : option CompressOption) : option error * encState :=
  match opt with
  | None => (Some (errorNew "invalid compress option"), encReset)
  | Some opt =>
      match open path with
      | inr msg => (Some (errorNew ("open file:" +:+ path +:+ ", " +:+ msg)), encReset)
      | inl fd =>
          if String.eqb (CompressAlgorithm opt) ZSTD then zstdCompress fd enc opt
          else (Some ErrUnsupportAlgorithm, encReset)
      end
  end.

Definition GetCompressAlgorithmSuffix (algorithm : string) : string :=
  if String.eqb algorithm ZSTD then ".zst"
  else if String.eqb algorithm LZ4 then ".lz4"
  else "".

End Compress.

(** ** The object-store output module (modules/cos) *)

Module Cos.

Definition codeSuccess : Z := 0.
Definition codeInvalidParam : Z := -10000.
Definition codeCallAPIFailed : Z := -10001.
Definition codeCompressFailed : Z := -10002.

Definition EmptyArchive : string := "".
Definition HourArchive : string := "hour".
Definition DayArchive : string := "day".
Definition MonthArchive : string := "month".
Definition YearArchive : string := "year".
Definition CustomArchive : string := "custom".

Record FileUploadRule : Type := mkUploadRule {
  ArchiveRule : string;
  CompressAlgorithm : string;
  MaxFileSize : Z;
  Timeout : Z
}.

Record Task : Type := mkTask {
  RootPath : string;
  FilePath : string
}.

(** A logarchive.OutputTask: its dynamic type is *cos.Task or another one. *)
Inductive OutputTask : Type :=
| CosTask (t : Task)
| ForeignTask.

(** The operating system as Execute sees it. *)
Record OS : Type := mkOS {
  Stat : string -> FileInfo + string;
  Now : Time;
  Open : string -> Compress.reader + string
}.

(** The object store client: whether Object.Upload and Object.Put fail. *)
Record Client : Type := mkClient {
  ObjectUpload : string -> string -> option string;
  ObjectPut : string -> option string
}.

(** A request that reached the object store. *)
Inductive request : Type :=
| Upload (key filePath : string)
| Put (key : string) (sourceBytes : Z).

Record Handler : Type := mkHandler {
  UploadRule : FileUploadRule;
  client : Client
}.

Definition ID : string := "output.cos".

Record Metrics : Type := mkMetrics {
  OutputTruncateTotal : gmap (list string) nat;
  OutputRequestTotal : gmap (list string) nat
}.

Definition getArchivePrefix (os : OS) (rule : string) (inp : string) : string :=
  let modifyTime :=
    match Stat os inp with
    | inr _ => Now os
    | inl info => ModTime info
    end in
  if String.eqb rule HourArchive then Format modifyTime "2006010215"
  else if String.eqb rule DayArchive then Format modifyTime "20060102"
  else if String.eqb rule MonthArchive then Format modifyTime "200601"
  else if String.eqb rule YearArchive then Format modifyTime "2006"
  else "".

(** What the body of Execute leaves behind: the error returned, the value of
    errCode when the deferred function runs, whether the truncate counter was
    incremented, and the requests made to the object store. *)
Record executed : Type := mkExecuted {
  err : option error;
  errCode : Z;
  truncated : bool;
  requests : list request
}.

Definition dstPathOf (os : OS) (h : Handler) (task : Task) : string + error :=
  match Filepath.Rel (RootPath task) (FilePath task) with
  | inr e => inr e
  | inl dstPath =>
      let prefix := getArchivePrefix os (ArchiveRule (UploadRule h)) (FilePath task) in
      let dstPath := if negb (String.eqb prefix "") then Filepath.Join [prefix; dstPath] else dstPath in
      inl (dstPath +:+ Compress.GetCompressAlgorithmSuffix (CompressAlgorithm (UploadRule h)))
  end.

Definition executeBody (os : OS) (enc : Compress.Encoder) (h : Handler) (t : OutputTask) : executed :=
  match t with
  | ForeignTask =>
      mkExecuted (Some (errorNew "invalid cos output task")) codeInvalidParam false []
  | CosTask task =>
      match Stat os (FilePath task) with
      | inr msg => mkExecuted (Some (errorNew msg)) codeInvalidParam false []
      | inl info =>
          if IsDir info then
            mkExecuted (Some (errorNew ("input: " +:+ FilePath task +:+ " is directory")))
              codeInvalidParam false []
          else
            match dstPathOf os h task with
            | inr e => mkExecuted (Some e) codeSuccess false []
            | inl dstPath =>
                if String.eqb (CompressAlgorithm (UploadRule h)) Compress.NONE then
                  match ObjectUpload (client h) dstPath (FilePath task) with
                  | Some msg =>
                      mkExecuted (Some (errorNew msg)) codeCallAPIFailed false
                        [Upload dstPath (FilePath task)]
                  | None => mkExecuted None codeSuccess false [Upload dstPath (FilePath task)]
                  end
                else
                  let '(cerr, st) :=
                    Compress.CompressFile (Open os) enc (FilePath task)
                      (Some (Compress.NewDefaultCompressOption (CompressAlgorithm (UploadRule h)))) in
                  if isError cerr && negb (errorIs cerr ErrUnexpectedEOF) then
                    mkExecuted cerr codeCompressFailed false []
                  else
                    match ObjectPut (client h) dstPath with
                    | Some msg =>
                        mkExecuted (Some (errorNew msg)) codeCallAPIFailed
                          (errorIs cerr ErrUnexpectedEOF) [Put dstPath (Compress.consumed st)]
                    | None =>
                        mkExecuted None codeSuccess
                          (errorIs cerr ErrUnexpectedEOF) [Put dstPath (Compress.consumed st)]
                    end
            end
      end
  end.

(** Execute: the body, then the deferred update of the request counter (the
    duration histogram is observed under the same labels). *)
Definition Execute (os : OS) (enc : Compress.Encoder) (h : Handler) (m : Metrics)
    (t : OutputTask) : executed * Metrics :=
  let r := executeBody os enc h t in
  (r,
   {| OutputTruncateTotal :=
        if truncated r then Inc [Name ID] (OutputTruncateTotal m) else OutputTruncateTotal m;
      OutputRequestTotal := Inc [Name ID; Itoa (errCode r)] (OutputRequestTotal m) |}).

End Cos.

(** ** The file archive module (modules/filearchive) *)

Module FileArchive.

Inductive fileStatus : Type :=
| fileStatusUnKnown
| fileStatusWaitUpload
| fileStatusUploading
| fileStatusUploaded.

Inductive notifyType : Type :=
| notifyTypeUnKnown
| notifyTypeOutputTask
| notifyTypeDeleteTask.

Definition discardReasonReachMaxRetry : Z := -10000.

Definition ID : string := "file".

Record FileCollectRule : Type := mkCollectRule {
  KeepSourceFile : bool;
  ModifyProtectTime : Z
}.

Record fileInfo : Type := mkFileInfoEntry {
  uploadFailedCount : Z;
  deleteFailedCount : Z;
  protectedEndTime : Z;
  status : fileStatus
}.

Record notifyInfo : Type := mkNotify {
  typ : notifyType;
  watchPath : string;
  filePath : string;
  result : bool
}.

(** cache.go *)
Record element : Type := mkElement {
  rootPath : string;
  files : gmap string fileInfo
}.

Record fileCacheKey : Type := mkCacheKey {
  keyWatchPath : string;
  keyFilePath : string
}.

(** The closure submitted by the tick handler, as the values it captured. *)
Record task : Type := mkTaskClosure {
  taskWatchPath : string;
  taskRootPath : string;
  taskFilePath : string
}.

(** fsnotify.Event: the name and the bits of Op. *)
Record Event : Type := mkEvent {
  EvName : string;
  HasCreate : bool;
  HasWrite : bool;
  HasRemove : bool;
  HasRename : bool;
  HasChmod : bool
}.

(** One call of the function that filepath.WalkDir is given: the path, the
    error it is passed, and the directory entry with what d.Info() returns. *)
Record walkEntry : Type := mkWalkEntry {
  walkPath : string;
  walkErr : option string;
  walkIsDir : bool;
  walkInfo : FileInfo + string
}.

(** The operating system and the fsnotify watcher as the event loop sees
    them.  [Walk name] lists the calls WalkDir makes for [name] and its
    direct entries; the entries below a subdirectory are never visited,
    because addWatchPath answers SkipDir for it. *)
Record OS : Type := mkOS {
  Stat : string -> FileInfo + string;
  Walk : string -> list walkEntry;
  WatcherAdd : string -> option string
}.

(** The configuration of an archive, fixed by Provision. *)
Record Config : Type := mkConfig {
  PoolSize : Z;
  Paths : list string;
  CollectRule : FileCollectRule;
  regs : list (string -> bool);          (* MatchString of each compiled ExcludeFiles pattern *)
  outputTask : Cos.OutputTask            (* what output.TaskInfo().New() returns *)
}.

(** Calls that leave the process: output.Execute on a task with the given
    root and file, and os.Remove on a file, each with whether it succeeded.
    [watchPath] is the watch directory of the closure or key that made the
    call. *)
Inductive call : Type :=
| CallExecute (watchPath rootPath filePath : string) (ok : bool)
| CallRemove (watchPath filePath : string) (ok : bool).

(** The mutable part of an archive, the counters it reports to, the calls
    made so far (oldest first), and the directories the watcher accepted
    from watcher.AddWith (oldest first; the archive has no call to
    watcher.Remove).  Channels are FIFO lists. *)
Record State : Type := mkState {
  fileCache : gmap string element;
  tasks : list task;
  notifyChan : list notifyInfo;
  deleteChan : list fileCacheKey;
  done : bool;
  InputDiscardTotal : gmap (list string) nat;
  InputRequestSize : list Z;
  InputQueneSize : Z;
  calls : list call;
  watched : list string
}.

Definition tasksCap : nat := 1000.

Definition setFileCache (fc : gmap string element) (s : State) : State :=
  mkState fc (tasks s) (notifyChan s) (deleteChan s) (done s)
    (InputDiscardTotal s) (InputRequestSize s) (InputQueneSize s) (calls s) (watched s).

Definition setTasks (q : list task) (s : State) : State :=
  mkState (fileCache s) q (notifyChan s) (deleteChan s) (done s)
    (InputDiscardTotal s) (InputRequestSize s) (InputQueneSize s) (calls s) (watched s).

Definition setNotifyChan (q : list notifyInfo) (s : State) : State :=
  mkState (fileCache s) (tasks s) q (deleteChan s) (done s)
    (InputDiscardTotal s) (InputRequestSize s) (InputQueneSize s) (calls s) (watched s).

Definition setDeleteChan (q : list fileCacheKey) (s : State) : State :=
  mkState (fileCache s) (tasks s) (notifyChan s) q (done s)
    (InputDiscardTotal s) (InputRequestSize s) (InputQueneSize s) (calls s) (watched s).

Definition setDone (s : State) : State :=
  mkState (fileCache s) (tasks s) (notifyChan s) (deleteChan s) true
    (InputDiscardTotal s) (InputRequestSize s) (InputQueneSize s) (calls s) (watched s).

Definition setInputDiscardTotal (c : gmap (list string) nat) (s : State) : State :=
  mkState (fileCache s) (tasks s) (notifyChan s) (deleteChan s) (done s)
    c (InputRequestSize s) (InputQueneSize s) (calls s) (watched s).

Definition observeInputRequestSize (size : Z) (s : State) : State :=
  mkState (fileCache s) (tasks s) (notifyChan s) (deleteChan s) (done s)
    (InputDiscardTotal s) (InputRequestSize s ++ [size]) (InputQueneSize s) (calls s) (watched s).

Definition setInputQueneSize (n : Z) (s : State) : State :=
  mkState (fileCache s) (tasks s) (notifyChan s) (deleteChan s) (done s)
    (InputDiscardTotal s) (InputRequestSize s) n (calls s) (watched s).

Definition addCall (c : call) (s : State) : State :=
  mkState (fileCache s) (tasks s) (notifyChan s) (deleteChan s) (done s)
    (InputDiscardTotal s) (InputRequestSize s) (InputQueneSize s) (calls s ++ [c]) (watched s).

Definition addWatch (name : string) (s : State) : State :=
  mkState (fileCache s) (tasks s) (notifyChan s) (deleteChan s) (done s)
    (InputDiscardTotal s) (InputRequestSize s) (InputQueneSize s) (calls s)
    (watched s ++ [name]).

Definition fileStatus_eqb (a b : fileStatus) : bool :=
  match a, b with
  | fileStatusUnKnown, fileStatusUnKnown
  | fileStatusWaitUpload, fileStatusWaitUpload
  | fileStatusUploading, fileStatusUploading
  | fileStatusUploaded, fileStatusUploaded => true
  | _, _ => false
  end.

(** *** cache.go *)

Definition getFile (m : gmap string element) (watchPath filePath : string) : option fileInfo :=
  match m !! watchPath with
  | Some c => files c !! filePath
  | None => None
  end.

Definition removeFile (m : gmap string element) (watchPath filePath : string) : gmap string element :=
  match m !! watchPath with
  | Some c => <[watchPath := mkElement (rootPath c) (delete filePath (files c))]> m
  | None => m
  end.

(** A write through the *fileInfo that getFile or the range loop returned. *)
Definition storeFile (m : gmap string element) (watchPath filePath : string) (v : fileInfo) :
    gmap string element :=
  match m !! watchPath with
  | Some c => <[watchPath := mkElement (rootPath c) (<[filePath := v]> (files c))]> m
  | None => m
  end.

(** The value newCacheKey returns.  Where its memory comes from is the
    business of the pools, modelled in [Pool] below. *)
Definition newCacheKey (watchPath filePath : string) : fileCacheKey :=
  mkCacheKey watchPath filePath.

(** *** The notification handler *)

Definition handleTaskNotify (cfg : Config) (now : Z) (e : notifyInfo) (s : State) : State :=
  match typ e with
  | notifyTypeOutputTask =>
      match getFile (fileCache s) (watchPath e) (filePath e) with
      | None => s
      | Some v =>
          let count := if result e then uploadFailedCount v else add64 (uploadFailedCount v) 1 in
          if negb (result e) && (count <? 3) then
            (* last task execute failed, retry it *)
            setFileCache
              (storeFile (fileCache s) (watchPath e) (filePath e)
                 (mkFileInfoEntry count (deleteFailedCount v)
                    (add64 now (ModifyProtectTime (CollectRule cfg))) fileStatusWaitUpload)) s
          else
            let v' :=
              mkFileInfoEntry count (deleteFailedCount v) (protectedEndTime v)
                (if result e then fileStatusUploaded else status v) in
            let s1 := setFileCache (storeFile (fileCache s) (watchPath e) (filePath e) v') s in
            let s2 :=
              if result e then s1
              else setInputDiscardTotal
                     (Inc [Name ID; Itoa discardReasonReachMaxRetry] (InputDiscardTotal s1)) s1 in
            if negb (KeepSourceFile (CollectRule cfg)) then
              setDeleteChan (deleteChan s2 ++ [newCacheKey (watchPath e) (filePath e)]) s2
            else
              setFileCache (removeFile (fileCache s2) (watchPath e) (filePath e)) s2
      end
  | notifyTypeDeleteTask =>
      match getFile (fileCache s) (watchPath e) (filePath e) with
      | None => s
      | Some v =>
          let count := if result e then deleteFailedCount v else add64 (deleteFailedCount v) 1 in
          let s1 :=
            setFileCache
              (storeFile (fileCache s) (watchPath e) (filePath e)
                 (mkFileInfoEntry (uploadFailedCount v) count (protectedEndTime v) (status v))) s in
          if negb (result e) && (count <? 3) then
            (* try delete file again *)
            setDeleteChan (deleteChan s1 ++ [newCacheKey (watchPath e) (filePath e)]) s1
          else
            setFileCache (removeFile (fileCache s1) (watchPath e) (filePath e)) s1
      end
  | notifyTypeUnKnown => s
  end.

(** *** The body of the tick loop for one cached file *)

Definition trySubmitTask (t : task) (s : State) : bool * State :=
  if (List.length (tasks s) <? tasksCap)%nat then (true, setTasks (tasks s ++ [t]) s)
  else (false, s).

Definition tickFile (cfg : Config) (t : Z) (stat : string -> FileInfo + string)
    (watchPath k : string) (s : State) : State :=
  match fileCache s !! watchPath with
  | None => s
  | Some cache =>
      match files cache !! k with
      | None => s
      | Some v =>
          if negb (fileStatus_eqb (status v) fileStatusWaitUpload) || (t <? protectedEndTime v)
          then s
          else
            match stat k with
            | inr _ => setFileCache (removeFile (fileCache s) watchPath k) s
            | inl info =>
                let protectedEndTime' :=
                  add64 (Unix (ModTime info)) (ModifyProtectTime (CollectRule cfg)) in
                if t <? protectedEndTime' then
                  setFileCache
                    (storeFile (fileCache s) watchPath k
                       (mkFileInfoEntry (uploadFailedCount v) (deleteFailedCount v)
                          protectedEndTime' (status v))) s
                else
                  let s1 :=
                    if uploadFailedCount v =? 0 then observeInputRequestSize (Size info) s else s in
                  match trySubmitTask (mkTaskClosure watchPath (rootPath cache) k) s1 with
                  | (true, s2) =>
                      setFileCache
                        (storeFile (fileCache s2) watchPath k
                           (mkFileInfoEntry (uploadFailedCount v) (deleteFailedCount v)
                              (protectedEndTime v) fileStatusUploading)) s2
                  | (false, s2) => s2
                  end
            end
      end
  end.

(** The files of the cache, watch directory by watch directory. *)
Definition cacheKeys (m : gmap string element) : list (string * string) :=
  '(w, c) ← map_to_list m; (fun kv : string * fileInfo => (w, fst kv)) <$> map_to_list (files c).

(** The tick handler: the loop body for every cached file, in the order in
    which the two nested range loops meet them (Go leaves that order open),
    then the queue-size gauge.  The disk-usage gauge is not modelled. *)
Definition tick (cfg : Config) (t : Z) (stat : string -> FileInfo + string)
    (order : list (string * string)) (s : State) : State :=
  let s' := fold_left (fun s wk => tickFile cfg t stat (fst wk) (snd wk) s) order s in
  setInputQueneSize (Z.of_nat (List.length (tasks s'))) s'.

(** *** Watcher events *)

Definition freshFileInfo (cfg : Config) (info : FileInfo) : fileInfo :=
  mkFileInfoEntry 0 0 (add64 (Unix (ModTime info)) (ModifyProtectTime (CollectRule cfg)))
    fileStatusWaitUpload.

Definition excluded (cfg : Config) (path : string) : bool :=
  existsb (fun re => re path) (regs cfg).

(** The function addWatchPath hands to WalkDir, run over the calls WalkDir
    makes; the walk stops at the first error it is answered. *)
Fixpoint walkHistorical (cfg : Config) (name : string) (entries : list walkEntry)
    (files : gmap string fileInfo) : gmap string fileInfo + error :=
  match entries with
  | [] => inl files
  | d :: rest =>
      match walkErr d with
      | Some msg => inr (errorNew msg)
      | None =>
          if walkIsDir d then walkHistorical cfg name rest files
          else if excluded cfg (walkPath d) then walkHistorical cfg name rest files
          else
            match files !! walkPath d with
            | Some _ => walkHistorical cfg name rest files
            | None =>
                match walkInfo d with
                | inr msg => inr (errorNew msg)
                | inl info =>
                    walkHistorical cfg name rest (<[walkPath d := freshFileInfo cfg info]> files)
                end
            end
      end
  end.

Definition addWatchPath (cfg : Config) (os : OS) (root name : string) (s : State) :
    State * option error :=
  match fileCache s !! name with
  | Some _ => (s, None)
  | None =>
      match WatcherAdd os name with
      | Some msg => (s, Some (errorNew msg))
      | None =>
          let s := addWatch name s in
          if negb (KeepSourceFile (CollectRule cfg)) then
            (* add historical files index *)
            match walkHistorical cfg name (Walk os name) ∅ with
            | inr e => (s, Some e)
            | inl files => (setFileCache (<[name := mkElement root files]> (fileCache s)) s, None)
            end
          else (setFileCache (<[name := mkElement root ∅]> (fileCache s)) s, None)
      end
  end.

Definition removeCache (name : string) (s : State) : State :=
  setFileCache (delete name (fileCache s)) s.

(** The first base path that filepath.Rel can relate to [name]. *)
Fixpoint matchedBasePath (paths : list string) (name : string) : option string :=
  match paths with
  | [] => None
  | r :: rest =>
      match Filepath.Rel r name with
      | inr _ => matchedBasePath rest name
      | inl _ => Some r
      end
  end.

Definition handleWatcherEvent (cfg : Config) (os : OS) (event : Event) (s : State) :
    State * option error :=
  if HasRemove event && negb (HasRename event) then (removeCache (EvName event) s, None)
  else if negb (HasCreate event) then (s, None)   (* only care about the create event *)
  else
    match Stat os (EvName event) with
    | inr msg => (s, Some (errorNew msg))
    | inl info =>
        if IsDir info then
          (* add new watch path *)
          match matchedBasePath (Paths cfg) (EvName event) with
          | Some r => addWatchPath cfg os r (EvName event) s
          | None => (s, Some (errorNew ("path: " +:+ EvName event +:+ " has no matched base path")))
          end
        else if excluded cfg (EvName event) then (s, None)
        else
          match fileCache s !! Filepath.Dir (EvName event) with
          | None =>
              (s, Some (errorNew ("watch path:" +:+ Filepath.Dir (EvName event) +:+ " not found")))
          | Some cache =>
              (setFileCache
                 (storeFile (fileCache s) (Filepath.Dir (EvName event)) (EvName event)
                    (freshFileInfo cfg info)) s, None)
          end
    end.

(** *** Workers *)

Definition fillTaskInfo (task : Cos.OutputTask) (rootPath filePath : string) :
    Cos.OutputTask + error :=
  match task with
  | Cos.CosTask _ => inl (Cos.CosTask (Cos.mkTask rootPath filePath))
  | Cos.ForeignTask => inr (errorNew "unsupport output task type")
  end.

Definition sendNotify (notify : notifyInfo) (s : State) : State :=
  setNotifyChan (notifyChan s ++ [notify]) s.

Definition notifyTaskExecuteResult (watchPath filePath : string) (result : bool) (s : State) : State :=
  sendNotify (mkNotify notifyTypeOutputTask watchPath filePath result) s.

(** Running the closure that the tick handler submitted; [execute] is
    output.Execute. *)
Definition runTask (cfg : Config) (execute : Cos.OutputTask -> option error) (tk : task)
    (s : State) : State :=
  match fillTaskInfo (outputTask cfg) (taskRootPath tk) (taskFilePath tk) with
  | inr _ => notifyTaskExecuteResult (taskWatchPath tk) (taskFilePath tk) false s
  | inl task =>
      let ok := negb (isError (execute task)) in
      notifyTaskExecuteResult (taskWatchPath tk) (taskFilePath tk) ok
        (addCall (CallExecute (taskWatchPath tk) (taskRootPath tk) (taskFilePath tk) ok) s)
  end.

(** One round of runOutputTask: receive a closure and run it. *)
Definition runOutputTask (cfg : Config) (execute : Cos.OutputTask -> option error) (s : State) : State :=
  match tasks s with
  | [] => s
  | tk :: rest => runTask cfg execute tk (setTasks rest s)
  end.

(** One round of runDeleteFileTask: receive a key, remove the file, report.
    The delete workers are started only when KeepSourceFile is false. *)
Definition runDeleteFileTask (cfg : Config) (remove : string -> option string) (s : State) : State :=
  if KeepSourceFile (CollectRule cfg) then s
  else
    match deleteChan s with
    | [] => s
    | e :: rest =>
        let result := match remove (keyFilePath e) with None => true | Some _ => false end in
        sendNotify (mkNotify notifyTypeDeleteTask (keyWatchPath e) (keyFilePath e) result)
          (addCall (CallRemove (keyWatchPath e) (keyFilePath e) result) (setDeleteChan rest s))
    end.

(** *** The running archive

    An action is one thing one of the goroutines does, with what the outside
    answers: the event loop takes a notification, a watcher event or a tick;
    an output worker or a delete worker takes one item from its channel.
    Sends on notifyChan and deleteChan never fail here: in the source they
    block while the channel is full, which delays the sender and changes
    nothing else. *)
Inductive action : Type :=
| ActNotify (now : Z)
| ActWatcher (os : OS) (event : Event)
| ActTick (t : Z) (stat : string -> FileInfo + string) (order : list (string * string))
| ActOutputWorker (execute : Cos.OutputTask -> option error)
| ActDeleteWorker (remove : string -> option string).

Definition step (cfg : Config) (s : State) (a : action) : State :=
  match a with
  | ActNotify now =>
      match notifyChan s with
      | [] => s
      | e :: rest => handleTaskNotify cfg now e (setNotifyChan rest s)
      end
  | ActWatcher os event => fst (handleWatcherEvent cfg os event s)
  | ActTick t stat order => tick cfg t stat order s
  | ActOutputWorker execute => runOutputTask cfg execute s
  | ActDeleteWorker remove => runDeleteFileTask cfg remove s
  end.

(** The archive after a schedule of actions. *)
Definition runSchedule (cfg : Config) (s : State) (actions : list action) : State :=
  fold_left (step cfg) actions s.

(** Stop: closes [done] once; the second call finds it closed. *)
Definition hasStopped (s : State) : bool := done s.

Definition Stop (watcherClose : option error) (s : State) : State * option error :=
  if hasStopped s then (s, None)
  else (setDone s, watcherClose).

(** *** The two object pools (sync.Pool)

    A pool holds values of type [any]; [pooled] is such a value with its
    dynamic type.  Get takes some item out of the pool, or ignores the pool
    and calls New; which of the two is the runtime's choice. *)

Module Pool.

Inductive pooled : Type :=
| PooledNotifyInfo (n : notifyInfo)
| PooledCacheKey (k : fileCacheKey).

Record Pools : Type := mkPools {
  notifyPool : list pooled;
  cacheKeyPool : list pooled
}.

Definition poolGet (new : pooled) (choice : option nat) (pool : list pooled) : pooled * list pooled :=
  match choice with
  | None => (new, pool)
  | Some i =>
      match pool !! i with
      | Some x => (x, delete i pool)
      | None => (new, pool)
      end
  end.

Definition poolPut (x : pooled) (pool : list pooled) : list pooled := x :: pool.

Definition newNotifyInfo (choice : option nat) (typ : notifyType) (watchPath filePath : string)
    (result : bool) (p : Pools) : outcome notifyInfo * Pools :=
  let '(x, pool) :=
    poolGet (PooledNotifyInfo (mkNotify notifyTypeUnKnown "" "" false)) choice (notifyPool p) in
  match x with
  | PooledNotifyInfo _ =>
      (Returned (mkNotify typ watchPath filePath result), mkPools pool (cacheKeyPool p))
  | PooledCacheKey _ =>
      (Panicked "interface conversion: interface {} is *filearchive.fileCacheKey, not *filearchive.notifyInfo",
       mkPools pool (cacheKeyPool p))
  end.

Definition releaseNotifyInfo (info : option notifyInfo) (p : Pools) : Pools :=
  match info with
  | None => p
  | Some _ =>
      mkPools (poolPut (PooledNotifyInfo (mkNotify notifyTypeUnKnown "" "" false)) (notifyPool p))
        (cacheKeyPool p)
  end.

Definition newCacheKey (choice : option nat) (watchPath filePath : string) (p : Pools) :
    outcome fileCacheKey * Pools :=
  let '(x, pool) := poolGet (PooledCacheKey (mkCacheKey "" "")) choice (cacheKeyPool p) in
  match x with
  | PooledCacheKey _ => (Returned (mkCacheKey watchPath filePath), mkPools (notifyPool p) pool)
  | PooledNotifyInfo _ =>
      (Panicked "interface conversion: interface {} is *filearchive.notifyInfo, not *filearchive.fileCacheKey",
       mkPools (notifyPool p) pool)
  end.

Definition releaseCacheKey (key : option fileCacheKey) (p : Pools) : Pools :=
  match key with
  | None => p
  | Some _ => mkPools (poolPut (PooledCacheKey (mkCacheKey "" "")) (notifyPool p)) (cacheKeyPool p)
  end.

End Pool.

End FileArchive.

(** ** Package logarchive: loading modules, startup and shutdown *)

Module Logarchive.

(** What an instance does when it is asked to start and to stop, for an
    instance whose type satisfies the Archive interface. *)
Record ArchiveImpl : Type := mkArchiveImpl {
  StartErr : option error;
  StopErr : option error
}.

(** A module instance: a label to tell instances apart, and for each of the
    optional interfaces whether its type implements it and what the method
    returns.  Modules that Provision loads in turn are not followed. *)
Record Module : Type := mkModule {
  label : string;
  Provisioner : option (option error);
  Validator : option (option error);
  CleanerUpper : option (option error);
  asArchive : option ArchiveImpl
}.

Record ModuleInfo : Type := mkModuleInfo {
  ID : string;
  New : option Module
}.

Record Logging : Type := mkLogging {
  Level : string;
  logger : bool           (* logger != nil *)
}.

Record Metric : Type := mkMetric {
  OutPath : string;
  ScrapInterval : Z;
  metricDone : bool       (* done is closed *)
}.

Record Config : Type := mkConfig {
  ConfigLogging : option Logging;
  ConfigMetric : option Metric;
  ArchivesRaw : gmap string string;
  archives : gmap string ArchiveImpl
}.

Record Context : Type := mkContext {
  cfg : option Config;
  moduleInstances : gmap string (list Module)
}.

(** Context{} *)
Definition emptyContext : Context := mkContext None ∅.

(** Calls on the loaded objects, in the order in which they are made. *)
Inductive call : Type :=
| CallNew (id : string)
| CallUnmarshal (id : string)
| CallProvision (label : string)
| CallValidate (label : string)
| CallCleanup (label : string)
| CallStart (name : string)
| CallStop (name : string)
| CallLoggingProvision
| CallMetricProvision
| CallMetricStart
| CallMetricStop
| CallCancel
| CallLog (msg : string).

(** A computation that makes calls and then returns or panics. *)
Definition M (A : Type) : Type := (outcome A * list call)%type.

Definition ret {A : Type} (a : A) : M A := (Returned a, []).

Definition bind {A B : Type} (m : M A) (f : A -> M B) : M B :=
  match m with
  | (Returned a, l) => (fst (f a), l ++ snd (f a))
  | (Panicked msg, l) => (Panicked msg, l)
  end.

Definition emit (c : call) : M unit := (Returned tt, [c]).

Definition panic {A : Type} (msg : string) : M A := (Panicked msg, []).

#[export] Instance M_ret : MRet M := @ret.
#[export] Instance M_bind : MBind M := fun A B f m => bind m f.

Definition nilDeref : string := "invalid memory address or nil pointer dereference".

(** Context.Logger: ctx.cfg.Logging.logger, two pointers deep. *)
Definition Logger (ctx : Context) : M bool :=
  match cfg ctx with
  | None => panic nilDeref
  | Some c =>
      match ConfigLogging c with
      | None => panic nilDeref
      | Some l => ret (logger l)
      end
  end.

(** logger.Sugar().Error(msg) *)
Definition logError (lg : bool) (msg : string) : M unit :=
  if lg then emit (CallLog msg) else panic nilDeref.

Section Loader.

(** The registry filled by RegisterModule, json.Unmarshal of a raw config
    onto an instance (the decoded instance, nil for a JSON null, or an
    error), and zap.ParseAtomicLevel. *)
Variable modules : gmap string ModuleInfo.
Variable Unmarshal : string -> Module -> option Module + error.
Variable ParseAtomicLevel : string -> option error.

(** Cleanup of an instance whose Provision or Validate failed with [err]. *)
Definition cleanupFailed (val : Module) (err : error) : M error :=
  match CleanerUpper val with
  | Some r =>
      emit (CallCleanup (label val)) ;;
      match r with
      | Some err2 => ret (errorNew (Error err +:+ "; additionally, cleanup: " +:+ Error err2))
      | None => ret err
      end
  | None => ret err
  end.

(** LoadModuleByID.  The constructors registered in this repository return
    pointers, so the branch that replaces a non-pointer value by a new
    pointer of its type is left out. *)
Definition LoadModuleByID (ctx : Context) (id : string) (raw : string) :
    M ((Module + error) * Context) :=
  match modules !! id with
  | None => ret (inr (errorNew ("unknown module: " +:+ id)), ctx)
  | Some info =>
      match New info with
      | None => ret (inr (errorNew ("module '" +:+ ID info +:+ "' has no constructor")), ctx)
      | Some val0 =>
          emit (CallNew id) ;;
          decoded ← (if (0 <? String.length raw)%nat
                      then emit (CallUnmarshal id) ;; ret (Unmarshal raw val0)
                      else ret (inl (Some val0)));
          match decoded with
          | inr err =>
              ret (inr (errorNew ("decoding module config: " +:+ ID info +:+ ": " +:+ Error err)), ctx)
          | inl None => ret (inr (errorNew "module value cannot be null"), ctx)
          | inl (Some val) =>
              provisioned ←
                match Provisioner val with
                | Some r =>
                    emit (CallProvision (label val)) ;;
                    match r with
                    | Some err =>
                        err' ← cleanupFailed val err;
                        ret (Some (errorNew ("provision " +:+ ID info +:+ ": " +:+ Error err')))
                    | None => ret None
                    end
                | None => ret None
                end;
              match provisioned with
              | Some err => ret (inr err, ctx)
              | None =>
                  validated ←
                    match Validator val with
                    | Some r =>
                        emit (CallValidate (label val)) ;;
                        match r with
                        | Some err =>
                            (* since the module was already provisioned, make sure we cleanup *)
                            err' ← cleanupFailed val err;
                            ret (Some (errorNew (ID info +:+ ": invalid configuration: " +:+ Error err')))
                        | None => ret None
                        end
                    | None => ret None
                    end;
                  match validated with
                  | Some err => ret (inr err, ctx)
                  | None =>
                      ret (inl val,
                           mkContext (cfg ctx)
                             (<[id := default [] (moduleInstances ctx !! id) ++ [val]]>
                                (moduleInstances ctx)))
                  end
              end
          end
      end
  end.

(** Context.Archive: load the archive called [name] unless it is loaded. *)
Definition ContextArchive (ctx : Context) (c : Config) (name : string) :
    M (option error * Context * Config) :=
  match archives c !! name with
  | Some _ => ret (None, ctx, c)
  | None =>
      r ← LoadModuleByID ctx name (default "" (ArchivesRaw c !! name));
      match r with
      | (inr err, ctx') =>
          ret (Some (errorNew ("loading " +:+ name +:+ " app module: " +:+ Error err)), ctx', c)
      | (inl modVal, ctx') =>
          match asArchive modVal with
          | None => panic "interface conversion: module is not logarchive.Archive"
          | Some ar =>
              ret (None, ctx',
                   mkConfig (ConfigLogging c) (ConfigMetric c)
                     (match ArchivesRaw c !! name with
                      | Some _ => <[name := ""]> (ArchivesRaw c)   (* allow GC to deallocate *)
                      | None => ArchivesRaw c
                      end)
                     (<[name := ar]> (archives c)))
          end
      end
  end.

(** The cancel function NewContext returns: cancel, then Cleanup on every
    loaded instance; cleanup errors are logged and dropped. *)
Definition wrappedCancel (ctx : Context) : M unit :=
  emit (CallCancel) ;;
  fold_right
    (fun inst k => match CleanerUpper inst with
                   | Some _ => emit (CallCleanup (label inst)) ;; k
                   | None => k
                   end)
    (ret tt)
    (concat (snd <$> map_to_list (moduleInstances ctx))).

(** The loop that loads the archives; [order] is the order in which the
    range over ArchivesRaw meets its keys. *)
Fixpoint loadArchives (ctx : Context) (c : Config) (order : list string) :
    M (option error * Context * Config) :=
  match order with
  | [] => ret (None, ctx, c)
  | archiveName :: rest =>
      match ArchivesRaw c !! archiveName with
      | None => loadArchives ctx c rest
      | Some _ =>
          r ← ContextArchive ctx c archiveName;
          match r with
          | (Some err, ctx', c') => ret (Some err, ctx', c')
          | (None, ctx', c') => loadArchives ctx' c' rest
          end
      end
  end.

(** The loop over [started] after a failed Start. *)
Fixpoint stopStarted (c : Config) (started : list string) (err : error) : M error :=
  match started with
  | [] => ret err
  | startedArchiveName :: rest =>
      match archives c !! startedArchiveName with
      | None => panic nilDeref
      | Some ar =>
          emit (CallStop startedArchiveName) ;;
          match StopErr ar with
          | Some err2 =>
              stopStarted c rest (errorNew (Error err +:+ "; stop archive: " +:+ Error err2))
          | None => stopStarted c rest err
          end
      end
  end.

(** The loop that starts the archives; [order] is the order in which the
    range over the map meets its keys. *)
Fixpoint startArchives (c : Config) (order : list string) (started : list string) :
    M (option error) :=
  match order with
  | [] => ret None
  | name :: rest =>
      match archives c !! name with
      | None => startArchives c rest started
      | Some ar =>
          emit (CallStart name) ;;
          match StartErr ar with
          | Some err =>
              err' ← stopStarted c started err;
              ret (Some (errorNew ("archive start: " +:+ Error err')))
          | None => startArchives c rest (started ++ [name])
          end
      end
  end.

Definition LoggingProvision (l : Logging) : M (option error * Logging) :=
  emit CallLoggingProvision ;;
  match ParseAtomicLevel (Level l) with
  | Some err => ret (Some err, l)
  | None => ret (None, mkLogging (Level l) true)
  end.

Definition MetricProvision (ctx : Context) (m : Metric) : M (option error * Metric) :=
  emit CallMetricProvision ;;
  _ ← Logger ctx;
  ret (None, mkMetric (OutPath m) (if ScrapInterval m =? 0 then 60 else ScrapInterval m) false).

Definition MetricStart (m : Metric) : M (option error) :=
  emit CallMetricStart ;; ret None.

Definition MetricStop (m : Metric) : M (option error * Metric) :=
  if metricDone m then ret (None, m)
  else emit CallMetricStop ;; ret (None, mkMetric (OutPath m) (ScrapInterval m) true).

(** run.  The deferred function cancels the new context when the variable
    [err] of run is not nil at the return; the two early returns for Logging
    and Metric return an error of an inner scope and leave that variable nil. *)
Definition run (newCfg : Config) (rawOrder startOrder : list string) :
    M (Context * option error) :=
  let ctx := mkContext (Some newCfg) ∅ in
  r ← match ConfigLogging newCfg with
       | Some l => LoggingProvision l
       | None => ret (None, mkLogging "" false)
       end;
  let newCfg := mkConfig (match ConfigLogging newCfg with
                          | Some _ => Some (snd r)
                          | None => None
                          end) (ConfigMetric newCfg) (ArchivesRaw newCfg) (archives newCfg) in
  let ctx := mkContext (Some newCfg) ∅ in
  match fst r with
  | Some err => ret (ctx, Some err)
  | None =>
      r ← match ConfigMetric newCfg with
           | Some m => MetricProvision ctx m
           | None => ret (None, mkMetric "" 0 false)
           end;
      let newCfg := mkConfig (ConfigLogging newCfg)
                      (match ConfigMetric newCfg with
                       | Some _ => Some (snd r)
                       | None => None
                       end) (ArchivesRaw newCfg) ∅ in
      let ctx := mkContext (Some newCfg) ∅ in
      match fst r with
      | Some err => ret (ctx, Some err)
      | None =>
          (* load archives *)
          r ← loadArchives ctx newCfg rawOrder;
          let '(err, ctx, newCfg) := r in
          let ctx := mkContext (Some newCfg) (moduleInstances ctx) in
          match err with
          | Some err => wrappedCancel ctx ;; ret (ctx, Some err)
          | None =>
              (* start archives *)
              err ← startArchives newCfg startOrder [];
              (* start record metric *)
              err ← match ConfigMetric newCfg with
                     | Some m => MetricStart m
                     | None => ret err
                     end;
              match err with
              | Some _ => wrappedCancel ctx ;; ret (ctx, err)
              | None => ret (ctx, err)
              end
          end
      end
  end.

Variable decodeConfig : string -> Config + error.

(** The package-level root context and the record of calls. *)
Record World : Type := mkWorld {
  logarchiveCtx : Context;
  log : list call
}.

(** Start *)
Definition Start (cfgBytes : string) (rawOrder startOrder : list string) (w : World) :
    outcome (option error) * World :=
  match decodeConfig cfgBytes with
  | inr err => (Returned (Some err), w)
  | inl newCfg =>
      match run newCfg rawOrder startOrder with
      | (Panicked msg, l) => (Panicked msg, mkWorld (logarchiveCtx w) (log w ++ l))
      | (Returned (ctx, Some err), l) => (Returned (Some err), mkWorld (logarchiveCtx w) (log w ++ l))
      | (Returned (ctx, None), l) => (Returned None, mkWorld ctx (log w ++ l))
      end
  end.

(** The loop of shutdown over the archives. *)
Fixpoint stopArchives (c : Config) (order : list string) (err : option error) : M (option error) :=
  match order with
  | [] => ret err
  | name :: rest =>
      match archives c !! name with
      | None => stopArchives c rest err
      | Some s =>
          emit (CallStop name) ;;
          match StopErr s with
          | Some err2 =>
              stopArchives c rest (Some (errorNew (fmtV err +:+ "; stop archive: " +:+ Error err2)))
          | None => stopArchives c rest err
          end
      end
  end.

Definition shutdown (ctx : Context) (order : list string) : M (option error * Context) :=
  match cfg ctx with
  | None => ret (None, ctx)
  | Some c =>
      (* stop metric *)
      r ← match ConfigMetric c with
           | Some m => MetricStop m
           | None => ret (None, mkMetric "" 0 false)
           end;
      let err :=
        match fst r with
        | Some err2 => Some (errorNew (fmtV None +:+ "; stop metric: " +:+ Error err2))
        | None => None
        end in
      let c' := mkConfig (ConfigLogging c)
                  (match ConfigMetric c with Some _ => Some (snd r) | None => None end)
                  (ArchivesRaw c) (archives c) in
      (* stop archives *)
      err ← stopArchives c' order err;
      wrappedCancel ctx ;;
      ret (err, mkContext (Some c') (moduleInstances ctx))
  end.

(** Stop *)
Definition Stop (order : list string) (w : World) : outcome (option error) * World :=
  let m : M (option error * Context) :=
    lg ← Logger (logarchiveCtx w);
    logError lg "logarchive shutdown" ;;
    shutdown (logarchiveCtx w) order in
  match m with
  | (Panicked msg, l) => (Panicked msg, mkWorld (logarchiveCtx w) (log w ++ l))
  | (Returned (Some err, ctx), l) => (Returned (Some err), mkWorld ctx (log w ++ l))
  | (Returned (None, ctx), l) => (Returned None, mkWorld emptyContext (log w ++ l))
  end.

End Loader.

End Logarchive.

(** * Vocabulary of the properties *)

Module PoolStates.
Import FileArchive FileArchive.Pool.

(** The operations of the program on the two pools. *)
Inductive poolOp : Type :=
| OpNewNotifyInfo (choice : option nat) (typ : notifyType) (watchPath filePath : string) (result : bool)
| OpReleaseNotifyInfo (info : option notifyInfo)
| OpNewCacheKey (choice : option nat) (watchPath filePath : string)
| OpReleaseCacheKey (key : option fileCacheKey).

Definition applyOp (p : Pools) (op : poolOp) : Pools :=
  match op with
  | OpNewNotifyInfo choice typ w f r => snd (newNotifyInfo choice typ w f r p)
  | OpReleaseNotifyInfo info => releaseNotifyInfo info p
  | OpNewCacheKey choice w f => snd (newCacheKey choice w f p)
  | OpReleaseCacheKey key => releaseCacheKey key p
  end.

Definition emptyPools : Pools := mkPools [] [].

(** A pool state the program can be in: some operations after the start. *)
Definition reachable (p : Pools) : Prop :=
  exists ops : list poolOp, fold_left applyOp ops emptyPools = p.

Definition isNotifyInfo (x : pooled) : Prop := exists n, x = PooledNotifyInfo n.

(** "Every value obtained from notifyPool is a *notifyInfo." *)
Definition notifyPoolTyped (p : Pools) : Prop := Forall isNotifyInfo (notifyPool p).

End PoolStates.

Module Daemon.
Import Logarchive.

Definition stopCalls (l : list call) : list string :=
  omap (fun c => match c with CallStop name => Some name | _ => None end) l.

Definition startCalls (l : list call) : list string :=
  omap (fun c => match c with CallStart name => Some name | _ => None end) l.

(** The error that accumulates while the started archives are stopped. *)
Fixpoint aggregated (c : Config) (started : list string) (err : error) : error :=
  match started with
  | [] => err
  | name :: rest =>
      match archives c !! name with
      | Some ar =>
          match StopErr ar with
          | Some err2 => aggregated c rest (errorNew (Error err +:+ "; stop archive: " +:+ Error err2))
          | None => aggregated c rest err
          end
      | None => err
      end
  end.


End Daemon.

Module DaemonExamples.
Import Logarchive Daemon.

(** A module whose type implements every interface; Provision, Validate
    and Cleanup succeed. *)
Definition archiveModule (name : string) (startErr stopErr : option error) : ModuleInfo :=
  mkModuleInfo name
    (Some (mkModule name (Some None) (Some None) (Some None)
             (Some (mkArchiveImpl startErr stopErr)))).

(** Three archives: "a" and "b" start, "c" does not; "b" fails to stop. *)
Definition threeModules : gmap string ModuleInfo :=
  {[ "a" := archiveModule "a" None None;
     "b" := archiveModule "b" None (Some (errorNew "close watcher"));
     "c" := archiveModule "c" (Some (errorNew "no watcher")) None ]}.

Definition decodeOnto : string -> Module -> option Module + error :=
  fun _ val => inl (Some val).

Definition anyLevel : string -> option error := fun _ => None.

Definition threeConfig : Config :=
  mkConfig (Some (mkLogging "info" false)) None
    {[ "a" := "{}"; "b" := "{}"; "c" := "{}" ]} ∅.

Definition decodeThree : string -> Config + error := fun _ => inl threeConfig.

Definition noWorld : World := mkWorld emptyContext [].

Definition startThree : outcome (option error) * World :=
  Start threeModules decodeOnto anyLevel decodeThree "" ["a"; "b"; "c"] ["a"; "b"; "c"] noWorld.

(** The configuration when the archives are loaded, and what loading gives. *)
Definition threeProvisioned : Config :=
  mkConfig (Some (mkLogging "info" true)) None (ArchivesRaw threeConfig) ∅.




(** The same three archives with a metric collector configured. *)
Definition threeConfigMetric : Config :=
  mkConfig (Some (mkLogging "info" false)) (Some (mkMetric "/tmp" 0 false))
    {[ "a" := "{}"; "b" := "{}"; "c" := "{}" ]} ∅.

Definition startThreeMetric : outcome (option error) * World :=
  Start threeModules decodeOnto anyLevel (fun _ => inl threeConfigMetric) ""
    ["a"; "b"; "c"] ["a"; "b"; "c"] noWorld.

(** A started daemon with logging, a metric collector and one archive. *)
Definition runningWorld : World :=
  mkWorld
    (mkContext
       (Some (mkConfig (Some (mkLogging "info" true)) (Some (mkMetric "/tmp" 60 false)) ∅
                {[ "file" := mkArchiveImpl None None ]}))
       {[ "file" := [mkModule "file" (Some None) (Some None) (Some None)
                       (Some (mkArchiveImpl None None))] ]})
    [].

End DaemonExamples.



Module Loading.
Import Logarchive.

(** What the spec says of LoadModuleByID, for an instance [val] that was
    constructed and decoded. *)
Definition provisionFailure (val : Module) : option error :=
  match Provisioner val with
  | Some r => r
  | None => None
  end.

Definition validateFailure (val : Module) : option error :=
  match Validator val with
  | Some r => r
  | None => None
  end.

(** The failure combined with the error of Cleanup, if there is one. *)
Definition combined (val : Module) (err : error) : error :=
  match CleanerUpper val with
  | Some (Some err2) => errorNew (Error err +:+ "; additionally, cleanup: " +:+ Error err2)
  | _ => err
  end.

Definition cleanupCalls (val : Module) : list call :=
  match CleanerUpper val with
  | Some _ => [CallCleanup (label val)]
  | None => []
  end.

(** Construct, deserialize if [raw] is not empty, Provision, Validate; a
    failed step is followed by Cleanup and ends the sequence. *)
Definition lifecycleCalls (id raw : string) (val : Module) : list call :=
  [CallNew id]
  ++ (if (0 <? String.length raw)%nat then [CallUnmarshal id] else [])
  ++ match Provisioner val with
     | Some (Some _) => CallProvision (label val) :: cleanupCalls val
     | Some None =>
         CallProvision (label val)
         :: match Validator val with
            | Some (Some _) => CallValidate (label val) :: cleanupCalls val
            | Some None => [CallValidate (label val)]
            | None => []
            end
     | None =>
         match Validator val with
         | Some (Some _) => CallValidate (label val) :: cleanupCalls val
         | Some None => [CallValidate (label val)]
         | None => []
         end
     end.

Definition recorded (ctx : Context) (id : string) (val : Module) : Context :=
  mkContext (cfg ctx) (<[id := default [] (moduleInstances ctx !! id) ++ [val]]> (moduleInstances ctx)).

(** The cos output module with a bucket that does not exist: Provision
    succeeds, Validate fails, Cleanup returns nil. *)
Definition cosInstance : Module :=
  mkModule "cos" (Some None) (Some (Some (errorNew "cos bucket does not exist"))) (Some None) None.

Definition cosRegistry : gmap string ModuleInfo :=
  {[ "output.cos" := mkModuleInfo "output.cos" (Some cosInstance) ]}.

End Loading.

Module CompressExamples.
Import Compress Cos.

(** An encoder none of whose operations fails (the writer is a bytes.Buffer). *)
Definition bufferEncoder : Encoder := mkEncoder (fun _ => None) (fun _ => None) None.

(** A file of [chunks] * 4096 bytes read by os.File.Read in full chunks. *)
Definition fileOf (chunks : nat) : reader := replicate chunks (chunkLen, ReadNil).

(** 32 MiB *)
Definition bigFile : reader := fileOf (128 * 64).

Definition mtime20240115 : Time := mkTime 1705305600 2024 1 15 8.

Definition bigOS : OS :=
  mkOS (fun path =>
          if String.eqb path "/var/log/app/big.log"
          then inl (mkFileInfo false mtime20240115 (32 * 1024 * 1024))
          else inr "no such file or directory")
       mtime20240115
       (fun path =>
          if String.eqb path "/var/log/app/big.log" then inl bigFile
          else inr "no such file or directory").

Definition okClient : Client := mkClient (fun _ _ => None) (fun _ => None).

Definition zstdDaily : Handler := mkHandler (mkUploadRule DayArchive ZSTD 0 0) okClient.

Definition noMetrics : Metrics := mkMetrics ∅ ∅.

Definition bigTask : OutputTask := CosTask (mkTask "/var/log/app" "/var/log/app/big.log").


End CompressExamples.

Module KeyShape.
Import Compress Cos.

(** The time bucket of the spec: the modification time printed as
    YYYYMMDDHH, YYYYMMDD, YYYYMM or YYYY, or nothing. *)
Definition YYYY (t : Time) : string := appendInt (Year t) 4.
Definition MM (t : Time) : string := appendInt (Month t) 2.
Definition DD (t : Time) : string := appendInt (Day t) 2.
Definition HH (t : Time) : string := appendInt (Hour t) 2.

Definition bucket (rule : string) (mtime : Time) : string :=
  if decide (rule = "hour") then YYYY mtime +:+ MM mtime +:+ DD mtime +:+ HH mtime
  else if decide (rule = "day") then YYYY mtime +:+ MM mtime +:+ DD mtime
  else if decide (rule = "month") then YYYY mtime +:+ MM mtime
  else if decide (rule = "year") then YYYY mtime
  else "".

Definition suffix (algorithm : string) : string :=
  if decide (algorithm = "zstd") then ".zst"
  else if decide (algorithm = "lz4") then ".lz4"
  else "".

Definition requestKey (r : request) : string :=
  match r with
  | Upload key _ => key
  | Put key _ => key
  end.

(** [filePath] lies below [rootPath]: the elements of the cleaned root are
    a prefix of those of the cleaned file path. *)
Fixpoint isPrefix (p l : list string) : bool :=
  match p, l with
  | [], _ => true
  | x :: p', y :: l' => String.eqb x y && isPrefix p' l'
  | _ :: _, [] => false
  end.

Definition isDescendant (rootPath filePath : string) : bool :=
  Bool.eqb (Filepath.isRooted rootPath) (Filepath.isRooted filePath)
  && isPrefix (Filepath.cleanComps rootPath) (Filepath.cleanComps filePath).

(** A path element that Clean keeps as it is. *)
Definition normal (c : string) : Prop :=
  c <> "" /\ c <> "." /\ c <> ".." /\ Filepath.hasSeparator c = false.

(** The elements of a cleaned relative path: some "..", then normal ones. *)
Definition cleanRel (cs : list string) : Prop :=
  exists (k : nat) (ns : list string), cs = replicate k ".." ++ ns /\ Forall normal ns.

(** The stack that Clean builds: normal elements on top of the ".." that
    lead a relative path; no ".." at all below a root. *)
Definition cleanStack (rooted : bool) (out : list string) : Prop :=
  exists (k : nat) (ns : list string),
    out = ns ++ replicate k ".." /\ Forall normal ns /\ (rooted = true -> k = 0%nat).

(** Scenario 1 of the spec: a.log under /var/log/app, archived by day. *)
Definition logOS : OS :=
  mkOS (fun path =>
          if String.eqb path "/var/log/app/a.log"
          then inl (mkFileInfo false (mkTime 1705305600 2024 1 15 8) 1024)
          else inr "no such file or directory")
       (mkTime 1705305720 2024 1 15 8)
       (fun _ => inr "no such file or directory").

Definition plainDaily : Handler :=
  mkHandler (mkUploadRule DayArchive NONE 0 0) (mkClient (fun _ _ => None) (fun _ => None)).

Definition logTask : Task := mkTask "/var/log/app" "/var/log/app/a.log".

(** A file next to the root, not below it. *)
Definition strayOS : OS :=
  mkOS (fun path =>
          if String.eqb path "/var/log/other/b.log"
          then inl (mkFileInfo false (mkTime 1705305600 2024 1 15 8) 1024)
          else inr "no such file or directory")
       (mkTime 1705305720 2024 1 15 8)
       (fun _ => inr "no such file or directory").

Definition strayTask : Task := mkTask "/var/log/app" "/var/log/other/b.log".

(** A relative file path against an absolute root. *)
Definition relativeOS : OS :=
  mkOS (fun path =>
          if String.eqb path "app/a.log"
          then inl (mkFileInfo false (mkTime 1705305600 2024 1 15 8) 1024)
          else inr "no such file or directory")
       (mkTime 1705305720 2024 1 15 8)
       (fun _ => inr "no such file or directory").

Definition relativeTask : Task := mkTask "/var/log/app" "app/a.log".

End KeyShape.

Module Quiescence.
Import FileArchive.

(** A submitted closure is past the quiescence window of its file at tick
    time [t]: the file exists and its modification time plus
    ModifyProtectTime is not after [t].  The sum is the 64-bit one of the
    code, which is the sum of the integers whenever that fits in 64 bits. *)
Definition quiesced (cfg : Config) (t : Z) (stat : string -> FileInfo + string) (tk : task) : Prop :=
  exists info : FileInfo,
    stat (taskFilePath tk) = inl info
    /\ add64 (Unix (ModTime info)) (ModifyProtectTime (CollectRule cfg)) <= t
    /\ (inInt64 (Unix (ModTime info) + ModifyProtectTime (CollectRule cfg)) ->
        Unix (ModTime info) + ModifyProtectTime (CollectRule cfg) <= t).

Definition withProtectedEndTime (v : fileInfo) (p : Z) : fileInfo :=
  mkFileInfoEntry (uploadFailedCount v) (deleteFailedCount v) p (status v).

(** Scenario 1 of the spec: /var/log/app holds a.log, protected for 60 s. *)
Definition appConfig : Config :=
  mkConfig 1 ["/var/log/app"] (mkCollectRule false 60) [] (Cos.CosTask (Cos.mkTask "" "")).

Definition waiting (protectedEndTime : Z) : fileInfo :=
  mkFileInfoEntry 0 0 protectedEndTime fileStatusWaitUpload.

Definition appState (v : fileInfo) : State :=
  mkState {[ "/var/log/app" := mkElement "/var/log/app" {[ "/var/log/app/a.log" := v ]} ]}
    [] [] [] false ∅ [] 0 [] [].

(** os.Stat when a.log was last modified at [mtime]. *)
Definition statAt (mtime : Z) : string -> FileInfo + string :=
  fun path =>
    if String.eqb path "/var/log/app/a.log"
    then inl (mkFileInfo false (mkTime mtime 2024 1 15 8) 1024)
    else inr "no such file or directory".

(** A ModifyProtectTime of the largest int64, the file system with a.log
    last modified at 900, and the event loop seeing a.log created and then
    the tick at 1000. *)
Definition foreverConfig : Config :=
  mkConfig 1 ["/var/log/app"] (mkCollectRule false 9223372036854775807) []
    (Cos.CosTask (Cos.mkTask "" "")).

Definition foreverOS : OS := mkOS (statAt 900) (fun _ => []) (fun _ => None).

(** The directory is watched and holds no file yet. *)
Definition appDirState : State :=
  mkState {[ "/var/log/app" := mkElement "/var/log/app" ∅ ]} [] [] [] false ∅ [] 0 [] [].

Definition createdThenTick : list action :=
  [ActWatcher foreverOS (mkEvent "/var/log/app/a.log" true false false false false);
   ActTick 1000 (Stat foreverOS) [("/var/log/app", "/var/log/app/a.log")]].

End Quiescence.

Module Lifecycle.
Import FileArchive.

Definition countZ {A : Type} (f : A -> bool) (l : list A) : Z :=
  Z.of_nat (List.length (List.filter f l)).

Section OneFile.

(** The file that is followed: [k] in the cache entry of watch directory [w]. *)
Variables (w k : string).

Definition isFile (w' k' : string) : bool := String.eqb w' w && String.eqb k' k.

Definition taskFor (tk : task) : bool := isFile (taskWatchPath tk) (taskFilePath tk).

Definition isOutput (n : notifyInfo) : bool :=
  match typ n with notifyTypeOutputTask => true | _ => false end.

Definition isDelete (n : notifyInfo) : bool :=
  match typ n with notifyTypeDeleteTask => true | _ => false end.

Definition outputNotifyFor (n : notifyInfo) : bool :=
  isOutput n && isFile (watchPath n) (filePath n).

Definition okNotifyFor (n : notifyInfo) : bool := outputNotifyFor n && result n.

Definition deleteNotifyFor (n : notifyInfo) : bool :=
  isDelete n && isFile (watchPath n) (filePath n).

Definition keyFor (e : fileCacheKey) : bool := isFile (keyWatchPath e) (keyFilePath e).

Definition executeFor (c : call) : bool :=
  match c with
  | CallExecute w' _ k' _ => isFile w' k'
  | CallRemove _ _ _ => false
  end.

Definition failedExecuteFor (c : call) : bool :=
  match c with
  | CallExecute w' _ k' ok => isFile w' k' && negb ok
  | CallRemove _ _ _ => false
  end.

Definition removeFor (c : call) : bool :=
  match c with
  | CallRemove w' k' _ => isFile w' k'
  | CallExecute _ _ _ _ => false
  end.

(** Upload attempts: the calls of output.Execute for the file so far. *)
Definition attempts (s : State) : Z := countZ executeFor (calls s).
Definition failedAttempts (s : State) : Z := countZ failedExecuteFor (calls s).

(** Calls of os.Remove for the file so far. *)
Definition removals (s : State) : Z := countZ removeFor (calls s).

(** What is under way for the file: closures waiting for a worker, upload
    results waiting for the event loop (and those of them that report
    success), keys waiting for a delete worker, delete results waiting for
    the event loop. *)
Definition queued (s : State) : Z := countZ taskFor (tasks s).
Definition notified (s : State) : Z := countZ outputNotifyFor (notifyChan s).
Definition notifiedOk (s : State) : Z := countZ okNotifyFor (notifyChan s).
Definition deleteQueued (s : State) : Z := countZ keyFor (deleteChan s).
Definition deleteNotified (s : State) : Z := countZ deleteNotifyFor (notifyChan s).

(** The file is newly tracked: it waits for its first upload and nothing of
    it is under way or on record. *)
Definition fresh (s : State) : Prop :=
  (exists p, getFile (fileCache s) w k = Some (mkFileInfoEntry 0 0 p fileStatusWaitUpload))
  /\ queued s = 0 /\ notified s = 0 /\ deleteQueued s = 0 /\ deleteNotified s = 0
  /\ attempts s = 0 /\ removals s = 0.


(** A watcher event that names neither the file nor its watch directory. *)
Definition quietAction (a : action) : Prop :=
  match a with
  | ActWatcher _ event => EvName event <> w /\ EvName event <> k
  | _ => True
  end.

(** The invariant of the file's life cycle, on the cache entry [fi] of the
    file and the counts: [q] closures queued, [n] upload results pending of
    which [nok] report success, [dk] keys queued for deletion, [dn] delete
    results pending, [x] upload attempts of which [xf] failed, [rm] calls of
    os.Remove. *)
Definition good (keep : bool) (fi : option fileInfo) (q n nok dk dn x xf rm : Z) : Prop :=
  (0 < dn -> 0 < rm)
  /\ (keep = true -> dk + dn = 0 /\ rm = 0)
  /\ match fi with
     | None => x + q <= 3 /\ dk + dn = 0
     | Some v =>
         let c := uploadFailedCount v in
         match status v with
         | fileStatusWaitUpload =>
             q = 0 /\ n = 0 /\ dk + dn = 0 /\ rm = 0 /\ x = c /\ xf = c /\ 0 <= c < 3
         | fileStatusUploading =>
             (q + n = 1 /\ dk + dn = 0 /\ rm = 0
              /\ x + q = c + 1 /\ xf + q + nok = c + 1 /\ 0 <= c < 3)
             \/ (q + n = 0 /\ dk + dn = 1 /\ keep = false /\ x = 3 /\ xf = 3 /\ c = 3)
         | fileStatusUploaded =>
             q + n = 0 /\ dk + dn = 1 /\ keep = false /\ x = c + 1 /\ xf = c /\ 0 <= c < 3
         | fileStatusUnKnown => False
         end
     end.

Definition lifecycle (cfg : Config) (s : State) : Prop :=
  good (KeepSourceFile (CollectRule cfg)) (getFile (fileCache s) w k)
    (queued s) (notified s) (notifiedOk s) (deleteQueued s) (deleteNotified s)
    (attempts s) (failedAttempts s) (removals s).

(** The labels under which a discarded file is counted. *)
Definition discardLabels : list string := [Name ID; Itoa discardReasonReachMaxRetry].

Definition discarded (s : State) : nat := counterValue discardLabels (InputDiscardTotal s).




End OneFile.

(** The archive uploads through the cos module, the one output module there
    is: output.TaskInfo().New() returns a *cos.Task. *)
Definition outputIsCos (cfg : Config) : Prop := exists t, outputTask cfg = Cos.CosTask t.

(** Scenario 2 of the spec, and its variant with a third attempt that
    succeeds: tick, upload, result, three times over. *)
Definition failing : Cos.OutputTask -> option error := fun _ => Some (errorNew "remote call failed").
Definition succeeding : Cos.OutputTask -> option error := fun _ => None.

Definition aLog : list (string * string) := [("/var/log/app", "/var/log/app/a.log")].

Definition attempt (t : Z) (execute : Cos.OutputTask -> option error) : list action :=
  [ActTick t (Quiescence.statAt 900) aLog; ActOutputWorker execute; ActNotify (t + 1)].


Definition failThrice : list action :=
  attempt 1000 failing ++ attempt 1100 failing ++ attempt 1200 failing.

Definition removing : string -> option string := fun _ => None.




End Lifecycle.
(** * The rest of the daemon's code *)

(** ** logarchive/module.go: the registry and the struct tags *)

(** Whether the byte [c] occurs in [s]. *)
Fixpoint hasByte (c : ascii) (s : string) : bool :=
  match s with
  | EmptyString => false
  | String a rest => Ascii.eqb a c || hasByte c rest
  end.

(** strings.Cut for a separator of one byte: the text before and after the
    first separator, and whether there is one. *)
Fixpoint Cut (s : string) (sep : ascii) : string * string * bool :=
  match s with
  | EmptyString => (EmptyString, EmptyString, false)
  | String a rest =>
      if Ascii.eqb a sep then (EmptyString, rest, true)
      else let '(before, after, found) := Cut rest sep in (String a before, after, found)
  end.

Module Registry.
Import Logarchive.

(** What RegisterModule sees of [instance.ArchiveModule()]: the ID, whether
    New is nil, and whether the value New returns is nil. *)
Record Registration : Type := mkRegistration {
  RegID : string;
  RegNew : option (option Module)
}.

Definition RegisterModule (instance : Registration) (modules : gmap string ModuleInfo) :
    outcome (gmap string ModuleInfo) :=
  if String.eqb (RegID instance) "" then Panicked "module ID missing"
  else
    match RegNew instance with
    | None => Panicked "missing ModuleInfo.New"
    | Some None => Panicked "ModuleInfo.New must return a non-nil module instance"
    | Some (Some val) =>
        match modules !! RegID instance with
        | Some _ => Panicked ("module already registered: " +:+ RegID instance)
        | None => Returned (<[RegID instance := mkModuleInfo (RegID instance) (Some val)]> modules)
        end
    end.

(** The init functions of the module packages, each registering its module,
    one after the other; a panic ends the program. *)
Fixpoint registerAll (instances : list Registration) (modules : gmap string ModuleInfo) :
    outcome (gmap string ModuleInfo) :=
  match instances with
  | [] => Returned modules
  | instance :: rest =>
      match RegisterModule instance modules with
      | Returned modules' => registerAll rest modules'
      | Panicked msg => Panicked msg
      end
  end.

(** The loop of ParseStructTag over the pairs, [i] being the index of the
    first of them. *)
Fixpoint parsePairs (i : Z) (pairs : list string) (results : gmap string string) :
    gmap string string + error :=
  match pairs with
  | [] => inl results
  | item :: rest =>
      if String.eqb item "" then parsePairs (i + 1) rest results
      else
        match Cut item "="%char with
        | (before, after, true) => parsePairs (i + 1) rest (<[before := after]> results)
        | (_, _, false) =>
            inr (errorNew ("missing key in '" +:+ item +:+ "' (pair " +:+ Itoa i +:+ ")"))
        end
  end.

Definition ParseStructTag (tag : string) : gmap string string + error :=
  parsePairs 0 (splitOn " "%char tag) ∅.

(** A key with its value as a struct tag writes them. *)
Definition pairText (kv : string * string) : string := fst kv +:+ "=" +:+ snd kv.

(** A registry that the program can have: the result of some init functions. *)
Definition registered (modules : gmap string ModuleInfo) : Prop :=
  exists instances, registerAll instances ∅ = Returned modules.

(** The cos output module as its init function registers it. *)
Definition moduleInits : list Registration :=
  [mkRegistration "output.cos" (Some (Some Loading.cosInstance))].

Definition builtinModules : gmap string ModuleInfo :=
  <["output.cos" := mkModuleInfo "output.cos" (Some Loading.cosInstance)]> ∅.

End Registry.

(** ** pkg/compress: what a reader holds *)

Module Streams.
Import Compress.

(** The bytes that the successive reads deliver until the reader ends, with
    (0, io.EOF) or with an error of its own. *)
Fixpoint delivered (r : reader) : Z :=
  match r with
  | [] => 0
  | (n, ReadNil) :: r' => n + delivered r'
  | (n, ReadEOF) :: r' => if n =? 0 then 0 else n + delivered r'
  | (n, ReadFail _) :: _ => n
  end.

(** A small file read in one piece, and an encoder that fails to flush. *)
Definition smallFile : reader := [(1000, ReadNil); (0, ReadEOF)].

Definition smallOS : Cos.OS :=
  Cos.mkOS
    (fun path =>
       if String.eqb path "/var/log/app/a.log"
       then inl (mkFileInfo false CompressExamples.mtime20240115 1000)
       else inr ("stat " +:+ path +:+ ": no such file or directory"))
    CompressExamples.mtime20240115
    (fun _ => inl smallFile).

Definition lz4Daily : Cos.Handler :=
  Cos.mkHandler (Cos.mkUploadRule Cos.DayArchive LZ4 0 0) CompressExamples.okClient.

End Streams.

(** ** Package logarchive: what Start and Stop leave in the record of calls *)

Module Shutdown.
Import Logarchive.

(** The names of [order] that are loaded archives of [c]. *)
Definition loadedOf (c : Config) (order : list string) : list string :=
  List.filter (fun name => bool_decide (is_Some (archives c !! name))) order.

(** Every archive of [order] stops without error. *)
Definition allStop (c : Config) (order : list string) : Prop :=
  Forall (fun name => forall ar, archives c !! name = Some ar -> StopErr ar = None) order.

(** Every archive of [order] starts without error. *)
Definition allStartOk (c : Config) (order : list string) : Prop :=
  Forall (fun name => forall ar, archives c !! name = Some ar -> StartErr ar = None) order.

(** A call that loading a module makes on the module. *)
Definition loadingCall (c : call) : bool :=
  match c with
  | CallNew _ | CallUnmarshal _ | CallProvision _ | CallValidate _ | CallCleanup _ => true
  | _ => false
  end.

(** How often the context was cancelled. *)
Definition cancels (l : list call) : nat :=
  List.length (List.filter (fun c => match c with CallCancel => true | _ => false end) l).

End Shutdown.

(** ** The file archive: what the archive keeps and what it leaves alone *)

Module Tracking.
Import FileArchive.

(** The file that a call to the outside is about. *)
Definition callFile (c : call) : string :=
  match c with
  | CallExecute _ _ filePath _ => filePath
  | CallRemove _ filePath _ => filePath
  end.

(** No excluded file is in the cache, in a queued closure, in a key queued
    for deletion or in a call made. *)
Definition noExcluded (cfg : Config) (s : State) : Prop :=
  (forall w k, is_Some (getFile (fileCache s) w k) -> excluded cfg k = false)
  /\ Forall (fun tk => excluded cfg (taskFilePath tk) = false) (tasks s)
  /\ Forall (fun e => excluded cfg (keyFilePath e) = false) (deleteChan s)
  /\ Forall (fun c => excluded cfg (callFile c) = false) (calls s).

(** The archive when Provision has made its maps and channels. *)
Definition idle : State := mkState ∅ [] [] [] false ∅ [] 0 [] [].

(** An archive that leaves aside the files whose name ends in ".tmp"
    (what the pattern matches is given), a directory with one such file and
    one log file, and the events of their creation. *)
Definition endsInTmp (path : string) : bool :=
  String.eqb (substring (String.length path - 4) 4 path) ".tmp".

Definition tmpConfig : Config :=
  mkConfig 1 ["/var/log/app"] (mkCollectRule false 60) [endsInTmp]
    (Cos.CosTask (Cos.mkTask "" "")).

Definition appDirOS : OS :=
  mkOS
    (fun path =>
       if String.eqb path "/var/log/app"
       then inl (mkFileInfo true (mkTime 900 2024 1 15 8) 4096)
       else inl (mkFileInfo false (mkTime 900 2024 1 15 8) 10))
    (fun _ => [])
    (fun _ => None).

Definition created (name : string) : Event := mkEvent name true false false false false.

Definition tmpSchedule : list action :=
  [ActWatcher appDirOS (created "/var/log/app");
   ActWatcher appDirOS (created "/var/log/app/a.tmp");
   ActWatcher appDirOS (created "/var/log/app/a.log");
   ActTick 1000 (Stat appDirOS) [("/var/log/app", "/var/log/app/a.tmp");
                                 ("/var/log/app", "/var/log/app/a.log")];
   ActOutputWorker Lifecycle.succeeding;
   ActNotify 1001;
   ActDeleteWorker Lifecycle.removing].

(** Two base paths, and a directory that appears below the second. *)
Definition twoRoots : Config :=
  mkConfig 1 ["/var/log/a"; "/var/log/b"] (mkCollectRule false 60) []
    (Cos.CosTask (Cos.mkTask "" "")).

Definition dirOS : OS :=
  mkOS (fun _ => inl (mkFileInfo true (mkTime 900 2024 1 15 8) 4096)) (fun _ => [])
    (fun _ => None).

(** A directory with a log file, a temporary file and a subdirectory, as
    WalkDir hands them to the function of addWatchPath. *)
Definition appEntries : list walkEntry :=
  [mkWalkEntry "/var/log/app" None true (inl (mkFileInfo true (mkTime 900 2024 1 15 8) 4096));
   mkWalkEntry "/var/log/app/a.log" None false (inl (mkFileInfo false (mkTime 900 2024 1 15 8) 10));
   mkWalkEntry "/var/log/app/a.tmp" None false (inl (mkFileInfo false (mkTime 950 2024 1 15 8) 10));
   mkWalkEntry "/var/log/app/old" None true (inl (mkFileInfo true (mkTime 100 2024 1 15 8) 4096))].

Definition walkOS : OS :=
  mkOS (fun _ => inr "no such file or directory") (fun _ => appEntries) (fun _ => None).

(** The entry of WalkDir that makes addWatchPath track the file [k]. *)
Definition tracks (cfg : Config) (k : string) (d : walkEntry) : Prop :=
  walkPath d = k /\ walkIsDir d = false /\ excluded cfg k = false.

End Tracking.

(** ** Package logarchive: loading the modules of a struct field

    Context.LoadModule reads the field by reflection.  Here the field is
    what reflection finds for its name: its struct tag and its value, which
    carries its type.  The field is an exported one, so that setting it to
    its zero value does not panic. *)

Module Fields.
Import Logarchive.

(** reflect.StructTag, as the key:"value" pairs that it is made of, in the
    order in which they are written. *)
Definition StructTag : Type := list (string * string).

(** StructTag.Get: the value of the first pair with the key, or "". *)
Fixpoint Get (tag : StructTag) (key : string) : string :=
  match tag with
  | [] => ""
  | (k, v) :: rest => if String.eqb k key then v else Get rest key
  end.

(** The value of a field with its type.  A map is the list of its entries
    in the order in which MapRange meets them, each key as Value.String()
    gives it. *)
Inductive fieldValue : Type :=
| RawMessage (raw : string)                               (* json.RawMessage *)
| RawMessages (raws : list string)                        (* []json.RawMessage *)
| RawMessageLists (raws : list (list string))             (* [][]json.RawMessage *)
| ModuleMaps (maps : list (list (string * string)))       (* []map[string]json.RawMessage *)
| OtherSlice (typ : string)                               (* any other slice *)
| MapOfRaw (typ : string) (stringKeys : bool) (entries : list (string * string))
                                                          (* map[K]json.RawMessage *)
| MapOfOther (typ elem : string) (keys : list string)     (* any other map *)
| OtherKind (typ : string).                               (* neither slice nor map *)

(** reflect.Zero of the type of the value. *)
Definition Zero (val : fieldValue) : fieldValue :=
  match val with
  | RawMessage _ => RawMessage ""
  | RawMessages _ => RawMessages []
  | RawMessageLists _ => RawMessageLists []
  | ModuleMaps _ => ModuleMaps []
  | OtherSlice typ => OtherSlice typ
  | MapOfRaw typ stringKeys _ => MapOfRaw typ stringKeys []
  | MapOfOther typ elem _ => MapOfOther typ elem []
  | OtherKind typ => OtherKind typ
  end.

(** What LoadModule returns as [any]. *)
Inductive loaded : Type :=
| LoadedNil
| LoadedOne (m : Module)
| LoadedList (all : list Module)
| LoadedLists (all : list (list Module))
| LoadedMaps (all : list (gmap string Module))
| LoadedMap (all : gmap string Module).

(** A value of a JSON object decoded into map[string]any. *)
Inductive jsonValue : Type :=
| JSONString (s : string)
| JSONOther (text : string).

Section LoadModule.

Variable modules : gmap string ModuleInfo.
Variable Unmarshal : string -> Module -> option Module + error.

(** json.Unmarshal of a raw message into a map[string]any, json.Marshal of
    such a map, and the map as %+v prints it. *)
Variable decodeObject : string -> gmap string jsonValue + error.
Variable encodeObject : gmap string jsonValue -> string + error.
Variable printObject : gmap string jsonValue -> string.

Definition getModuleName (moduleNameKey raw : string) : (string * string) + error :=
  match decodeObject raw with
  | inr err => inr err
  | inl m =>
      let unnamed :=
        errorNew ("module name not specified with key '" +:+ moduleNameKey +:+ "' in "
                  +:+ printObject m) in
      match m !! moduleNameKey with
      | Some (JSONString moduleName) =>
          if String.eqb moduleName "" then inr unnamed
          else
            match encodeObject (delete moduleNameKey m) with
            | inr err => inr (errorNew ("encoding module configuration: " +:+ Error err))
            | inl result => inl (moduleName, result)
            end
      | _ => inr unnamed
      end
  end.

Definition loadModuleInline (ctx : Context) (moduleNameKey moduleNamespace raw : string) :
    M ((Module + error) * Context) :=
  match getModuleName moduleNameKey raw with
  | inr err => ret (inr err, ctx)
  | inl (moduleName, raw) =>
      r ← LoadModuleByID modules Unmarshal ctx (moduleNamespace +:+ "." +:+ moduleName) raw;
      match r with
      | (inr err, ctx) =>
          ret (inr (errorNew ("loading module '" +:+ moduleName +:+ "': " +:+ Error err)), ctx)
      | (inl val, ctx) => ret (inl val, ctx)
      end
  end.

(** The loop over a slice of raw messages, from index [i] on; an error is
    reported with the index of its element. *)
Fixpoint loadInlineAll (ctx : Context) (inlineModuleKey moduleNamespace : string)
    (raws : list string) (i : Z) (all : list Module) : M ((list Module + error) * Context) :=
  match raws with
  | [] => ret (inl all, ctx)
  | raw :: rest =>
      r ← loadModuleInline ctx inlineModuleKey moduleNamespace raw;
      match r with
      | (inr err, ctx) =>
          ret (inr (errorNew ("position " +:+ Itoa i +:+ ": " +:+ Error err)), ctx)
      | (inl val, ctx) =>
          loadInlineAll ctx inlineModuleKey moduleNamespace rest (i + 1) (all ++ [val])
      end
  end.

(** The two loops over a slice of slices; the error of an inner element
    carries the inner index. *)
Fixpoint loadInlineLists (ctx : Context) (inlineModuleKey moduleNamespace : string)
    (raws : list (list string)) (all : list (list Module)) :
    M ((list (list Module) + error) * Context) :=
  match raws with
  | [] => ret (inl all, ctx)
  | innerVal :: rest =>
      r ← loadInlineAll ctx inlineModuleKey moduleNamespace innerVal 0 [];
      match r with
      | (inr err, ctx) => ret (inr err, ctx)
      | (inl allInner, ctx) =>
          loadInlineLists ctx inlineModuleKey moduleNamespace rest (all ++ [allInner])
      end
  end.

Fixpoint loadModuleMap (ctx : Context) (namespace : string) (entries : list (string * string))
    (all : gmap string Module) : M ((gmap string Module + error) * Context) :=
  match entries with
  | [] => ret (inl all, ctx)
  | (k, v) :: rest =>
      let moduleName := if String.eqb namespace "" then k else namespace +:+ "." +:+ k in
      r ← LoadModuleByID modules Unmarshal ctx moduleName v;
      match r with
      | (inr err, ctx) =>
          ret (inr (errorNew ("module name '" +:+ k +:+ "': " +:+ Error err)), ctx)
      | (inl val, ctx) => loadModuleMap ctx namespace rest (<[k := val]> all)
      end
  end.

Fixpoint loadModulesFromRegularMap (ctx : Context) (namespace inlineModuleKey : string)
    (entries : list (string * string)) (mods : gmap string Module) :
    M ((gmap string Module + error) * Context) :=
  match entries with
  | [] => ret (inl mods, ctx)
  | (k, v) :: rest =>
      r ← loadModuleInline ctx inlineModuleKey namespace v;
      match r with
      | (inr err, ctx) => ret (inr (errorNew ("key " +:+ k +:+ ": " +:+ Error err)), ctx)
      | (inl loadedMod, ctx) =>
          loadModulesFromRegularMap ctx namespace inlineModuleKey rest (<[k := loadedMod]> mods)
      end
  end.

Definition notModuleMap (typ : string) : string :=
  "expected ModuleMap because inline_key is empty; but we do not recognize this type: " +:+ typ.

(** loadModulesFromSomeMap on a map of type [typ] with raw messages as
    values; [stringKeys] tells whether it has the type of a ModuleMap. *)
Definition loadModulesFromSomeMap (ctx : Context) (namespace inlineModuleKey : string)
    (typ : string) (stringKeys : bool) (entries : list (string * string)) :
    M ((gmap string Module + error) * Context) :=
  if String.eqb inlineModuleKey "" then
    if stringKeys then loadModuleMap ctx namespace entries ∅
    else panic (notModuleMap typ)
  else loadModulesFromRegularMap ctx namespace inlineModuleKey entries ∅.

Fixpoint loadModuleMaps (ctx : Context) (namespace inlineModuleKey : string)
    (maps : list (list (string * string))) (all : list (gmap string Module)) :
    M ((list (gmap string Module) + error) * Context) :=
  match maps with
  | [] => ret (inl all, ctx)
  | entries :: rest =>
      r ← loadModulesFromSomeMap ctx namespace inlineModuleKey
             "map[string]json.RawMessage" true entries;
      match r with
      | (inr err, ctx) => ret (inr err, ctx)
      | (inl thisSet, ctx) => loadModuleMaps ctx namespace inlineModuleKey rest (all ++ [thisSet])
      end
  end.

Definition noInlineKey : string :=
  "unable to determine module name without inline_key because type is not a ModuleMap".

(** The end of LoadModule: an error leaves the field as it is, a result
    sets it to its zero value. *)
Definition finish {A : Type} (wrap : A -> loaded) (val : fieldValue)
    (r : (A + error) * Context) : M ((loaded + error) * fieldValue * Context) :=
  match r with
  | (inr err, ctx) => ret (inr err, val, ctx)
  | (inl result, ctx) => ret (inl (wrap result), Zero val, ctx)
  end.

(** LoadModule on the field that reflection finds for [fieldName]; [None]
    when the struct has no such field, where val.Type() panics before the
    check of the name is reached. *)
Definition LoadModule (ctx : Context) (field : option (StructTag * fieldValue))
    (fieldName : string) : M ((loaded + error) * fieldValue * Context) :=
  match field with
  | None => panic "reflect: call of reflect.Value.Type on zero Value"
  | Some (tag, val) =>
      match Registry.ParseStructTag (Get tag "logarchive") with
      | inr err => panic ("malformed tag on field " +:+ fieldName +:+ ": " +:+ Error err)
      | inl opts =>
          match opts !! "namespace" with
          | None => panic ("missing 'namespace' key in struct tag on field " +:+ fieldName)
          | Some moduleNamespace =>
              let inlineModuleKey := default "" (opts !! "inline_key") in
              match val with
              | RawMessage raw =>
                  if String.eqb inlineModuleKey "" then
                    panic "unable to determine module name without inline_key when type is not a ModuleMap"
                  else
                    r ← loadModuleInline ctx inlineModuleKey moduleNamespace raw;
                    finish LoadedOne val r
              | RawMessages raws =>
                  if String.eqb inlineModuleKey "" then panic noInlineKey
                  else
                    r ← loadInlineAll ctx inlineModuleKey moduleNamespace raws 0 [];
                    finish LoadedList val r
              | RawMessageLists raws =>
                  if String.eqb inlineModuleKey "" then panic noInlineKey
                  else
                    r ← loadInlineLists ctx inlineModuleKey moduleNamespace raws [];
                    finish LoadedLists val r
              | ModuleMaps maps =>
                  r ← loadModuleMaps ctx moduleNamespace inlineModuleKey maps [];
                  finish LoadedMaps val r
              | OtherSlice _ => ret (inl LoadedNil, Zero val, ctx)
              | MapOfRaw typ stringKeys entries =>
                  r ← loadModulesFromSomeMap ctx moduleNamespace inlineModuleKey typ stringKeys
                         entries;
                  finish LoadedMap val r
              | MapOfOther typ elem keys =>
                  if String.eqb inlineModuleKey "" then panic (notModuleMap typ)
                  else
                    match keys with
                    | [] => ret (inl (LoadedMap ∅), Zero val, ctx)
                    | _ :: _ =>
                        panic ("interface conversion: interface {} is " +:+ elem
                               +:+ ", not json.RawMessage")
                    end
              | OtherKind typ =>
                  ret (inr (errorNew ("unrecognized type for module: " +:+ typ)), val, ctx)
              end
          end
      end
  end.

End LoadModule.

End Fields.

(** ** The file archive: Provision, Validate and Start *)

Module Provisioning.
Import Logarchive Fields.

(** The fields of an Archive that its configuration sets, and whether it
    has a watcher already. *)
Record Archive : Type := mkArchive {
  PoolSize : Z;
  Paths : list string;
  ExcludeFiles : list string;
  CollectRule : FileArchive.FileCollectRule;
  OutputRaw : string;
  watcher : bool
}.

(** The struct tag of the field OutputRaw. *)
Definition OutputRawTag : StructTag :=
  [("yaml", "output,omitempty"); ("json", "output,omitempty");
   ("filearchive", "namespace=output inline_key=type")].

Section Provision.

Variable modules : gmap string ModuleInfo.
Variable Unmarshal : string -> Module -> option Module + error.
Variable decodeObject : string -> gmap string jsonValue + error.
Variable encodeObject : gmap string jsonValue -> string + error.
Variable printObject : gmap string jsonValue -> string.

(** Whether the type of a module implements Outputter, and then what its
    TaskInfo().New() returns; fsnotify.NewWatcher; regexp.Compile, which
    gives the MatchString of the pattern; the calls that WalkDir makes to
    its function for a root path; the operating system of addWatchPath. *)
Variable asOutputter : Module -> option Cos.OutputTask.
Variable NewWatcher : option string.
Variable Compile : string -> (string -> bool) + string.
Variable WalkDir : string -> list FileArchive.walkEntry.
Variable os : FileArchive.OS.

Fixpoint compileAll (exs : list string) (regs : list (string -> bool)) :
    list (string -> bool) + error :=
  match exs with
  | [] => inl regs
  | ex :: rest =>
      match Compile ex with
      | inr msg => inr (errorNew ("invalid excelude file format: " +:+ msg))
      | inl re => compileAll rest (regs ++ [re])
      end
  end.

(** The function that Provision hands to WalkDir, over the calls of one walk. *)
Fixpoint watchDirs (cfg : FileArchive.Config) (rootPath : string)
    (entries : list FileArchive.walkEntry) (s : FileArchive.State) :
    FileArchive.State * option error :=
  match entries with
  | [] => (s, None)
  | d :: rest =>
      match FileArchive.walkErr d with
      | Some msg => (s, Some (errorNew msg))
      | None =>
          if negb (FileArchive.walkIsDir d) then watchDirs cfg rootPath rest s
          else
            match FileArchive.addWatchPath cfg os rootPath (FileArchive.walkPath d) s with
            | (s, Some err) => (s, Some err)
            | (s, None) => watchDirs cfg rootPath rest s
            end
      end
  end.

Fixpoint watchRoots (cfg : FileArchive.Config) (paths : list string) (s : FileArchive.State) :
    FileArchive.State * option error :=
  match paths with
  | [] => (s, None)
  | rootPath :: rest =>
      match watchDirs cfg rootPath (WalkDir rootPath) s with
      | (s, Some walkErr) => (s, Some walkErr)
      | (s, None) => watchRoots cfg rest s
      end
  end.

(** Provision: the archive's configuration and state when it returns nil,
    and the error otherwise. *)
Definition Provision (ctx : Context) (ar : Archive) :
    M ((FileArchive.Config * FileArchive.State) + error) :=
  lg ← Logger ctx;
  if negb lg then panic nilDeref          (* Sugar() on a nil logger *)
  else
    let PoolSize := if PoolSize ar =? 0 then 1 else PoolSize ar in
    (* load output module *)
    r ← LoadModule modules Unmarshal decodeObject encodeObject printObject ctx
          (Some (OutputRawTag, RawMessage (OutputRaw ar))) "OutputRaw";
    match r with
    | (inr err, _, _) => ret (inr err)
    | (inl loadedMod, _, _) =>
        match loadedMod with
        | LoadedOne m =>
            match asOutputter m with
            | None => panic "interface conversion: module is not logarchive.Outputter"
            | Some task =>
                match (if watcher ar then None else NewWatcher) with
                | Some msg => ret (inr (errorNew ("new watcher " +:+ msg)))
                | None =>
                    match compileAll (ExcludeFiles ar) [] with
                    | inr err => ret (inr err)
                    | inl regs =>
                        let cfg :=
                          FileArchive.mkConfig PoolSize (Paths ar) (CollectRule ar) regs task in
                        match watchRoots cfg (Paths ar) Tracking.idle with
                        | (_, Some walkErr) => ret (inr walkErr)
                        | (s, None) => ret (inl (cfg, s))
                        end
                    end
                end
            end
        | _ => panic "interface conversion: interface {} is not logarchive.Outputter"
        end
    end.

End Provision.

(** Validate: every path must exist. *)
Fixpoint Validate (stat : string -> FileInfo + string) (paths : list string) : option error :=
  match paths with
  | [] => None
  | path :: rest =>
      match stat path with
      | inr msg => Some (errorNew msg)
      | inl _ => Validate stat rest
      end
  end.

(** The goroutines of an archive. *)
Inductive goroutine : Type :=
| OutputWorker
| DeleteWorker
| EventLoop.

(** The loop of Start from [i] on; [fuel] bounds the rounds. *)
Fixpoint startWorkers (fuel : nat) (i PoolSize : Z) (keepSourceFile : bool) : list goroutine :=
  match fuel with
  | O => []
  | S fuel' =>
      if i <? PoolSize then
        (OutputWorker :: (if negb keepSourceFile then [DeleteWorker] else []))
        ++ startWorkers fuel' (i + 1) PoolSize keepSourceFile
      else []
  end.

(** Start: the goroutines it starts, in order; it returns nil. *)
Definition Start (cfg : FileArchive.Config) : list goroutine * option error :=
  (startWorkers (Z.to_nat (FileArchive.PoolSize cfg)) 0 (FileArchive.PoolSize cfg)
     (FileArchive.KeepSourceFile (FileArchive.CollectRule cfg)) ++ [EventLoop],
   None).

(** The goroutine that performs an action of the running archive. *)
Definition performer (a : FileArchive.action) : goroutine :=
  match a with
  | FileArchive.ActOutputWorker _ => OutputWorker
  | FileArchive.ActDeleteWorker _ => DeleteWorker
  | _ => EventLoop
  end.

(** One round of the loop of Start. *)
Definition round (keepSourceFile : bool) : list goroutine :=
  OutputWorker :: (if negb keepSourceFile then [DeleteWorker] else []).

(** An archive configured with a negative pool size, and a tick and a
    notification of its event loop. *)
Definition negativePool : FileArchive.Config :=
  FileArchive.mkConfig (-1) ["/var/log/app"] (FileArchive.mkCollectRule false 60) []
    (Cos.CosTask (Cos.mkTask "" "")).

Definition eventLoopOnly : list FileArchive.action :=
  [FileArchive.ActTick 1000 (Quiescence.statAt 990) [("/var/log/app", "/var/log/app/a.log")];
   FileArchive.ActNotify 1001].

End Provisioning.

(** ** The file archive: removing a source file *)

Module Deletion.
Import FileArchive Lifecycle.

Section OneFile.

Variables (w k : string).

Definition failedRemoveFor (c : call) : bool :=
  match c with
  | CallRemove w' k' ok => isFile w k w' k' && negb ok
  | CallExecute _ _ _ _ => false
  end.

Definition okDeleteNotifyFor (n : notifyInfo) : bool := deleteNotifyFor w k n && result n.

(** The calls of os.Remove for the file that failed, and the delete results
    waiting for the event loop that report success. *)
Definition failedRemovals (s : State) : Z := countZ failedRemoveFor (calls s).
Definition deleteNotifiedOk (s : State) : Z := countZ okDeleteNotifyFor (notifyChan s).

(** The invariant of removing the file, on its cache entry [fi] and the
    counts: [dn] delete results pending, of which [dnok] report success,
    [rm] calls of os.Remove, of which [rmf] failed. *)
Definition beingRemoved (fi : option fileInfo) (dn dnok rm rmf : Z) : Prop :=
  match fi with
  | None => rm <= 3
  | Some v =>
      0 <= deleteFailedCount v < 3
      /\ rm = deleteFailedCount v + dn
      /\ rmf + dnok = deleteFailedCount v + dn
  end.

Definition deletion (s : State) : Prop :=
  beingRemoved (getFile (fileCache s) w k) (deleteNotified w k s) (deleteNotifiedOk s)
    (removals w k s) (failedRemovals s).

(** The event loop is about to handle the delete result [e] of the file. *)
Definition deleteResultNext (s : State) (e : notifyInfo) (rest : list notifyInfo) : Prop :=
  notifyChan s = e :: rest /\ typ e = notifyTypeDeleteTask
  /\ watchPath e = w /\ filePath e = k.

End OneFile.

(** The file of the upload scenarios, removed at the third attempt. *)
Definition failToRemove : string -> option string := fun _ => Some "permission denied".

Definition removal (now : Z) (remove : string -> option string) : list action :=
  [ActDeleteWorker remove; ActNotify now].

Definition neverRemoved : list action :=
  attempt 1000 succeeding ++ removal 1002 failToRemove ++ removal 1003 failToRemove
  ++ removal 1004 failToRemove.

End Deletion.

(** ** The file archive: the pools over the life of the program *)

Module PoolUse.
Import FileArchive FileArchive.Pool PoolStates.

(** An operation that hands a key to releaseCacheKey. *)
Definition releasesKey (op : poolOp) : bool :=
  match op with
  | OpReleaseCacheKey (Some _) => true
  | _ => false
  end.

(** The pools after the operations [ops] of the program. *)
Definition after (ops : list poolOp) : Pools := fold_left applyOp ops emptyPools.

(** An archive that keeps its source files releases no key: three results
    are sent and handled. *)
Definition keepingOps : list poolOp :=
  [OpNewNotifyInfo None notifyTypeOutputTask "/var/log/app" "/var/log/app/a.log" true;
   OpReleaseNotifyInfo (Some (mkNotify notifyTypeOutputTask "/var/log/app" "/var/log/app/a.log" true));
   OpNewNotifyInfo (Some 0%nat) notifyTypeOutputTask "/var/log/app" "/var/log/app/b.log" false;
   OpNewCacheKey (Some 0%nat) "/var/log/app" "/var/log/app/a.log"].

End PoolUse.

(** * Properties *)

Section PoolProperties.
Import FileArchive FileArchive.Pool PoolStates.

(** C10. releaseCacheKey, given a key that is not nil, puts the cleared key
    into notifyPool and leaves cacheKeyPool as it was.  So there is a
    reachable state of the pools in which notifyPool holds a value that is
    not a *notifyInfo, and in which the type assertion of newNotifyInfo
    panics. *)
Theorem releaseCacheKey_puts_into_notifyPool :
  (forall (key : fileCacheKey) (p : Pools),
      notifyPool (releaseCacheKey (Some key) p)
        = PooledCacheKey (mkCacheKey "" "") :: notifyPool p
      /\ cacheKeyPool (releaseCacheKey (Some key) p) = cacheKeyPool p)
  /\ (exists p : Pools,
        reachable p
        /\ ~ notifyPoolTyped p
        /\ exists (choice : option nat) (msg : string),
             forall typ w f r, fst (newNotifyInfo choice typ w f r p) = Panicked msg).
Proof.
  split.
  - intros key p. split; reflexivity.
  - exists (releaseCacheKey (Some (mkCacheKey "/x" "/x/f")) emptyPools).
    split; [| split].
    + exists [OpReleaseCacheKey (Some (mkCacheKey "/x" "/x/f"))]. reflexivity.
    + unfold notifyPoolTyped. cbn. intros H.
      apply Forall_cons in H as [[n Hn] _]. discriminate Hn.
    + exists (Some 0%nat). eexists. intros typ w f r. cbn. reflexivity.
Qed.

End PoolProperties.

Section DaemonProperties.
Import Logarchive Daemon DaemonExamples.

Lemma bind_emit {B : Type} (c : call) (k : M B) :
  (emit c ;; k) = (fst k, c :: snd k).
Proof. reflexivity. Qed.

Lemma bind_returned {A B : Type} (a : A) (l : list call) (f : A -> M B) :
  ((Returned a, l) : M A) ≫= f = (fst (f a), l ++ snd (f a)).
Proof. reflexivity. Qed.

Lemma stopStarted_calls (c : Config) (started : list string) (err : error) :
  Forall (fun name => is_Some (archives c !! name)) started ->
  stopStarted c started err = (Returned (aggregated c started err), CallStop <$> started).
Proof.
  intros H. revert err. induction H as [| name rest [ar Har] _ IH]; intros err.
  - reflexivity.
  - cbn [stopStarted aggregated]. rewrite Har.
    destruct (StopErr ar); rewrite bind_emit, IH; reflexivity.
Qed.










(** With a metric collector configured, the error of the failed start is
    overwritten by the result of Metric.Start and Start returns nil. *)
Example Start_with_metric_returns_nil :
  fst startThreeMetric = Returned None
  /\ stopCalls (log (snd startThreeMetric)) = ["a"; "b"].
Proof. vm_compute. split; reflexivity. Qed.

(** C7. After a Stop that returned nil the root context is the empty
    Context, and the next Stop panics on the nil configuration in
    Context.Logger before it reaches the check in shutdown. *)
Theorem Stop_after_Stop_panics (order order' : list string) (w w' : World) :
  Stop order w = (Returned None, w') ->
  logarchiveCtx w' = emptyContext
  /\ Stop order' w' = (Panicked nilDeref, w').
Proof.
  unfold Stop. intros H.
  destruct (Logger (logarchiveCtx w) ≫= _) as [[[[err |] ctx] | msg] l]; try discriminate.
  injection H as <-. split; [reflexivity |].
  cbn. rewrite app_nil_r. reflexivity.
Qed.

Lemma Stop_after_Stop_witness :
  logarchiveCtx (snd (Stop ["file"] runningWorld)) = emptyContext
  /\ Stop ["file"] (snd (Stop ["file"] runningWorld))
     = (Panicked nilDeref, snd (Stop ["file"] runningWorld)).
Proof.
  apply (Stop_after_Stop_panics ["file"] ["file"] runningWorld).
  vm_compute. reflexivity.
Defined.

End DaemonProperties.

Section LoadingProperties.
Import Logarchive Loading.

(** C9. For a registered id whose constructor gives an instance, onto which
    the raw config (if it is not empty) decodes: LoadModuleByID constructs,
    deserializes, runs Provision and then Validate; when one of the two
    fails, Cleanup is called if the instance has it, the error returned
    combines the failure with the error of Cleanup, and the instance is not
    recorded; when both succeed, the instance is returned and recorded
    against the id. *)
Theorem LoadModuleByID_lifecycle
    (modules : gmap string ModuleInfo) (Unmarshal : string -> Module -> option Module + error)
    (ctx : Context) (id raw : string) (info : ModuleInfo) (val0 val : Module) :
  modules !! id = Some info ->
  New info = Some val0 ->
  (if (0 <? String.length raw)%nat then Unmarshal raw val0 else inl (Some val0)) = inl (Some val) ->
  exists (res : Module + error) (ctx' : Context),
    LoadModuleByID modules Unmarshal ctx id raw = (Returned (res, ctx'), lifecycleCalls id raw val)
    /\ match provisionFailure val, validateFailure val with
       | Some err, _ =>
           res = inr (errorNew ("provision " +:+ ID info +:+ ": " +:+ Error (combined val err)))
           /\ ctx' = ctx
       | None, Some err =>
           res = inr (errorNew (ID info +:+ ": invalid configuration: " +:+ Error (combined val err)))
           /\ ctx' = ctx
       | None, None => res = inl val /\ ctx' = recorded ctx id val
       end
    /\ (In (CallCleanup (label val)) (lifecycleCalls id raw val) ->
        (is_Some (provisionFailure val) \/ is_Some (validateFailure val))
        /\ is_Some (CleanerUpper val)).
Proof.
  intros Hreg Hnew Hdec.
  unfold LoadModuleByID, lifecycleCalls, provisionFailure, validateFailure, combined,
    cleanupCalls, cleanupFailed, recorded.
  rewrite Hreg, Hnew.
  destruct (0 <? String.length raw)%nat; rewrite ?Hdec;
    unfold mbind, M_bind, bind; cbn;
    destruct (Provisioner val) as [[pe |] |]; destruct (Validator val) as [[ve |] |];
    destruct (CleanerUpper val) as [[ce |] |];
    cbn; eexists _, _; (split; [reflexivity |]); (split; [split; reflexivity |]);
    intros Hin; repeat (destruct Hin as [Hin | Hin]; try discriminate Hin);
    try contradiction; split; eauto.
Qed.

Lemma LoadModuleByID_lifecycle_witness :
  exists (res : Module + error) (ctx' : Context),
    LoadModuleByID cosRegistry (fun _ val => inl (Some val)) emptyContext "output.cos" "{}"
    = (Returned (res, ctx'), lifecycleCalls "output.cos" "{}" cosInstance)
    /\ match provisionFailure cosInstance, validateFailure cosInstance with
       | Some err, _ =>
           res = inr (errorNew ("provision " +:+ "output.cos" +:+ ": " +:+ Error (combined cosInstance err)))
           /\ ctx' = emptyContext
       | None, Some err =>
           res = inr (errorNew ("output.cos" +:+ ": invalid configuration: "
                                +:+ Error (combined cosInstance err)))
           /\ ctx' = emptyContext
       | None, None => res = inl cosInstance /\ ctx' = recorded emptyContext "output.cos" cosInstance
       end
    /\ (In (CallCleanup (label cosInstance)) (lifecycleCalls "output.cos" "{}" cosInstance) ->
        (is_Some (provisionFailure cosInstance) \/ is_Some (validateFailure cosInstance))
        /\ is_Some (CleanerUpper cosInstance)).
Proof.
  apply (LoadModuleByID_lifecycle cosRegistry (fun _ val => inl (Some val)) emptyContext
           "output.cos" "{}" (mkModuleInfo "output.cos" (Some cosInstance)) cosInstance cosInstance).
  - vm_compute. reflexivity.
  - reflexivity.
  - reflexivity.
Defined.

End LoadingProperties.

Section CompressProperties.
Import Compress Cos CompressExamples.

Lemma maxChunkSize_value : maxChunkSize = 8388608.
Proof. reflexivity. Qed.

Lemma maxBufferSize_value : maxBufferSize = 16777216.
Proof. reflexivity. Qed.

Lemma handleEncoderError_not_truncated (enc : Encoder) (err : error) :
  error_eqb err ErrUnexpectedEOF = false ->
  error_eqb (handleEncoderError enc err) ErrUnexpectedEOF = false.
Proof.
  intros H. unfold handleEncoderError. destruct (CloseErr enc); [reflexivity | exact H].
Qed.

Lemma closeErr_not_truncated (enc : Encoder) :
  errorIs (errorNew <$> CloseErr enc) ErrUnexpectedEOF = false.
Proof. destruct (CloseErr enc); reflexivity. Qed.

Lemma compressBuffer_not_truncated (enc : Encoder) (st : encState) (buf : Z) :
  errorIs (fst (compressBuffer enc st buf)) ErrUnexpectedEOF = false.
Proof.
  unfold compressBuffer. destruct (ReadFromErr enc (buffers st)); [reflexivity |].
  cbn. destruct (FlushErr enc (buffers st)); reflexivity.
Qed.

(** While the staging buffer is below the chunk size at the head of the
    loop, a cap of 16 MiB is never passed. *)
Lemma zstdLoop_default_not_truncated (enc : Encoder) (alg : string) (r : reader) :
  readsFit r ->
  forall (buf : Z) (st : encState),
    0 <= buf < maxChunkSize ->
    errorIs (fst (zstdLoop enc (NewDefaultCompressOption alg) r buf st)) ErrUnexpectedEOF = false.
Proof.
  assert (HatEOF : forall buf st,
    errorIs (fst (if 0 <? buf
                  then match compressBuffer enc st buf with
                       | (Some err, st') => (Some (handleEncoderError enc err), encClose st')
                       | (None, st') => (errorNew <$> CloseErr enc, encClose st')
                       end
                  else (errorNew <$> CloseErr enc, encClose st))) ErrUnexpectedEOF = false).
  { intros buf st. destruct (0 <? buf); [| apply closeErr_not_truncated].
    pose proof (compressBuffer_not_truncated enc st buf) as H.
    destruct (compressBuffer enc st buf) as [[err |] st']; cbn in *.
    - apply handleEncoderError_not_truncated. exact H.
    - apply closeErr_not_truncated. }
  induction 1 as [| [n e] r [Hn0 Hn] _ IH]; intros buf st Hbuf.
  - apply HatEOF.
  - cbn [zstdLoop fst snd] in *. unfold chunkLen in *. rewrite maxChunkSize_value in *.
    assert (Hcap : (0 <? MaxWriterBuffSize (NewDefaultCompressOption alg))
                   && (MaxWriterBuffSize (NewDefaultCompressOption alg) <? buf + n) = false).
    { apply andb_false_iff. right. apply Z.ltb_ge.
      cbn [MaxWriterBuffSize NewDefaultCompressOption]. rewrite maxBufferSize_value. lia. }
    assert (Hafter :
      errorIs (fst (if (0 <? MaxWriterBuffSize (NewDefaultCompressOption alg))
                       && (MaxWriterBuffSize (NewDefaultCompressOption alg) <? buf + n)
                    then (Some (handleEncoderError enc ErrUnexpectedEOF), encClose st)
                    else if 8388608 <=? buf + n
                         then match compressBuffer enc st (buf + n) with
                              | (Some err, st') => (Some (handleEncoderError enc err), encClose st')
                              | (None, st') => zstdLoop enc (NewDefaultCompressOption alg) r 0 st'
                              end
                         else zstdLoop enc (NewDefaultCompressOption alg) r (buf + n) st))
        ErrUnexpectedEOF = false).
    { rewrite Hcap. destruct (8388608 <=? buf + n) eqn:Hchunk.
      - pose proof (compressBuffer_not_truncated enc st (buf + n)) as H.
        destruct (compressBuffer enc st (buf + n)) as [[err |] st']; cbn in *.
        + apply handleEncoderError_not_truncated. exact H.
        + apply IH. lia.
      - apply IH. apply Z.leb_gt in Hchunk. lia. }
    destruct e.
    + exact Hafter.
    + destruct (n =? 0); [apply HatEOF | exact Hafter].
    + cbn. apply handleEncoderError_not_truncated. reflexivity.
Qed.





End CompressProperties.

Section FilepathProperties.
Import Filepath KeyShape.

Lemma splitOn_no_separator (s : string) :
  Forall (fun c => hasSeparator c = false) (splitOn Separator s).
Proof.
  induction s as [| c s IH]; cbn [splitOn].
  - constructor; [reflexivity | constructor].
  - destruct (Ascii.eqb c Separator) eqn:Hc.
    + constructor; [reflexivity | exact IH].
    + destruct (splitOn Separator s) as [| hd tl]; [constructor; [cbn; rewrite Hc; reflexivity | constructor] |].
      apply Forall_cons in IH as [Hhd Htl].
      constructor; [cbn; rewrite Hc; exact Hhd | exact Htl].
Qed.

Lemma splitOn_nonempty (s : string) : splitOn Separator s <> [].
Proof.
  destruct s as [| c s]; cbn [splitOn]; [discriminate |].
  destruct (Ascii.eqb c Separator); [discriminate |].
  destruct (splitOn Separator s); discriminate.
Qed.

Lemma splitOn_element (c rest : string) :
  hasSeparator c = false ->
  splitOn Separator (c +:+ "/" +:+ rest) = c :: splitOn Separator rest.
Proof.
  induction c as [| a c IH]; intros Hc.
  - reflexivity.
  - cbn in Hc. apply orb_false_iff in Hc as [Ha Hc].
    change (String a c +:+ "/" +:+ rest) with (String a (c +:+ "/" +:+ rest)).
    cbn [splitOn]. rewrite Ha, (IH Hc). reflexivity.
Qed.

Lemma splitOn_single (c : string) :
  hasSeparator c = false -> splitOn Separator c = [c].
Proof.
  induction c as [| a c IH]; intros Hc; [reflexivity |].
  cbn in Hc. apply orb_false_iff in Hc as [Ha Hc].
  cbn [splitOn]. rewrite Ha, (IH Hc). reflexivity.
Qed.

Lemma splitOn_joinWith (cs : list string) :
  cs <> [] ->
  Forall (fun c => hasSeparator c = false) cs ->
  splitOn Separator (joinWith "/" cs) = cs.
Proof.
  induction cs as [| c cs IH]; intros Hne Hcs; [contradiction |].
  apply Forall_cons in Hcs as [Hc Hcs].
  destruct cs as [| c' cs].
  - cbn [joinWith]. apply splitOn_single. exact Hc.
  - change (joinWith "/" (c :: c' :: cs)) with (c +:+ "/" +:+ joinWith "/" (c' :: cs)).
    rewrite (splitOn_element c _ Hc), IH; [reflexivity | discriminate | exact Hcs].
Qed.


Lemma cleanElem_normal (rooted : bool) (out : list string) (elem : string) :
  normal elem -> cleanElem rooted out elem = elem :: out.
Proof.
  intros (H1 & H2 & H3 & _). unfold cleanElem.
  apply String.eqb_neq in H1, H2, H3. rewrite H1, H2, H3. reflexivity.
Qed.

Lemma cleanElem_stack (rooted : bool) (out : list string) (elem : string) :
  hasSeparator elem = false ->
  cleanStack rooted out -> cleanStack rooted (cleanElem rooted out elem).
Proof.
  intros Hsep (k & ns & -> & Hns & Hroot). unfold cleanElem.
  destruct (String.eqb elem "") eqn:E1; [exists k, ns; auto |].
  destruct (String.eqb elem ".") eqn:E2; [exists k, ns; auto |].
  destruct (String.eqb elem "..") eqn:E3.
  - destruct ns as [| n ns].
    + destruct k as [| k]; cbn [app replicate].
      * destruct rooted; [exists 0%nat, []; auto |].
        apply String.eqb_eq in E3 as ->.
        exists 1%nat, []. split; [reflexivity | split; [constructor | discriminate]].
      * cbn [String.eqb Ascii.eqb Bool.eqb]. destruct rooted.
        -- discriminate (Hroot eq_refl).
        -- apply String.eqb_eq in E3 as ->.
           exists (S (S k)), []. split; [reflexivity | split; [constructor | discriminate]].
    + apply Forall_cons in Hns as [Hn Hns]. cbn [app].
      destruct Hn as (_ & _ & Hn & _). apply String.eqb_neq in Hn. rewrite Hn.
      exists k, ns. auto.
  - exists k, (elem :: ns). split; [reflexivity | split; [| exact Hroot]].
    constructor; [| exact Hns].
    apply String.eqb_neq in E1, E2, E3. repeat split; assumption.
Qed.

Lemma fold_cleanElem_stack (rooted : bool) (elems : list string) :
  Forall (fun c => hasSeparator c = false) elems ->
  forall out, cleanStack rooted out -> cleanStack rooted (fold_left (cleanElem rooted) elems out).
Proof.
  induction 1 as [| e elems He _ IH]; intros out Hout; [exact Hout |].
  cbn [fold_left]. apply IH. apply cleanElem_stack; assumption.
Qed.

Lemma rev_replicate {A : Type} (k : nat) (x : A) : rev (replicate k x) = replicate k x.
Proof.
  induction k as [| k IH]; [reflexivity |].
  cbn [replicate rev]. rewrite IH. clear IH.
  induction k as [| k IH]; [reflexivity |]. cbn [replicate app]. rewrite IH. reflexivity.
Qed.

Lemma cleanComps_shape (path : string) :
  exists (k : nat) (ns : list string),
    cleanComps path = replicate k ".." ++ ns /\ Forall normal ns
    /\ (isRooted path = true -> k = 0%nat).
Proof.
  unfold cleanComps, cleanElems.
  destruct (fold_cleanElem_stack (isRooted path) (splitOn Separator path)
              (splitOn_no_separator path) [])
    as (k & ns & -> & Hns & Hroot).
  { exists 0%nat, []. split; [reflexivity | split; [constructor | reflexivity]]. }
  exists k, (rev ns). rewrite rev_app_distr, rev_replicate.
  split; [reflexivity | split; [apply Forall_rev; exact Hns | exact Hroot]].
Qed.

Lemma cleanRel_tail (c : string) (cs : list string) : cleanRel (c :: cs) -> cleanRel cs.
Proof.
  intros (k & ns & Heq & Hns). destruct k as [| k]; cbn [replicate app] in Heq.
  - destruct ns as [| n ns]; [discriminate |]. injection Heq as _ ->.
    apply Forall_cons in Hns as [_ Hns]. exists 0%nat, ns. auto.
  - injection Heq as _ ->. exists k, ns. auto.
Qed.

Lemma cleanRel_suffix (p cs : list string) : cleanRel (p ++ cs) -> cleanRel cs.
Proof.
  induction p as [| c p IH]; [auto |]. intros H. apply IH. exact (cleanRel_tail _ _ H).
Qed.

Lemma cleanRel_dotdots (j : nat) (cs : list string) :
  cleanRel cs -> cleanRel (replicate j ".." ++ cs).
Proof.
  intros (k & ns & -> & Hns). exists (j + k)%nat, ns.
  rewrite replicate_add, <- app_assoc. auto.
Qed.

Lemma stripCommon_prefix (base targ : list string) :
  exists p, base = p ++ fst (stripCommon base targ) /\ targ = p ++ snd (stripCommon base targ).
Proof.
  revert targ. induction base as [| b base IH]; intros targ.
  - exists []. split; reflexivity.
  - destruct targ as [| t targ]; cbn [stripCommon].
    + exists []. split; reflexivity.
    + destruct (String.eqb b t) eqn:E.
      * apply String.eqb_eq in E as ->. destruct (IH targ) as (p & H1 & H2).
        exists (t :: p). cbn [app]. rewrite <- H1, <- H2. split; reflexivity.
      * exists []. split; reflexivity.
Qed.

(** What Rel returns is "." or a cleaned relative path. *)
Lemma Rel_cleanRel (basepath targpath rel : string) :
  Rel basepath targpath = inl rel ->
  rel = "." \/ exists cs, rel = joinWith "/" cs /\ cleanRel cs.
Proof.
  unfold Rel. destruct (String.eqb (Clean targpath) (Clean basepath)).
  { intros [= <-]. left. reflexivity. }
  destruct (negb _); [discriminate |].
  destruct (stripCommon_prefix (cleanComps basepath) (cleanComps targpath)) as (p & _ & Ht).
  assert (Htarg : cleanRel (snd (stripCommon (cleanComps basepath) (cleanComps targpath)))).
  { apply (cleanRel_suffix p). rewrite <- Ht.
    destruct (cleanComps_shape targpath) as (k & ns & -> & Hns & _). exists k, ns. auto. }
  destruct (stripCommon (cleanComps basepath) (cleanComps targpath)) as [[| b baseRest] targRest];
    cbn [fst snd] in Htarg.
  - intros [= <-]. right. exists targRest. auto.
  - destruct (String.eqb b ".."); [discriminate |].
    intros Heq. right. exists (replicate (List.length (b :: baseRest)) ".." ++ targRest).
    split; [congruence | apply cleanRel_dotdots; exact Htarg].
Qed.

Lemma fold_cleanElem_normals (rooted : bool) (ns : list string) :
  Forall normal ns ->
  forall out, fold_left (cleanElem rooted) ns out = rev ns ++ out.
Proof.
  induction 1 as [| n ns Hn _ IH]; intros out; [reflexivity |].
  cbn [fold_left rev]. rewrite (cleanElem_normal _ _ _ Hn), IH, <- app_assoc. reflexivity.
Qed.

Lemma fold_cleanElem_dotdots (k : nat) :
  forall j, fold_left (cleanElem false) (replicate k "..") (replicate j "..")
            = replicate (k + j) "..".
Proof.
  induction k as [| k IH]; intros j; [reflexivity |].
  cbn [replicate fold_left].
  replace (cleanElem false (replicate j "..") "..") with (replicate (S j) "..").
  - rewrite IH. f_equal. lia.
  - destruct j; reflexivity.
Qed.

Lemma cleanElems_cleanRel (cs : list string) :
  cleanRel cs -> cleanElems false cs = cs.
Proof.
  intros (k & ns & -> & Hns). unfold cleanElems.
  pose proof (fold_cleanElem_dotdots k 0) as Hd. change (replicate 0 "..") with (@nil string) in Hd.
  rewrite fold_left_app, Hd.
  rewrite (fold_cleanElem_normals _ _ Hns).
  rewrite rev_app_distr, rev_involutive, rev_replicate, Nat.add_0_r. reflexivity.
Qed.

Lemma cleanRel_no_separator (cs : list string) :
  cleanRel cs -> Forall (fun c => hasSeparator c = false) cs.
Proof.
  intros (k & ns & -> & Hns). apply Forall_app. split.
  - apply Forall_replicate. reflexivity.
  - eapply Forall_impl; [exact Hns |]. intros c (_ & _ & _ & H). exact H.
Qed.

Lemma cleanRel_head (c : string) (cs : list string) :
  cleanRel (c :: cs) ->
  exists a c', c = String a c' /\ Ascii.eqb a Separator = false.
Proof.
  intros (k & ns & Heq & Hns). destruct k as [| k]; cbn [replicate app] in Heq.
  - destruct ns as [| n ns]; [discriminate |]. injection Heq as <- _.
    apply Forall_cons in Hns as [(Hne & _ & _ & Hsep) _].
    destruct c as [| a c']; [contradiction |].
    cbn in Hsep. apply orb_false_iff in Hsep as [Ha _]. eauto.
  - injection Heq as -> _. eexists _, _. split; reflexivity.
Qed.

Lemma Clean_joinWith (cs : list string) :
  cleanRel cs -> cs <> [] -> Clean (joinWith "/" cs) = joinWith "/" cs.
Proof.
  intros Hcs Hne. destruct cs as [| c cs]; [contradiction |].
  destruct (cleanRel_head _ _ Hcs) as (a & c' & -> & Ha).
  assert (Hshape : exists s, joinWith "/" (String a c' :: cs) = String a s).
  { destruct cs; cbn [joinWith]; eauto. }
  destruct Hshape as (s & Hs).
  unfold Clean, cleanComps. rewrite (splitOn_joinWith _ Hne (cleanRel_no_separator _ Hcs)).
  rewrite Hs. cbn [String.eqb isRooted]. rewrite Ha.
  rewrite (cleanElems_cleanRel _ Hcs). unfold render. rewrite <- Hs. reflexivity.
Qed.

(** Joining an empty bucket to what Rel returned changes nothing. *)
Lemma Join_empty_bucket (basepath targpath rel : string) :
  Rel basepath targpath = inl rel -> Join [""; rel] = rel.
Proof.
  intros H. cbn [Join String.eqb].
  destruct (String.eqb rel "") eqn:E; [apply String.eqb_eq in E; auto |].
  cbn [joinWith]. apply Rel_cleanRel in H as [-> | (cs & -> & Hcs)]; [reflexivity |].
  apply Clean_joinWith; [exact Hcs |]. intros ->. discriminate E.
Qed.

(** Two rooted paths can always be related. *)
Lemma Rel_rooted (basepath targpath : string) :
  isRooted basepath = true -> isRooted targpath = true ->
  exists rel, Rel basepath targpath = inl rel.
Proof.
  intros Hb Ht. unfold Rel. destruct (String.eqb _ _); [eauto |].
  rewrite Hb, Ht. cbn [Bool.eqb negb].
  destruct (stripCommon_prefix (cleanComps basepath) (cleanComps targpath)) as (p & Hbase & _).
  destruct (cleanComps_shape basepath) as (k & ns & Hshape & Hns & Hk).
  rewrite (Hk Hb) in Hshape. cbn [replicate app] in Hshape.
  destruct (stripCommon (cleanComps basepath) (cleanComps targpath)) as [[| b baseRest] targRest];
    [eauto |].
  cbn [fst] in Hbase. rewrite Hshape in Hbase. rewrite Hbase in Hns.
  apply Forall_app in Hns as [_ Hns]. apply Forall_cons in Hns as [(_ & _ & Hb' & _) _].
  apply String.eqb_neq in Hb'. rewrite Hb'. eauto.
Qed.

End FilepathProperties.

Section KeyProperties.
Import Filepath Compress Cos KeyShape CompressExamples.

Lemma string_app_nil_r (s : string) : s +:+ "" = s.
Proof.
  induction s as [| a s IH]; [reflexivity |].
  change (String a s +:+ "") with (String a (s +:+ "")). f_equal. exact IH.
Qed.

Lemma Format_layouts (t : Time) :
  Format t "2006010215" = KeyShape.YYYY t +:+ MM t +:+ DD t +:+ HH t
  /\ Format t "20060102" = KeyShape.YYYY t +:+ MM t +:+ DD t
  /\ Format t "200601" = KeyShape.YYYY t +:+ MM t
  /\ Format t "2006" = KeyShape.YYYY t.
Proof.
  unfold KeyShape.YYYY, MM, DD, HH.
  rewrite <- (string_app_nil_r (appendInt (Hour t) 2)).
  rewrite <- (string_app_nil_r (appendInt (Day t) 2)) at 2.
  rewrite <- (string_app_nil_r (appendInt (Month t) 2)) at 3.
  rewrite <- (string_app_nil_r (appendInt (Year t) 4)) at 4.
  repeat split; reflexivity.
Qed.

Lemma getArchivePrefix_bucket (os : OS) (rule inp : string) (info : FileInfo) :
  Stat os inp = inl info -> getArchivePrefix os rule inp = bucket rule (ModTime info).
Proof.
  intros Hstat. unfold getArchivePrefix, bucket, HourArchive, DayArchive, MonthArchive,
    YearArchive. rewrite Hstat.
  destruct (Format_layouts (ModTime info)) as (Fh & Fd & Fm & Fy).
  destruct (String.eqb rule "hour") eqn:E1.
  { apply String.eqb_eq in E1. rewrite decide_True by exact E1.
    exact Fh. }
  apply String.eqb_neq in E1. rewrite decide_False by exact E1.
  destruct (String.eqb rule "day") eqn:E2.
  { apply String.eqb_eq in E2. rewrite decide_True by exact E2.
    exact Fd. }
  apply String.eqb_neq in E2. rewrite decide_False by exact E2.
  destruct (String.eqb rule "month") eqn:E3.
  { apply String.eqb_eq in E3. rewrite decide_True by exact E3.
    exact Fm. }
  apply String.eqb_neq in E3. rewrite decide_False by exact E3.
  destruct (String.eqb rule "year") eqn:E4.
  { apply String.eqb_eq in E4. rewrite decide_True by exact E4.
    exact Fy. }
  apply String.eqb_neq in E4. rewrite decide_False by exact E4. reflexivity.
Qed.

Lemma GetCompressAlgorithmSuffix_suffix (algorithm : string) :
  GetCompressAlgorithmSuffix algorithm = suffix algorithm.
Proof.
  unfold GetCompressAlgorithmSuffix, suffix, ZSTD, LZ4.
  destruct (String.eqb algorithm "zstd") eqn:E1.
  { apply String.eqb_eq in E1. rewrite decide_True by exact E1. reflexivity. }
  apply String.eqb_neq in E1. rewrite decide_False by exact E1.
  destruct (String.eqb algorithm "lz4") eqn:E2.
  { apply String.eqb_eq in E2. rewrite decide_True by exact E2. reflexivity. }
  apply String.eqb_neq in E2. rewrite decide_False by exact E2. reflexivity.
Qed.

Lemma dstPathOf_key (os : OS) (h : Handler) (task : Task) (info : FileInfo) (rel : string) :
  Stat os (FilePath task) = inl info ->
  Rel (RootPath task) (FilePath task) = inl rel ->
  dstPathOf os h task
  = inl (Join [bucket (ArchiveRule (UploadRule h)) (ModTime info); rel]
         +:+ suffix (CompressAlgorithm (UploadRule h))).
Proof.
  intros Hstat Hrel. unfold dstPathOf. rewrite Hrel.
  rewrite (getArchivePrefix_bucket _ _ _ _ Hstat), GetCompressAlgorithmSuffix_suffix.
  destruct (String.eqb (bucket _ _) "") eqn:E; cbn [negb]; [| reflexivity].
  apply String.eqb_eq in E. rewrite E, (Join_empty_bucket _ _ _ Hrel). reflexivity.
Qed.

Lemma executeBody_requests (os : OS) (enc : Encoder) (h : Handler) (task : Task)
    (info : FileInfo) (key : string) :
  Stat os (FilePath task) = inl info ->
  dstPathOf os h task = inl key ->
  forall req, In req (requests (executeBody os enc h (CosTask task))) -> requestKey req = key.
Proof.
  intros Hstat Hkey req. unfold executeBody. rewrite Hstat, Hkey.
  destruct (IsDir info); [intros [] |].
  destruct (String.eqb _ NONE).
  - destruct (ObjectUpload _ _ _); cbn; intros [<- | []]; reflexivity.
  - destruct (CompressFile _ _ _ _) as [cerr st].
    destruct (isError cerr && negb (errorIs cerr ErrUnexpectedEOF)); [intros [] |].
    destruct (ObjectPut _ _); cbn; intros [<- | []]; reflexivity.
Qed.

(** C4. For a task whose file exists and can be related to the root, the
    destination key that the output module computes, and under which every
    request of Execute goes to the object store, is
    join(bucket(rule, mtime), rel(root, file)) + suffix(algorithm). *)
Theorem destination_key_shape (os : OS) (enc : Encoder) (h : Handler) (m : Metrics)
    (task : Task) (info : FileInfo) (rel : string) :
  Stat os (FilePath task) = inl info ->
  Rel (RootPath task) (FilePath task) = inl rel ->
  dstPathOf os h task
  = inl (Join [bucket (ArchiveRule (UploadRule h)) (ModTime info); rel]
         +:+ suffix (CompressAlgorithm (UploadRule h)))
  /\ forall req, In req (requests (fst (Execute os enc h m (CosTask task)))) ->
       requestKey req
       = Join [bucket (ArchiveRule (UploadRule h)) (ModTime info); rel]
         +:+ suffix (CompressAlgorithm (UploadRule h)).
Proof.
  intros Hstat Hrel. pose proof (dstPathOf_key os h task info rel Hstat Hrel) as Hkey.
  split; [exact Hkey |]. unfold Execute. cbn [fst].
  apply (executeBody_requests os enc h task info _ Hstat Hkey).
Qed.

Lemma destination_key_shape_witness :
  dstPathOf logOS plainDaily logTask
  = inl (Join [bucket "day" (mkTime 1705305600 2024 1 15 8); "a.log"] +:+ suffix "")
  /\ forall req, In req (requests (fst (Execute logOS bufferEncoder plainDaily noMetrics (CosTask logTask)))) ->
       requestKey req = Join [bucket "day" (mkTime 1705305600 2024 1 15 8); "a.log"] +:+ suffix "".
Proof.
  apply (destination_key_shape logOS bufferEncoder plainDaily noMetrics logTask
           (mkFileInfo false (mkTime 1705305600 2024 1 15 8) 1024) "a.log").
  - reflexivity.
  - vm_compute. reflexivity.
Defined.

Example destination_key_scenario_1 :
  requests (fst (Execute logOS bufferEncoder plainDaily noMetrics (CosTask logTask)))
  = [Upload "20240115/a.log" "/var/log/app/a.log"].
Proof. vm_compute. reflexivity. Qed.

(** C8, as the code has it. Execute stops at the relative-path step, with
    the error of filepath.Rel and without a request to the object store,
    when filepath.Rel fails; for two rooted paths it never fails, whether or
    not the file lies below the root, and a destination key is computed. *)
Theorem Execute_rejects_only_unrelatable_paths :
  (forall (os : OS) (enc : Encoder) (h : Handler) (m : Metrics) (task : Task)
          (info : FileInfo) (e : error),
      Stat os (FilePath task) = inl info ->
      IsDir info = false ->
      Rel (RootPath task) (FilePath task) = inr e ->
      fst (Execute os enc h m (CosTask task)) = mkExecuted (Some e) codeSuccess false [])
  /\ (forall (os : OS) (h : Handler) (task : Task),
        isRooted (RootPath task) = true ->
        isRooted (FilePath task) = true ->
        exists key, dstPathOf os h task = inl key).
Proof.
  split.
  - intros os enc h m task info e Hstat Hdir Hrel.
    unfold Execute, executeBody, dstPathOf. cbn [fst]. rewrite Hstat, Hdir, Hrel. reflexivity.
  - intros os h task Hroot Hfile.
    destruct (Rel_rooted _ _ Hroot Hfile) as (rel & Hrel).
    unfold dstPathOf. rewrite Hrel. eauto.
Qed.

Lemma Execute_rejects_witness :
  fst (Execute relativeOS bufferEncoder plainDaily noMetrics (CosTask relativeTask))
  = mkExecuted (Some (relError "/var/log/app" "app/a.log")) codeSuccess false []
  /\ exists key, dstPathOf strayOS plainDaily strayTask = inl key.
Proof.
  destruct Execute_rejects_only_unrelatable_paths as (Hfail & Hrooted).
  split.
  - apply (Hfail relativeOS bufferEncoder plainDaily noMetrics relativeTask
             (mkFileInfo false (mkTime 1705305600 2024 1 15 8) 1024)).
    + reflexivity.
    + reflexivity.
    + vm_compute. reflexivity.
  - apply (Hrooted strayOS plainDaily strayTask); reflexivity.
Defined.

(** /var/log/other/b.log is not below /var/log/app, and Execute uploads it. *)
Lemma Execute_uploads_file_outside_root :
  isDescendant (RootPath strayTask) (FilePath strayTask) = false
  /\ Rel (RootPath strayTask) (FilePath strayTask) = inl "../other/b.log"
  /\ fst (Execute strayOS bufferEncoder plainDaily noMetrics (CosTask strayTask))
     = mkExecuted None codeSuccess false [Upload "other/b.log" "/var/log/other/b.log"].
Proof. vm_compute. repeat split; reflexivity. Qed.

End KeyProperties.

Section QuiescenceProperties.
Import FileArchive Quiescence.

Lemma wrap64_inInt64 (x : Z) : inInt64 x -> wrap64 x = x.
Proof.
  unfold inInt64, wrap64. intros H.
  rewrite Z.mod_small; lia.
Qed.

Lemma tickFile_tasks (cfg : Config) (t : Z) (stat : string -> FileInfo + string)
    (w k : string) (s : State) :
  exists new, tasks (tickFile cfg t stat w k s) = tasks s ++ new
              /\ Forall (quiesced cfg t stat) new.
Proof.
  unfold tickFile.
  destruct (fileCache s !! w) as [cache |]; [| exists []; rewrite app_nil_r; auto].
  destruct (files cache !! k) as [v |]; [| exists []; rewrite app_nil_r; auto].
  destruct (negb _ || _); [exists []; rewrite app_nil_r; auto |].
  destruct (stat k) as [info | msg] eqn:Hstat; [| exists []; cbn; rewrite app_nil_r; auto].
  destruct (t <? add64 _ _) eqn:Hpet; [exists []; cbn; rewrite app_nil_r; auto |].
  apply Z.ltb_ge in Hpet.
  unfold trySubmitTask.
  destruct (uploadFailedCount v =? 0);
    cbn [tasks observeInputRequestSize];
    (destruct (_ <? tasksCap)%nat;
     [ eexists [_]; cbn; split; [reflexivity |]; constructor; [| constructor];
       exists info; cbn [taskFilePath]; split; [exact Hstat |]; split; [exact Hpet |];
       intros Hfit; unfold add64 in Hpet; rewrite (wrap64_inInt64 _ Hfit) in Hpet; exact Hpet
     | exists []; cbn; rewrite app_nil_r; auto ]).
Qed.

Lemma tick_tasks (cfg : Config) (t : Z) (stat : string -> FileInfo + string)
    (order : list (string * string)) (s : State) :
  exists new, tasks (tick cfg t stat order s) = tasks s ++ new
              /\ Forall (quiesced cfg t stat) new.
Proof.
  unfold tick. cbn [tasks setInputQueneSize].
  revert s. induction order as [| [w k] order IH]; intros s.
  - exists []. cbn. rewrite app_nil_r. auto.
  - cbn [fold_left fst snd].
    destruct (tickFile_tasks cfg t stat w k s) as (new1 & H1 & P1).
    destruct (IH (tickFile cfg t stat w k s)) as (new2 & H2 & P2).
    exists (new1 ++ new2). rewrite H2, H1, <- app_assoc.
    split; [reflexivity | apply Forall_app; auto].
Qed.


Lemma getFile_storeFile_eq (m : gmap string element) (w k : string) (v : fileInfo) :
  is_Some (m !! w) -> getFile (storeFile m w k v) w k = Some v.
Proof.
  intros [c Hc]. unfold getFile, storeFile. rewrite Hc, lookup_insert_eq. cbn [files].
  apply lookup_insert_eq.
Qed.

Lemma getFile_is_Some_watch (m : gmap string element) (w k : string) (v : fileInfo) :
  getFile m w k = Some v -> exists c, m !! w = Some c /\ files c !! k = Some v.
Proof. unfold getFile. destruct (m !! w) as [c |]; [eauto | discriminate]. Qed.

End QuiescenceProperties.

Section LifecycleProperties.
Import FileArchive Lifecycle.

Variables (w k : string).

Lemma countZ_cons {A : Type} (f : A -> bool) (x : A) (l : list A) :
  countZ f (x :: l) = (if f x then 1 else 0) + countZ f l.
Proof.
  unfold countZ. cbn [List.filter]. destruct (f x); [| lia].
  change (List.length (x :: List.filter f l)) with (S (List.length (List.filter f l))). lia.
Qed.

Lemma countZ_app {A : Type} (f : A -> bool) (l l' : list A) :
  countZ f (l ++ l') = countZ f l + countZ f l'.
Proof. unfold countZ. rewrite List.filter_app, length_app. lia. Qed.

Lemma countZ_snoc {A : Type} (f : A -> bool) (l : list A) (x : A) :
  countZ f (l ++ [x]) = countZ f l + (if f x then 1 else 0).
Proof.
  rewrite countZ_app, countZ_cons.
  change (countZ f []) with 0. destruct (f x); lia.
Qed.

Lemma countZ_nonneg {A : Type} (f : A -> bool) (l : list A) : 0 <= countZ f l.
Proof. unfold countZ. lia. Qed.

Lemma countZ_le {A : Type} (f g : A -> bool) (l : list A) :
  (forall x, f x = true -> g x = true) -> countZ f l <= countZ g l.
Proof.
  intros H. induction l as [| x l IH]; [unfold countZ; cbn; lia |].
  rewrite !countZ_cons. specialize (H x).
  destruct (f x), (g x); first [lia | discriminate H; reflexivity].
Qed.

Lemma isFile_true (w' k' : string) : isFile w k w' k' = true <-> w' = w /\ k' = k.
Proof.
  unfold isFile. rewrite andb_true_iff, !String.eqb_eq. tauto.
Qed.

Lemma isFile_false (w' k' : string) : isFile w k w' k' = false <-> ~ (w' = w /\ k' = k).
Proof.
  rewrite <- isFile_true. destruct (isFile w k w' k'); split; intros H; congruence.
Qed.

Lemma getFile_storeFile_ne (m : gmap string element) (w' k' : string) (v : fileInfo) :
  ~ (w' = w /\ k' = k) -> getFile (storeFile m w' k' v) w k = getFile m w k.
Proof.
  intros Hne. unfold getFile, storeFile.
  destruct (m !! w') as [c |] eqn:Hc; [| reflexivity].
  destruct (decide (w' = w)) as [-> | Hw].
  - rewrite lookup_insert_eq, Hc. cbn [files]. apply lookup_insert_ne. intros ->. tauto.
  - rewrite lookup_insert_ne by exact Hw. reflexivity.
Qed.

Lemma getFile_removeFile_eq (m : gmap string element) : getFile (removeFile m w k) w k = None.
Proof.
  unfold getFile, removeFile. destruct (m !! w) as [c |] eqn:Hc.
  - rewrite lookup_insert_eq. cbn [files]. apply lookup_delete_eq.
  - rewrite Hc. reflexivity.
Qed.

Lemma getFile_removeFile_ne (m : gmap string element) (w' k' : string) :
  ~ (w' = w /\ k' = k) -> getFile (removeFile m w' k') w k = getFile m w k.
Proof.
  intros Hne. unfold getFile, removeFile.
  destruct (m !! w') as [c |] eqn:Hc; [| reflexivity].
  destruct (decide (w' = w)) as [-> | Hw].
  - rewrite lookup_insert_eq, Hc. cbn [files]. apply lookup_delete_ne. intros ->. tauto.
  - rewrite lookup_insert_ne by exact Hw. reflexivity.
Qed.

Lemma getFile_insert_ne (m : gmap string element) (name : string) (el : element) :
  name <> w -> getFile (<[name := el]> m) w k = getFile m w k.
Proof. intros H. unfold getFile. rewrite lookup_insert_ne by exact H. reflexivity. Qed.

Lemma getFile_delete_ne (m : gmap string element) (name : string) :
  name <> w -> getFile (delete name m) w k = getFile m w k.
Proof. intros H. unfold getFile. rewrite lookup_delete_ne by exact H. reflexivity. Qed.

Lemma getFile_storeFile_same (m : gmap string element) (v v' : fileInfo) :
  getFile m w k = Some v -> getFile (storeFile m w k v') w k = Some v'.
Proof.
  intros H. apply getFile_storeFile_eq.
  destruct (getFile_is_Some_watch _ _ _ _ H) as (c & Hc & _). eauto.
Qed.


Lemma notifiedOk_le (s : State) : notifiedOk w k s <= notified w k s.
Proof.
  apply countZ_le. intros n H. unfold okNotifyFor in H.
  apply andb_true_iff in H as [H _]. exact H.
Qed.

Ltac counts s :=
  pose proof (countZ_nonneg (taskFor w k) (tasks s));
  pose proof (countZ_nonneg (outputNotifyFor w k) (notifyChan s));
  pose proof (countZ_nonneg (okNotifyFor w k) (notifyChan s));
  pose proof (countZ_nonneg (keyFor w k) (deleteChan s));
  pose proof (countZ_nonneg (deleteNotifyFor w k) (notifyChan s));
  pose proof (countZ_nonneg (executeFor w k) (calls s));
  pose proof (countZ_nonneg (failedExecuteFor w k) (calls s));
  pose proof (countZ_nonneg (removeFor w k) (calls s));
  let Hle := fresh "Hle" in
  pose proof (notifiedOk_le s) as Hle; unfold notifiedOk, notified in Hle.

Ltac arith := first [lia | reflexivity | discriminate | assumption | congruence].

Ltac close_good :=
  repeat match goal with
         | H : _ /\ _ |- _ => destruct H
         | H : True |- _ => clear H
         | H : ?x = ?x -> _ |- _ => specialize (H eq_refl)
         end;
  repeat match goal with
         | H : _ \/ _ |- _ => destruct H
         | H : _ /\ _ |- _ => destruct H
         end;
  try contradiction;
  first
    [ solve [repeat split; intros; arith]
    | solve [repeat split; intros; try arith; left; repeat split; arith]
    | solve [repeat split; intros; try arith; right; repeat split; arith] ].

Lemma outputNotifyFor_output (w' k' : string) (r : bool) :
  outputNotifyFor w k (mkNotify notifyTypeOutputTask w' k' r) = isFile w k w' k'.
Proof. reflexivity. Qed.

Lemma okNotifyFor_output (w' k' : string) (r : bool) :
  okNotifyFor w k (mkNotify notifyTypeOutputTask w' k' r) = isFile w k w' k' && r.
Proof. reflexivity. Qed.

Lemma deleteNotifyFor_output (w' k' : string) (r : bool) :
  deleteNotifyFor w k (mkNotify notifyTypeOutputTask w' k' r) = false.
Proof. reflexivity. Qed.

Lemma outputNotifyFor_delete (w' k' : string) (r : bool) :
  outputNotifyFor w k (mkNotify notifyTypeDeleteTask w' k' r) = false.
Proof. reflexivity. Qed.

Lemma okNotifyFor_delete (w' k' : string) (r : bool) :
  okNotifyFor w k (mkNotify notifyTypeDeleteTask w' k' r) = false.
Proof. reflexivity. Qed.

Lemma deleteNotifyFor_delete (w' k' : string) (r : bool) :
  deleteNotifyFor w k (mkNotify notifyTypeDeleteTask w' k' r) = isFile w k w' k'.
Proof. reflexivity. Qed.

Lemma executeFor_execute (w' r' k' : string) (ok : bool) :
  executeFor w k (CallExecute w' r' k' ok) = isFile w k w' k'
  /\ failedExecuteFor w k (CallExecute w' r' k' ok) = isFile w k w' k' && negb ok
  /\ removeFor w k (CallExecute w' r' k' ok) = false.
Proof. repeat split; reflexivity. Qed.

Lemma executeFor_remove (w' k' : string) (ok : bool) :
  executeFor w k (CallRemove w' k' ok) = false
  /\ failedExecuteFor w k (CallRemove w' k' ok) = false
  /\ removeFor w k (CallRemove w' k' ok) = isFile w k w' k'.
Proof. repeat split; reflexivity. Qed.

Lemma lifecycle_runOutputTask (cfg : Config) (execute : Cos.OutputTask -> option error) (s : State) :
  outputIsCos cfg -> lifecycle w k cfg s -> lifecycle w k cfg (runOutputTask cfg execute s).
Proof.
  intros [t Hcos] H. unfold runOutputTask.
  destruct (tasks s) as [| tk rest] eqn:Htasks; [exact H |].
  unfold runTask, fillTaskInfo. rewrite Hcos.
  unfold lifecycle, queued, notified, notifiedOk, deleteQueued, deleteNotified, attempts,
    failedAttempts, removals in *.
  cbn [notifyTaskExecuteResult sendNotify addCall setTasks setNotifyChan fileCache tasks
         notifyChan deleteChan calls].
  rewrite Htasks in H. rewrite countZ_cons in H. rewrite !countZ_snoc.
  pose proof (notifiedOk_le s) as Hok. unfold notifiedOk, notified in Hok.
  counts s. pose proof (countZ_nonneg (taskFor w k) rest).
  rewrite outputNotifyFor_output, okNotifyFor_output, deleteNotifyFor_output.
  destruct (executeFor_execute (taskWatchPath tk) (taskRootPath tk) (taskFilePath tk)
              (negb (isError (execute (Cos.CosTask (Cos.mkTask (taskRootPath tk) (taskFilePath tk)))))))
    as (-> & -> & ->).
  unfold taskFor at 1 in H.
  destruct (isFile w k (taskWatchPath tk) (taskFilePath tk));
    destruct (negb (isError (execute _)));
    cbn [andb negb]; unfold good in *;
    destruct (KeepSourceFile (CollectRule cfg));
    destruct (getFile (fileCache s) w k) as [v |]; try destruct (status v);
    cbn zeta in *; close_good.
Qed.


Lemma lifecycle_runDeleteFileTask (cfg : Config) (remove : string -> option string) (s : State) :
  lifecycle w k cfg s -> lifecycle w k cfg (runDeleteFileTask cfg remove s).
Proof.
  intros H. unfold runDeleteFileTask.
  destruct (KeepSourceFile (CollectRule cfg)) eqn:Hkeep; [exact H |].
  destruct (deleteChan s) as [| e rest] eqn:Hkeys; [exact H |].
  unfold lifecycle, queued, notified, notifiedOk, deleteQueued, deleteNotified, attempts,
    failedAttempts, removals in *.
  cbn [sendNotify addCall setDeleteChan setNotifyChan fileCache tasks notifyChan deleteChan calls].
  rewrite Hkeys in H. rewrite countZ_cons in H. rewrite !countZ_snoc.
  pose proof (notifiedOk_le s) as Hok. unfold notifiedOk, notified in Hok.
  counts s. pose proof (countZ_nonneg (keyFor w k) rest).
  rewrite outputNotifyFor_delete, okNotifyFor_delete, deleteNotifyFor_delete.
  match goal with
  | |- context [CallRemove ?a ?b ?c] => destruct (executeFor_remove a b c) as (-> & -> & ->)
  end.
  unfold keyFor at 1 in H. rewrite Hkeep in *.
  destruct (isFile w k (keyWatchPath e) (keyFilePath e));
    unfold good in *;
    destruct (getFile (fileCache s) w k) as [v |]; try destruct (status v);
    cbn zeta in *; close_good.
Qed.

(** States that differ neither in the file's cache entry nor in the
    channels and calls are alike to the invariant. *)
Lemma lifecycle_same (cfg : Config) (s s' : State) :
  getFile (fileCache s') w k = getFile (fileCache s) w k ->
  tasks s' = tasks s -> notifyChan s' = notifyChan s -> deleteChan s' = deleteChan s ->
  calls s' = calls s ->
  lifecycle w k cfg s -> lifecycle w k cfg s'.
Proof.
  intros Hf Ht Hn Hd Hc. unfold lifecycle, queued, notified, notifiedOk, deleteQueued,
    deleteNotified, attempts, failedAttempts, removals.
  rewrite Hf, Ht, Hn, Hd, Hc. auto.
Qed.

Lemma good_count_bound (keep : bool) (v : fileInfo) (q n nok dk dn x xf rm : Z) :
  good keep (Some v) q n nok dk dn x xf rm -> 0 <= uploadFailedCount v <= 3.
Proof.
  unfold good. intros (_ & _ & H).
  destruct (status v); cbn zeta in H; first [contradiction | lia | destruct H; lia].
Qed.

Lemma add64_small (c : Z) : 0 <= c <= 3 -> add64 c 1 = c + 1.
Proof. intros H. unfold add64. apply wrap64_inInt64. unfold inInt64. lia. Qed.


Ltac unfold_lifecycle :=
  unfold lifecycle, queued, notified, notifiedOk, deleteQueued, deleteNotified, attempts,
    failedAttempts, removals in *;
  cbn [sendNotify addCall setDeleteChan setNotifyChan setFileCache setTasks setInputDiscardTotal
         observeInputRequestSize setInputQueneSize
         fileCache tasks notifyChan deleteChan calls] in *.

Lemma notifyFor_not_file (e : notifyInfo) :
  isFile w k (watchPath e) (filePath e) = false ->
  outputNotifyFor w k e = false /\ okNotifyFor w k e = false /\ deleteNotifyFor w k e = false.
Proof.
  intros H. unfold okNotifyFor, outputNotifyFor, deleteNotifyFor. rewrite H.
  rewrite !andb_false_r. auto.
Qed.

Lemma lifecycle_handleTaskNotify (cfg : Config) (now : Z) (s : State) (e : notifyInfo)
    (rest : list notifyInfo) :
  notifyChan s = e :: rest ->
  lifecycle w k cfg s -> lifecycle w k cfg (handleTaskNotify cfg now e (setNotifyChan rest s)).
Proof.
  intros Hchan H.
  pose proof (notifiedOk_le s) as Hok. unfold notifiedOk, notified in Hok.
  assert (Hokrest : countZ (okNotifyFor w k) rest <= countZ (outputNotifyFor w k) rest).
  { apply countZ_le. intros n Hn. unfold okNotifyFor in Hn.
    apply andb_true_iff in Hn as [Hn _]. exact Hn. }
  counts s.
  pose proof (countZ_nonneg (outputNotifyFor w k) rest).
  pose proof (countZ_nonneg (okNotifyFor w k) rest).
  pose proof (countZ_nonneg (deleteNotifyFor w k) rest).
  assert (Hbase : forall b1 b2 b3,
             outputNotifyFor w k e = b1 -> okNotifyFor w k e = b2 -> deleteNotifyFor w k e = b3 ->
             good (KeepSourceFile (CollectRule cfg)) (getFile (fileCache s) w k)
               (countZ (taskFor w k) (tasks s))
               ((if b1 then 1 else 0) + countZ (outputNotifyFor w k) rest)
               ((if b2 then 1 else 0) + countZ (okNotifyFor w k) rest)
               (countZ (keyFor w k) (deleteChan s))
               ((if b3 then 1 else 0) + countZ (deleteNotifyFor w k) rest)
               (countZ (executeFor w k) (calls s)) (countZ (failedExecuteFor w k) (calls s))
               (countZ (removeFor w k) (calls s))
             /\ (if b2 then 1 else 0) + countZ (okNotifyFor w k) rest
                <= (if b1 then 1 else 0) + countZ (outputNotifyFor w k) rest).
  { intros b1 b2 b3 <- <- <-. unfold lifecycle, queued, notified, notifiedOk, deleteQueued,
      deleteNotified, attempts, failedAttempts, removals in H.
    rewrite Hchan in H. rewrite Hchan in Hok.
    rewrite !countZ_cons in H. rewrite !countZ_cons in Hok. split; [exact H | exact Hok]. }
  clear H Hok.
  unfold handleTaskNotify.
  destruct (isFile w k (watchPath e) (filePath e)) eqn:Hfile.
  - (* a notification of the file *)
    apply isFile_true in Hfile as Hwk. destruct Hwk as [Hw Hk].
    rewrite Hw, Hk. cbn [fileCache setNotifyChan].
    assert (Hkey : keyFor w k (newCacheKey w k) = true).
    { unfold keyFor, newCacheKey. cbn [keyWatchPath keyFilePath]. apply isFile_true. auto. }
    destruct (typ e) eqn:Htyp.
    + destruct (Hbase false false false) as [H _];
        try (unfold okNotifyFor, outputNotifyFor, deleteNotifyFor, isOutput, isDelete;
             rewrite Htyp; reflexivity).
      unfold lifecycle, queued, notified, notifiedOk, deleteQueued, deleteNotified, attempts,
        failedAttempts, removals. cbn [setNotifyChan fileCache tasks notifyChan deleteChan calls].
      exact H.
    + destruct (Hbase true (result e) false) as [H Hok];
        try (unfold okNotifyFor, outputNotifyFor, deleteNotifyFor, isOutput, isDelete;
             rewrite Htyp, Hfile; reflexivity).
      destruct (getFile (fileCache s) w k) as [v |] eqn:Hv.
      * pose proof (good_count_bound _ _ _ _ _ _ _ _ _ _ H) as Hc.
        destruct (result e) eqn:Hres; cbn [negb andb].
        -- destruct (KeepSourceFile (CollectRule cfg)) eqn:Hkeep; cbn [negb];
             unfold_lifecycle; rewrite ?countZ_snoc, ?Hkey;
             rewrite ?getFile_removeFile_eq, ?(getFile_storeFile_same _ _ _ Hv);
             unfold good in *; cbn zeta in *; cbn [status uploadFailedCount] in *;
             destruct (status v); close_good.
        -- rewrite (add64_small _ Hc).
           destruct (uploadFailedCount v + 1 <? 3) eqn:Hlt;
             [apply Z.ltb_lt in Hlt | apply Z.ltb_ge in Hlt];
             destruct (KeepSourceFile (CollectRule cfg)) eqn:Hkeep; cbn [negb];
             unfold_lifecycle; rewrite ?countZ_snoc, ?Hkey;
             rewrite ?getFile_removeFile_eq, ?(getFile_storeFile_same _ _ _ Hv);
             unfold good in *; cbn zeta in *; cbn [status uploadFailedCount] in *;
             destruct (status v); close_good.
      * unfold_lifecycle. rewrite Hv. unfold good in *.
        destruct (result e); destruct (KeepSourceFile (CollectRule cfg)); close_good.
    + destruct (Hbase false false true) as [H Hok];
        try (unfold okNotifyFor, outputNotifyFor, deleteNotifyFor, isOutput, isDelete;
             rewrite Htyp, ?Hfile; reflexivity).
      destruct (getFile (fileCache s) w k) as [v |] eqn:Hv.
      * destruct (negb (result e) && _);
          unfold_lifecycle; rewrite ?countZ_snoc, ?Hkey;
          rewrite ?getFile_removeFile_eq, ?(getFile_storeFile_same _ _ _ Hv);
          unfold good in *; cbn zeta in *; cbn [status uploadFailedCount] in *;
          destruct (KeepSourceFile (CollectRule cfg)) eqn:Hkeep;
          destruct (status v); close_good.
      * unfold_lifecycle. rewrite Hv. unfold good in *.
        destruct (KeepSourceFile (CollectRule cfg)); close_good.
  - (* a notification of another file *)
    destruct (notifyFor_not_file e Hfile) as (Ho & Hk & Hd).
    apply isFile_false in Hfile as Hne.
    destruct (Hbase false false false Ho Hk Hd) as [H _]. cbn [Z.add] in H.
    assert (Hrest : lifecycle w k cfg (setNotifyChan rest s)).
    { unfold lifecycle, queued, notified, notifiedOk, deleteQueued, deleteNotified, attempts,
        failedAttempts, removals. cbn [setNotifyChan fileCache tasks notifyChan deleteChan calls].
      exact H. }
    assert (Hkey : keyFor w k (newCacheKey (watchPath e) (filePath e)) = false).
    { unfold keyFor, newCacheKey. cbn [keyWatchPath keyFilePath].
      destruct (isFile w k (watchPath e) (filePath e)) eqn:E; [| reflexivity].
      apply isFile_true in E. tauto. }
    destruct (typ e); [exact Hrest | |];
      cbn [fileCache setNotifyChan];
      (destruct (getFile (fileCache s) (watchPath e) (filePath e)) as [v1 |]; [| exact Hrest]);
      repeat match goal with
             | |- context [if ?b then _ else _] => destruct b
             end;
      unfold lifecycle, queued, notified, notifiedOk, deleteQueued, deleteNotified, attempts,
        failedAttempts, removals in *;
      cbn [sendNotify addCall setDeleteChan setNotifyChan setFileCache setTasks
             setInputDiscardTotal fileCache tasks notifyChan deleteChan calls] in *;
      rewrite ?countZ_snoc, ?Hkey, ?Z.add_0_r;
      rewrite ?(getFile_removeFile_ne _ _ _ Hne), ?(getFile_storeFile_ne _ _ _ _ Hne);
      exact Hrest.
Qed.


Lemma lifecycle_tickFile (cfg : Config) (t : Z) (stat : string -> FileInfo + string)
    (w' k' : string) (s : State) :
  lifecycle w k cfg s -> lifecycle w k cfg (tickFile cfg t stat w' k' s).
Proof.
  intros H. counts s. unfold tickFile.
  destruct (fileCache s !! w') as [cache |] eqn:Hw'; [| exact H].
  destruct (files cache !! k') as [v1 |] eqn:Hk'; [| exact H].
  destruct (negb _ || _) eqn:Hcond; [exact H |].
  apply orb_false_iff in Hcond as [Hst _]. apply negb_false_iff in Hst.
  assert (Hwait : status v1 = fileStatusWaitUpload).
  { destruct (status v1); cbn in Hst; congruence. }
  clear Hst.
  assert (Hv1 : getFile (fileCache s) w' k' = Some v1).
  { unfold getFile. rewrite Hw'. exact Hk'. }
  destruct (isFile w k w' k') eqn:Hfile.
  - apply isFile_true in Hfile as Hwk. destruct Hwk as [-> ->].
    assert (Htask : forall r, taskFor w k (mkTaskClosure w r k) = true).
    { intros r. unfold taskFor. cbn [taskWatchPath taskFilePath]. exact Hfile. }
    destruct (stat k) as [info | msg].
    + destruct (t <? add64 _ _).
      * unfold_lifecycle. rewrite (getFile_storeFile_same _ _ _ Hv1). rewrite Hv1 in H.
        unfold good in *. cbn zeta in *. cbn [status uploadFailedCount] in *.
        rewrite Hwait in *. exact H.
      * unfold trySubmitTask.
        destruct (uploadFailedCount v1 =? 0);
          cbn [tasks observeInputRequestSize];
          destruct (_ <? tasksCap)%nat;
          unfold_lifecycle; rewrite ?countZ_snoc, ?Htask;
          rewrite ?(getFile_storeFile_same _ _ _ Hv1); rewrite Hv1 in H; rewrite ?Hv1;
          unfold good in *; cbn zeta in *; cbn [status uploadFailedCount] in *;
          rewrite Hwait in H; rewrite ?Hwait; cbv beta iota zeta in H; cbv beta iota zeta;
          destruct (KeepSourceFile (CollectRule cfg)); close_good.
    + unfold_lifecycle. rewrite getFile_removeFile_eq. rewrite Hv1 in H.
      unfold good in *. cbn zeta in *. rewrite Hwait in H. cbv beta iota zeta in H.
      destruct (KeepSourceFile (CollectRule cfg)); close_good.
  - apply isFile_false in Hfile as Hne.
    assert (Htask : forall r, taskFor w k (mkTaskClosure w' r k') = false).
    { intros r. unfold taskFor. cbn [taskWatchPath taskFilePath]. exact Hfile. }
    destruct (stat k') as [info | msg].
    + destruct (t <? add64 _ _).
      * unfold_lifecycle. rewrite (getFile_storeFile_ne _ _ _ _ Hne). exact H.
      * unfold trySubmitTask.
        destruct (uploadFailedCount v1 =? 0);
          cbn [tasks observeInputRequestSize];
          destruct (_ <? tasksCap)%nat;
          unfold_lifecycle; rewrite ?countZ_snoc, ?Htask, ?Z.add_0_r;
          rewrite ?(getFile_storeFile_ne _ _ _ _ Hne); exact H.
    + unfold_lifecycle. rewrite (getFile_removeFile_ne _ _ _ Hne). exact H.
Qed.

Lemma lifecycle_tick (cfg : Config) (t : Z) (stat : string -> FileInfo + string)
    (order : list (string * string)) (s : State) :
  lifecycle w k cfg s -> lifecycle w k cfg (tick cfg t stat order s).
Proof.
  intros H. unfold tick.
  apply (lifecycle_same cfg (fold_left (fun s wk => tickFile cfg t stat wk.1 wk.2 s) order s));
    try reflexivity.
  revert s H. induction order as [| [w' k'] order IH]; intros s H; [exact H |].
  cbn [fold_left fst snd]. apply IH. apply lifecycle_tickFile. exact H.
Qed.

Lemma lifecycle_handleWatcherEvent (cfg : Config) (os : OS) (event : Event) (s : State) :
  EvName event <> w -> EvName event <> k ->
  lifecycle w k cfg s -> lifecycle w k cfg (fst (handleWatcherEvent cfg os event s)).
Proof.
  intros Hw Hk H. unfold handleWatcherEvent.
  destruct (HasRemove event && negb (HasRename event)).
  { cbn [fst]. apply (lifecycle_same cfg s); try reflexivity; [| exact H].
    unfold removeCache. cbn [fileCache setFileCache]. apply getFile_delete_ne. exact Hw. }
  destruct (negb (HasCreate event)); [exact H |].
  destruct (Stat os (EvName event)) as [info | msg]; [| exact H].
  destruct (IsDir info).
  - destruct (matchedBasePath _ _) as [r |]; [| exact H].
    unfold addWatchPath.
    destruct (fileCache s !! EvName event); [exact H |].
    destruct (WatcherAdd os (EvName event)); [exact H |].
    destruct (negb _).
    + destruct (walkHistorical _ _ _ _); [| exact H].
      cbn [fst]. apply (lifecycle_same cfg s); try reflexivity; [| exact H].
      cbn [fileCache setFileCache]. apply getFile_insert_ne. exact Hw.
    + cbn [fst]. apply (lifecycle_same cfg s); try reflexivity; [| exact H].
      cbn [fileCache setFileCache]. apply getFile_insert_ne. exact Hw.
  - destruct (excluded cfg (EvName event)); [exact H |].
    destruct (fileCache s !! Filepath.Dir (EvName event)); [| exact H].
    cbn [fst]. apply (lifecycle_same cfg s); try reflexivity; [| exact H].
    cbn [fileCache setFileCache]. apply getFile_storeFile_ne. tauto.
Qed.

Lemma lifecycle_step (cfg : Config) (s : State) (a : action) :
  outputIsCos cfg -> quietAction w k a ->
  lifecycle w k cfg s -> lifecycle w k cfg (step cfg s a).
Proof.
  intros Hcos Hquiet H. destruct a as [now | os event | t stat order | execute | remove];
    cbn [step].
  - destruct (notifyChan s) as [| e rest] eqn:Hchan; [exact H |].
    apply lifecycle_handleTaskNotify; assumption.
  - destruct Hquiet as [Hw Hk]. apply lifecycle_handleWatcherEvent; assumption.
  - apply lifecycle_tick. exact H.
  - apply lifecycle_runOutputTask; assumption.
  - apply lifecycle_runDeleteFileTask. exact H.
Qed.


Lemma fresh_lifecycle (cfg : Config) (s : State) : fresh w k s -> lifecycle w k cfg s.
Proof.
  intros ((p & Hf) & Hq & Hn & Hdk & Hdn & Hx & Hr).
  pose proof (notifiedOk_le s) as Hok.
  pose proof (countZ_nonneg (okNotifyFor w k) (notifyChan s)) as Hok0.
  assert (Hxf : failedAttempts w k s = 0).
  { pose proof (countZ_nonneg (failedExecuteFor w k) (calls s)).
    assert (failedAttempts w k s <= attempts w k s); [| unfold failedAttempts in *; lia].
    apply countZ_le. intros [? ? ? ok | ? ? ?]; cbn; [| discriminate].
    intros Hc. apply andb_true_iff in Hc as [Hc _]. exact Hc. }
  unfold lifecycle. rewrite Hf, Hq, Hn, Hdk, Hdn, Hx, Hr, Hxf.
  unfold good. cbn. repeat split; try lia.
Qed.


Lemma Inc_counterValue (labels : list string) (c : gmap (list string) nat) :
  counterValue labels (Inc labels c) = S (counterValue labels c).
Proof. unfold counterValue, Inc. rewrite lookup_insert_eq. reflexivity. Qed.





End LifecycleProperties.

Section QuiescenceWindow.
Import FileArchive Quiescence.

Lemma tickFile_getFile_other (cfg : Config) (t : Z) (stat : string -> FileInfo + string)
    (w k w' k' : string) (s : State) :
  ~ (w' = w /\ k' = k) ->
  getFile (fileCache (tickFile cfg t stat w' k' s)) w k = getFile (fileCache s) w k.
Proof.
  intros Hne. unfold tickFile.
  destruct (fileCache s !! w') as [cache |]; [| reflexivity].
  destruct (files cache !! k') as [v |]; [| reflexivity].
  destruct (negb _ || _); [reflexivity |].
  destruct (stat k') as [info | msg];
    [| cbn [fileCache setFileCache]; apply getFile_removeFile_ne; exact Hne].
  destruct (t <? add64 _ _);
    [cbn [fileCache setFileCache]; apply getFile_storeFile_ne; exact Hne |].
  unfold trySubmitTask.
  destruct (uploadFailedCount v =? 0); cbn [tasks observeInputRequestSize];
    (destruct (_ <? tasksCap)%nat; [| reflexivity]);
    cbn [fileCache setFileCache setTasks]; apply getFile_storeFile_ne; exact Hne.
Qed.

Lemma tickFile_restarts (cfg : Config) (t : Z) (stat : string -> FileInfo + string)
    (w k : string) (s : State) (info : FileInfo) (v : fileInfo) :
  stat k = inl info ->
  t < add64 (Unix (ModTime info)) (ModifyProtectTime (CollectRule cfg)) ->
  getFile (fileCache s) w k = Some v ->
  status v = fileStatusWaitUpload -> protectedEndTime v <= t ->
  getFile (fileCache (tickFile cfg t stat w k s)) w k
  = Some (withProtectedEndTime v
            (add64 (Unix (ModTime info)) (ModifyProtectTime (CollectRule cfg)))).
Proof.
  intros Hstat Hlate Hv Hst Hpet.
  destruct (getFile_is_Some_watch _ _ _ _ Hv) as (cache & Hw & Hk).
  unfold tickFile. rewrite Hw, Hk, Hstat.
  apply Z.ltb_lt in Hlate. rewrite Hlate.
  destruct (negb _ || _) eqn:Hskip.
  - exfalso. rewrite Hst in Hskip. cbn in Hskip. apply Z.ltb_lt in Hskip. lia.
  - cbn [fileCache setFileCache]. apply getFile_storeFile_eq. eauto.
Qed.

Lemma tickFile_still_waiting (cfg : Config) (t : Z) (stat : string -> FileInfo + string)
    (w k : string) (s : State) (v : fileInfo) :
  getFile (fileCache s) w k = Some v -> t < protectedEndTime v ->
  tickFile cfg t stat w k s = s.
Proof.
  intros Hv Hpet. destruct (getFile_is_Some_watch _ _ _ _ Hv) as (cache & Hw & Hk).
  unfold tickFile. rewrite Hw, Hk. apply Z.ltb_lt in Hpet. rewrite Hpet.
  rewrite orb_true_r. reflexivity.
Qed.

Lemma tick_restarts (cfg : Config) (t : Z) (stat : string -> FileInfo + string)
    (w k : string) (info : FileInfo) (v : fileInfo) (order : list (string * string)) :
  stat k = inl info ->
  t < add64 (Unix (ModTime info)) (ModifyProtectTime (CollectRule cfg)) ->
  status v = fileStatusWaitUpload -> protectedEndTime v <= t ->
  forall s : State,
    let v' := withProtectedEndTime v
                (add64 (Unix (ModTime info)) (ModifyProtectTime (CollectRule cfg))) in
    let s' := fold_left (fun s wk => tickFile cfg t stat (fst wk) (snd wk) s) order s in
    (getFile (fileCache s) w k = Some v' -> getFile (fileCache s') w k = Some v')
    /\ (getFile (fileCache s) w k = Some v -> (w, k) ∈ order ->
        getFile (fileCache s') w k = Some v').
Proof.
  intros Hstat Hlate Hst Hpet. cbv zeta.
  induction order as [| [w1 k1] order IH]; intros s.
  - split; [auto |]. intros _ Hin. apply elem_of_nil in Hin as [].
  - cbn [fold_left fst snd].
    destruct (IH (tickFile cfg t stat w1 k1 s)) as (IHdone & IHtodo).
    destruct (decide (w1 = w /\ k1 = k)) as [[-> ->] | Hne].
    + split.
      * intros Hv'. apply IHdone.
        rewrite (tickFile_still_waiting cfg t stat w k s _ Hv') by exact Hlate. exact Hv'.
      * intros Hv _. apply IHdone. apply tickFile_restarts; assumption.
    + split.
      * intros Hv'. apply IHdone. rewrite tickFile_getFile_other by exact Hne. exact Hv'.
      * intros Hv Hin. apply IHtodo.
        -- rewrite tickFile_getFile_other by exact Hne. exact Hv.
        -- apply elem_of_cons in Hin as [Heq | Hin]; [| exact Hin].
           injection Heq as -> ->. exfalso. apply Hne. split; reflexivity.
Qed.

(** C3, as the code has it. The sum of a modification time and
    ModifyProtectTime is computed in int64; where it fits in 64 bits:
    every closure that a tick puts on the task queue is for a file whose
    modification time, read by that tick, plus ModifyProtectTime is not
    after the time of the tick.  A waiting file that a tick finds modified
    again, so that this sum is after the tick, is not submitted by that
    tick: when the tick handler returns, its protectedEndTime is the new sum
    and it keeps waiting.  A file that the watcher reports as created starts
    waiting with protectedEndTime at its modification time plus
    ModifyProtectTime. *)
Theorem upload_waits_for_quiescence :
  (forall (cfg : Config) (t : Z) (stat : string -> FileInfo + string)
          (order : list (string * string)) (s : State),
      exists new, tasks (tick cfg t stat order s) = tasks s ++ new
                  /\ Forall (quiesced cfg t stat) new)
  /\ (forall (cfg : Config) (t : Z) (stat : string -> FileInfo + string)
             (order : list (string * string)) (s : State) (w k : string)
             (info : FileInfo) (v : fileInfo),
        (w, k) ∈ order ->
        getFile (fileCache s) w k = Some v ->
        status v = fileStatusWaitUpload -> protectedEndTime v <= t ->
        stat k = inl info ->
        inInt64 (Unix (ModTime info) + ModifyProtectTime (CollectRule cfg)) ->
        t < Unix (ModTime info) + ModifyProtectTime (CollectRule cfg) ->
        getFile (fileCache (tick cfg t stat order s)) w k
        = Some (withProtectedEndTime v
                  (Unix (ModTime info) + ModifyProtectTime (CollectRule cfg)))
        /\ exists new, tasks (tick cfg t stat order s) = tasks s ++ new
                       /\ Forall (fun tk => taskFilePath tk <> k) new)
  /\ (forall (cfg : Config) (os : OS) (event : Event) (s : State) (info : FileInfo)
             (cache : element),
        HasRemove event && negb (HasRename event) = false ->
        HasCreate event = true ->
        Stat os (EvName event) = inl info ->
        IsDir info = false ->
        excluded cfg (EvName event) = false ->
        fileCache s !! Filepath.Dir (EvName event) = Some cache ->
        inInt64 (Unix (ModTime info) + ModifyProtectTime (CollectRule cfg)) ->
        getFile (fileCache (fst (handleWatcherEvent cfg os event s)))
          (Filepath.Dir (EvName event)) (EvName event)
        = Some (mkFileInfoEntry 0 0
                  (Unix (ModTime info) + ModifyProtectTime (CollectRule cfg))
                  fileStatusWaitUpload)).
Proof.
  split; [exact tick_tasks | split].
  - intros cfg t stat order s w k info v Hin Hv Hst Hpet Hstat Hfit Hlate.
    assert (Hsum : add64 (Unix (ModTime info)) (ModifyProtectTime (CollectRule cfg))
                   = Unix (ModTime info) + ModifyProtectTime (CollectRule cfg)).
    { unfold add64. apply wrap64_inInt64. exact Hfit. }
    split.
    + unfold tick. cbn [fileCache setInputQueneSize].
      destruct (tick_restarts cfg t stat w k info v order Hstat ltac:(rewrite Hsum; exact Hlate)
                  Hst Hpet s) as (_ & Htodo).
      rewrite <- Hsum. apply Htodo; assumption.
    + destruct (tick_tasks cfg t stat order s) as (new & Hnew & Hquiet).
      exists new. split; [exact Hnew |].
      eapply Forall_impl; [exact Hquiet |].
      intros tk (info' & Hstat' & Hdue & _) Hk. rewrite Hk, Hstat in Hstat'.
      injection Hstat' as <-. lia.
  - intros cfg os event s info cache Hrm Hcr Hstat Hdir Hex Hcache Hfit.
    unfold handleWatcherEvent. rewrite Hrm, Hcr, Hstat, Hdir, Hex, Hcache.
    cbn [negb fst fileCache setFileCache]. unfold freshFileInfo, add64.
    rewrite (wrap64_inInt64 _ Hfit). apply getFile_storeFile_eq. eauto.
Qed.

Lemma upload_waits_for_quiescence_witness :
  (exists new, tasks (tick appConfig 1000 (statAt 900) [("/var/log/app", "/var/log/app/a.log")]
                        (appState (waiting 100)))
               = tasks (appState (waiting 100)) ++ new
               /\ Forall (quiesced appConfig 1000 (statAt 900)) new)
  /\ (getFile (fileCache (tick appConfig 1000 (statAt 990)
                            [("/var/log/app", "/var/log/app/a.log")] (appState (waiting 100))))
        "/var/log/app" "/var/log/app/a.log"
      = Some (withProtectedEndTime (waiting 100) (990 + 60))
      /\ exists new, tasks (tick appConfig 1000 (statAt 990)
                              [("/var/log/app", "/var/log/app/a.log")] (appState (waiting 100)))
                     = tasks (appState (waiting 100)) ++ new
                     /\ Forall (fun tk => taskFilePath tk <> "/var/log/app/a.log") new)
  /\ getFile (fileCache (fst (handleWatcherEvent appConfig
                                (mkOS (statAt 900) (fun _ => []) (fun _ => None))
                                (mkEvent "/var/log/app/a.log" true false false false false)
                                (appState (waiting 100)))))
       (Filepath.Dir "/var/log/app/a.log") "/var/log/app/a.log"
     = Some (mkFileInfoEntry 0 0 (900 + 60) fileStatusWaitUpload).
Proof.
  destruct upload_waits_for_quiescence as (Htick & Hagain & Hcreate).
  split; [| split].
  - apply (Htick appConfig 1000 (statAt 900)).
  - apply (Hagain appConfig 1000 (statAt 990) [("/var/log/app", "/var/log/app/a.log")]
             (appState (waiting 100)) "/var/log/app" "/var/log/app/a.log"
             (mkFileInfo false (mkTime 990 2024 1 15 8) 1024) (waiting 100)).
    + apply list_elem_of_here.
    + vm_compute. reflexivity.
    + reflexivity.
    + vm_compute. discriminate.
    + reflexivity.
    + vm_compute. split; [discriminate | reflexivity].
    + vm_compute. reflexivity.
  - apply (Hcreate appConfig (mkOS (statAt 900) (fun _ => []) (fun _ => None))
             (mkEvent "/var/log/app/a.log" true false false false false)
             (appState (waiting 100)) (mkFileInfo false (mkTime 900 2024 1 15 8) 1024)
             (mkElement "/var/log/app" {[ "/var/log/app/a.log" := waiting 100 ]})).
    + reflexivity.
    + reflexivity.
    + reflexivity.
    + reflexivity.
    + reflexivity.
    + vm_compute. reflexivity.
    + vm_compute. split; [discriminate | reflexivity].
Defined.

(** A ModifyProtectTime that the sum overflows with: the file created with
    modification time 900 is submitted by the tick at 1000, long before 900
    plus ModifyProtectTime. *)
Lemma overflowing_window_submits_early :
  Stat foreverOS "/var/log/app/a.log" = inl (mkFileInfo false (mkTime 900 2024 1 15 8) 1024)
  /\ tasks (runSchedule foreverConfig appDirState createdThenTick)
     = [mkTaskClosure "/var/log/app" "/var/log/app" "/var/log/app/a.log"]
  /\ 1000 < 900 + ModifyProtectTime (CollectRule foreverConfig)
  /\ ~ (forall tk, tk ∈ tasks (runSchedule foreverConfig appDirState createdThenTick) ->
          exists info, Stat foreverOS (taskFilePath tk) = inl info
                       /\ Unix (ModTime info) + ModifyProtectTime (CollectRule foreverConfig)
                          <= 1000).
Proof.
  assert (Htasks : tasks (runSchedule foreverConfig appDirState createdThenTick)
                   = [mkTaskClosure "/var/log/app" "/var/log/app" "/var/log/app/a.log"])
    by (vm_compute; reflexivity).
  split; [reflexivity |]. split; [exact Htasks |]. split; [vm_compute; reflexivity |].
  intros H. destruct (H (mkTaskClosure "/var/log/app" "/var/log/app" "/var/log/app/a.log"))
    as (info & Hstat & Hdue).
  - rewrite Htasks. apply list_elem_of_here.
  - vm_compute in Hstat. injection Hstat as <-. vm_compute in Hdue. apply Hdue. reflexivity.
Qed.

(** The tick of scenario 1 submits a.log; one modified ten seconds ago waits. *)
Example tick_submits_quiet_file :
  tasks (tick appConfig 1000 (statAt 900) [("/var/log/app", "/var/log/app/a.log")]
           (appState (waiting 100)))
  = [mkTaskClosure "/var/log/app" "/var/log/app" "/var/log/app/a.log"]
  /\ tasks (tick appConfig 1000 (statAt 990) [("/var/log/app", "/var/log/app/a.log")]
              (appState (waiting 100))) = [].
Proof. vm_compute. split; reflexivity. Qed.

End QuiescenceWindow.

Section LifecycleExamples.
Import FileArchive Lifecycle Quiescence.

Lemma appConfig_outputIsCos : outputIsCos appConfig.
Proof. eexists. reflexivity. Qed.



(** Scenario 2 of the spec: three failures, one discard, the key queued. *)
Example three_failures_discard_and_delete :
  attempts "/var/log/app" "/var/log/app/a.log"
    (runSchedule appConfig (appState (waiting 100)) failThrice) = 3
  /\ discarded (runSchedule appConfig (appState (waiting 100)) failThrice) = 1%nat
  /\ deleteChan (runSchedule appConfig (appState (waiting 100)) failThrice)
     = [mkCacheKey "/var/log/app" "/var/log/app/a.log"]
  /\ calls (runSchedule appConfig (appState (waiting 100)) (failThrice ++ [ActDeleteWorker removing]))
     = [CallExecute "/var/log/app" "/var/log/app" "/var/log/app/a.log" false;
        CallExecute "/var/log/app" "/var/log/app" "/var/log/app/a.log" false;
        CallExecute "/var/log/app" "/var/log/app" "/var/log/app/a.log" false;
        CallRemove "/var/log/app" "/var/log/app/a.log" true].
Proof. vm_compute. repeat split; reflexivity. Qed.



(** Scenario 1 of the spec: one upload, then os.Remove, then the file
    leaves the cache. *)
Example upload_then_remove :
  calls (runSchedule appConfig (appState (waiting 100))
           (attempt 1000 succeeding ++ [ActDeleteWorker removing; ActNotify 1002]))
  = [CallExecute "/var/log/app" "/var/log/app" "/var/log/app/a.log" true;
     CallRemove "/var/log/app" "/var/log/app/a.log" true]
  /\ getFile (fileCache (runSchedule appConfig (appState (waiting 100))
                           (attempt 1000 succeeding ++ [ActDeleteWorker removing; ActNotify 1002])))
       "/var/log/app" "/var/log/app/a.log" = None.
Proof. vm_compute. split; reflexivity. Qed.

End LifecycleExamples.

(** * Properties of the rest of the code *)

Section StringProperties.

Lemma splitOn_not_nil (sep : ascii) (s : string) : splitOn sep s <> [].
Proof.
  destruct s as [| c s]; cbn [splitOn]; [discriminate |].
  destruct (Ascii.eqb c sep); [discriminate |].
  destruct (splitOn sep s); discriminate.
Qed.

Lemma joinWith_cons (sep p : string) (rest : list string) :
  rest <> [] -> joinWith sep (p :: rest) = p +:+ sep +:+ joinWith sep rest.
Proof. destruct rest; [contradiction | reflexivity]. Qed.

(** Joining what was split gives the string back. *)
Lemma joinWith_splitOn (sep : ascii) (s : string) :
  joinWith (String sep "") (splitOn sep s) = s.
Proof.
  induction s as [| c s IH]; [reflexivity |].
  cbn [splitOn]. destruct (Ascii.eqb c sep) eqn:Hc.
  - apply Ascii.eqb_eq in Hc as ->.
    rewrite joinWith_cons by apply splitOn_not_nil. rewrite IH. reflexivity.
  - pose proof (splitOn_not_nil sep s) as Hne.
    destruct (splitOn sep s) as [| hd tl]; [contradiction |].
    destruct tl as [| hd' tl].
    + cbn [joinWith] in *. rewrite IH. reflexivity.
    + rewrite joinWith_cons in * by discriminate.
      change (String c hd +:+ String sep "" +:+ joinWith (String sep "") (hd' :: tl))
        with (String c (hd +:+ String sep "" +:+ joinWith (String sep "") (hd' :: tl))).
      rewrite IH. reflexivity.
Qed.

Lemma splitOn_no_byte (sep : ascii) (s : string) :
  hasByte sep s = false -> splitOn sep s = [s].
Proof.
  induction s as [| c s IH]; intros H; [reflexivity |].
  cbn in H. apply orb_false_iff in H as [Hc H].
  cbn [splitOn]. rewrite Hc, (IH H). reflexivity.
Qed.

Lemma splitOn_elements (sep : ascii) (s : string) :
  Forall (fun p => hasByte sep p = false) (splitOn sep s).
Proof.
  induction s as [| c s IH]; cbn [splitOn].
  - constructor; [reflexivity | constructor].
  - destruct (Ascii.eqb c sep) eqn:Hc.
    + constructor; [reflexivity | exact IH].
    + destruct (splitOn sep s) as [| hd tl];
        [constructor; [cbn; rewrite Hc; reflexivity | constructor] |].
      apply Forall_cons in IH as [Hhd Htl].
      constructor; [cbn; rewrite Hc; exact Hhd | exact Htl].
Qed.

(** Splitting two strings joined by the separator. *)
Lemma splitOn_app (sep : ascii) (a b : string) :
  splitOn sep (a +:+ String sep b) = splitOn sep a ++ splitOn sep b.
Proof.
  induction a as [| c a IH].
  - change ("" +:+ String sep b) with (String sep b).
    cbn [splitOn app]. rewrite Ascii.eqb_refl. reflexivity.
  - change (String c a +:+ String sep b) with (String c (a +:+ String sep b)).
    cbn [splitOn]. rewrite IH. destruct (Ascii.eqb c sep); [reflexivity |].
    pose proof (splitOn_not_nil sep a) as Hne.
    destruct (splitOn sep a) as [| hd tl]; [contradiction | reflexivity].
Qed.

Lemma hasByte_splitOn (sep : ascii) (s : string) :
  hasByte sep s = true -> exists before lst, splitOn sep s = before ++ [lst] /\ before <> [].
Proof.
  intros H. destruct (splitOn sep s) as [| x l] eqn:Hs using rev_ind.
  - destruct (splitOn_not_nil _ _ Hs).
  - clear IHl. exists l, x. split; [reflexivity |]. intros ->.
    pose proof (splitOn_elements sep s) as Hel. rewrite Hs in Hel.
    apply Forall_cons in Hel as [Hx _].
    pose proof (joinWith_splitOn sep s) as Hj. rewrite Hs in Hj. cbn in Hj. subst x.
    congruence.
Qed.

Lemma string_app_assoc (a b c : string) : (a +:+ b) +:+ c = a +:+ b +:+ c.
Proof.
  induction a as [| x a IH]; [reflexivity |].
  change (String x ((a +:+ b) +:+ c) = String x (a +:+ b +:+ c)). rewrite IH. reflexivity.
Qed.

Lemma joinWith_snoc (sep : string) (l : list string) (x : string) :
  l <> [] -> joinWith sep (l ++ [x]) = joinWith sep l +:+ sep +:+ x.
Proof.
  induction l as [| p l IH]; intros Hne; [contradiction |].
  destruct l as [| p' l]; [reflexivity |].
  change ((p :: p' :: l) ++ [x]) with (p :: (p' :: l) ++ [x]).
  rewrite joinWith_cons by (destruct l; discriminate).
  rewrite IH by discriminate. rewrite (joinWith_cons sep p (p' :: l)) by discriminate.
  rewrite !string_app_assoc. reflexivity.
Qed.

End StringProperties.

Section ModuleIDProperties.

(** X1. A module ID with a dot is its namespace, a dot and its name; one
    without a dot has an empty namespace and is its own name; the name never
    holds a dot. *)
Theorem ModuleID_Namespace_Name (id : string) :
  (if hasByte "." id then id = Namespace id +:+ "." +:+ Name id
   else Namespace id = "" /\ Name id = id)
  /\ hasByte "." (Name id) = false.
Proof.
  unfold Namespace, Name.
  destruct (hasByte "." id) eqn:Hdot.
  - destruct (hasByte_splitOn _ _ Hdot) as (before & lst & Hs & Hne).
    pose proof (joinWith_splitOn "." id) as Hj.
    pose proof (splitOn_elements "." id) as Hel.
    rewrite Hs in *. rewrite rev_app_distr. cbn [rev app]. rewrite rev_involutive.
    destruct (String.eqb_spec id "") as [-> | _]; [discriminate |].
    rewrite List.last_last. split.
    + rewrite joinWith_snoc in Hj by exact Hne. symmetry. exact Hj.
    + apply Forall_app in Hel as [_ Hel]. apply Forall_cons in Hel as [Hl _]. exact Hl.
  - rewrite (splitOn_no_byte _ _ Hdot). cbn [rev app List.last joinWith].
    destruct (String.eqb_spec id "") as [-> | _]; repeat split; auto.
Qed.

End ModuleIDProperties.

Section RegistryProperties.
Import Logarchive Registry.

Lemma RegisterModule_returned (instance : Registration) (modules modules' : gmap string ModuleInfo) :
  RegisterModule instance modules = Returned modules' ->
  RegID instance <> "" /\ modules !! RegID instance = None
  /\ exists val, RegNew instance = Some (Some val)
                 /\ modules' = <[RegID instance := mkModuleInfo (RegID instance) (Some val)]> modules.
Proof.
  unfold RegisterModule. destruct (String.eqb_spec (RegID instance) ""); [discriminate |].
  destruct (RegNew instance) as [[val |] |]; try discriminate.
  destruct (modules !! RegID instance) eqn:Hm; [discriminate |].
  intros [= <-]. eauto.
Qed.

Lemma registerAll_from (instances : list Registration) (modules0 modules : gmap string ModuleInfo) :
  registerAll instances modules0 = Returned modules ->
  NoDup (RegID <$> instances)
  /\ (forall id info, modules0 !! id = Some info -> modules !! id = Some info)
  /\ (forall instance, instance ∈ instances ->
        modules0 !! RegID instance = None /\ RegID instance <> ""
        /\ exists val, RegNew instance = Some (Some val)
                       /\ modules !! RegID instance
                          = Some (mkModuleInfo (RegID instance) (Some val)))
  /\ (forall id info, modules !! id = Some info ->
        modules0 !! id = Some info \/ exists instance, instance ∈ instances /\ RegID instance = id).
Proof.
  revert modules0. induction instances as [| i rest IH]; intros modules0; cbn [registerAll].
  - intros [= <-]. split; [constructor |]. split; [auto |]. split; [| auto].
    intros instance Hin. apply elem_of_nil in Hin as [].
  - destruct (RegisterModule i modules0) as [modules1 | msg] eqn:Hreg; [| discriminate].
    intros Hrest.
    destruct (RegisterModule_returned _ _ _ Hreg) as (Hid & Hnew & val & Hval & ->).
    destruct (IH _ Hrest) as (Hnodup & Hkeep & Hin & Hfrom).
    assert (Hhead : modules !! RegID i = Some (mkModuleInfo (RegID i) (Some val))).
    { apply Hkeep. apply lookup_insert_eq. }
    split; [| split; [| split]].
    + rewrite fmap_cons. constructor; [| exact Hnodup].
      intros Hdup. apply list_elem_of_fmap in Hdup as (j & Hj & Hjin).
      destruct (Hin j Hjin) as (Hnone & _). rewrite <- Hj, lookup_insert_eq in Hnone.
      discriminate.
    + intros id info Hm. apply Hkeep. rewrite lookup_insert_ne; [exact Hm |].
      intros <-. congruence.
    + intros instance Hinst. apply elem_of_cons in Hinst as [-> | Hinst]; [eauto 6 |].
      destruct (Hin instance Hinst) as (Hnone & Hne & Hreg').
      split; [| auto].
      destruct (decide (RegID i = RegID instance)) as [Heq | Hneq].
      * rewrite <- Heq, lookup_insert_eq in Hnone. discriminate.
      * rewrite lookup_insert_ne in Hnone by exact Hneq. exact Hnone.
    + intros id info Hm. destruct (Hfrom id info Hm) as [H0 | (j & Hj & Hjid)].
      * destruct (decide (RegID i = id)) as [<- | Hneq].
        -- right. exists i. split; [apply list_elem_of_here | reflexivity].
        -- rewrite lookup_insert_ne in H0 by exact Hneq. auto.
      * right. exists j. split; [apply list_elem_of_further; exact Hj | exact Hjid].
Qed.

Lemma RegisterModule_registry_spec (instances : list Registration)
    (modules : gmap string ModuleInfo) :
  registerAll instances ∅ = Returned modules ->
  forall id, modules !! id = None
             \/ exists val, modules !! id = Some (mkModuleInfo id (Some val)).
Proof.
  intros Hreg id. destruct (registerAll_from _ _ _ Hreg) as (_ & _ & Hin & Hfrom).
  destruct (modules !! id) as [info |] eqn:Hm; [right | left; reflexivity].
  destruct (Hfrom id info Hm) as [H0 | (i & Hi & <-)];
    [rewrite lookup_empty in H0; discriminate |].
  destruct (Hin i Hi) as (_ & _ & val & _ & Hmi). exists val. congruence.
Qed.

(** X2. The registry that the init functions build holds exactly the modules
    that were registered, each under its own ID with its constructor; no ID
    is empty and none was registered twice. *)
Theorem RegisterModule_registry (instances : list Registration) (modules : gmap string ModuleInfo) :
  registerAll instances ∅ = Returned modules ->
  NoDup (RegID <$> instances)
  /\ forall id info,
       modules !! id = Some info <->
       exists val, mkRegistration id (Some (Some val)) ∈ instances
                   /\ id <> "" /\ info = mkModuleInfo id (Some val).
Proof.
  intros Hreg. destruct (registerAll_from _ _ _ Hreg) as (Hnodup & _ & Hin & Hfrom).
  split; [exact Hnodup |]. intros id info. split.
  - intros Hm. destruct (Hfrom id info Hm) as [H0 | (i & Hi & <-)];
      [rewrite lookup_empty in H0; discriminate |].
    destruct (Hin i Hi) as (_ & Hne & val & Hval & Hmi).
    exists val. destruct i as [rid rnew]. cbn in *. subst rnew.
    repeat split; [exact Hi | exact Hne | congruence].
  - intros (val & Hi & _ & ->).
    destruct (Hin _ Hi) as (_ & _ & val' & Hval & Hmi). cbn in *. congruence.
Qed.

Lemma RegisterModule_registry_witness :
  registerAll moduleInits ∅ = Returned builtinModules
  /\ NoDup (RegID <$> moduleInits)
  /\ (builtinModules !! "output.cos"
      = Some (mkModuleInfo "output.cos" (Some Loading.cosInstance)) <->
      exists val, mkRegistration "output.cos" (Some (Some val)) ∈ moduleInits
                  /\ "output.cos" <> ""
                  /\ mkModuleInfo "output.cos" (Some Loading.cosInstance)
                     = mkModuleInfo "output.cos" (Some val)).
Proof.
  assert (H : registerAll moduleInits ∅ = Returned builtinModules) by (vm_compute; reflexivity).
  split; [exact H |].
  destruct (RegisterModule_registry moduleInits builtinModules H) as (Hnodup & Hreg).
  split; [exact Hnodup | apply Hreg].
Defined.

(** X3. With a registry built by RegisterModule, loading an ID that was not
    registered fails with "unknown module" before anything is called, and
    loading a registered ID always reaches the constructor: the branch for a
    module without constructor is never taken. *)
Theorem LoadModuleByID_of_registered
    (modules : gmap string ModuleInfo) (Unmarshal : string -> Module -> option Module + error)
    (ctx : Context) (id raw : string) :
  registered modules ->
  match modules !! id with
  | None =>
      LoadModuleByID modules Unmarshal ctx id raw
      = (Returned (inr (errorNew ("unknown module: " +:+ id)), ctx), [])
  | Some info =>
      ID info = id
      /\ exists rest, snd (LoadModuleByID modules Unmarshal ctx id raw) = CallNew id :: rest
  end.
Proof.
  intros (instances & Hreg). destruct (RegisterModule_registry_spec instances modules Hreg id)
    as [Hnone | (val & Hm)].
  - unfold LoadModuleByID. rewrite Hnone. reflexivity.
  - unfold LoadModuleByID. rewrite Hm. cbn [New ID]. split; [reflexivity |].
    rewrite bind_emit. cbn [snd]. eauto.
Qed.

Lemma LoadModuleByID_of_registered_witness :
  exists rest,
    snd (LoadModuleByID Loading.cosRegistry (fun _ val => inl (Some val)) emptyContext
           "output.cos" "")
    = CallNew "output.cos" :: rest.
Proof.
  assert (Hreg : registered Loading.cosRegistry).
  { exists [mkRegistration "output.cos" (Some (Some Loading.cosInstance))].
    vm_compute. reflexivity. }
  pose proof (LoadModuleByID_of_registered Loading.cosRegistry (fun _ val => inl (Some val))
                emptyContext "output.cos" "" Hreg) as H.
  change (Loading.cosRegistry !! "output.cos")
    with (Some (mkModuleInfo "output.cos" (Some Loading.cosInstance))) in H.
  exact (proj2 H).
Defined.

End RegistryProperties.

Section StructTagProperties.
Import Registry.

Lemma Cut_spec (s : string) (sep : ascii) :
  let '(before, after, found) := Cut s sep in
  found = hasByte sep s
  /\ (if found then s = before +:+ String sep after /\ hasByte sep before = false
      else before = s /\ after = "").
Proof.
  induction s as [| a s IH]; cbn [Cut hasByte]; [auto |].
  destruct (Ascii.eqb a sep) eqn:Ha.
  - apply Ascii.eqb_eq in Ha as ->. cbn. auto.
  - destruct (Cut s sep) as [[before after] found]. destruct IH as (Hf & IH).
    cbn [orb]. split; [exact Hf |]. destruct found.
    + destruct IH as (-> & Hb). cbn [hasByte]. rewrite Ha, Hb. auto.
    + destruct IH as (-> & ->). auto.
Qed.

Lemma Cut_pairText (k v : string) :
  hasByte "=" k = false -> Cut (pairText (k, v)) "=" = (k, v, true).
Proof.
  unfold pairText. cbn [fst snd]. induction k as [| a k IH]; intros Hk.
  - reflexivity.
  - cbn in Hk. apply orb_false_iff in Hk as [Ha Hk].
    change (String a k +:+ "=" +:+ v) with (String a (k +:+ "=" +:+ v)).
    cbn [Cut]. rewrite Ha, (IH Hk). reflexivity.
Qed.

Lemma parsePairs_error (i0 : Z) (items : list string) (results : gmap string string) :
  match parsePairs i0 items results with
  | inr e =>
      exists (i : nat) (item : string),
        items !! i = Some item
        /\ Forall (fun it => it = "" \/ hasByte "=" it = true) (take i items)
        /\ item <> "" /\ hasByte "=" item = false
        /\ e = errorNew ("missing key in '" +:+ item +:+ "' (pair "
                         +:+ Itoa (i0 + Z.of_nat i) +:+ ")")
  | inl _ => Forall (fun it => it = "" \/ hasByte "=" it = true) items
  end.
Proof.
  revert i0 results. induction items as [| item rest IH]; intros i0 results; cbn [parsePairs].
  - constructor.
  - assert (Hstep : forall results',
               (item = "" \/ hasByte "=" item = true) ->
               match parsePairs (i0 + 1) rest results' with
               | inr e =>
                   exists (i : nat) (item0 : string),
                     (item :: rest) !! i = Some item0
                     /\ Forall (fun it => it = "" \/ hasByte "=" it = true) (take i (item :: rest))
                     /\ item0 <> "" /\ hasByte "=" item0 = false
                     /\ e = errorNew ("missing key in '" +:+ item0 +:+ "' (pair "
                                      +:+ Itoa (i0 + Z.of_nat i) +:+ ")")
               | inl _ => Forall (fun it => it = "" \/ hasByte "=" it = true) (item :: rest)
               end).
    { intros results' Hitem. specialize (IH (i0 + 1) results').
      destruct (parsePairs (i0 + 1) rest results') as [m | e].
      - constructor; assumption.
      - destruct IH as (i & item0 & Hi & Hbefore & Hne & Hno & ->).
        exists (S i), item0. cbn [lookup list_lookup take].
        repeat split; [exact Hi | constructor; assumption | exact Hne | exact Hno |].
        replace (i0 + Z.of_nat (S i)) with (i0 + 1 + Z.of_nat i) by lia. reflexivity. }
    destruct (String.eqb_spec item "") as [-> | Hne]; [apply Hstep; auto |].
    pose proof (Cut_spec item "=") as Hcut.
    destruct (Cut item "=") as [[before after] found]. destruct Hcut as (Hf & Hcut).
    destruct found.
    + apply Hstep. auto.
    + exists 0%nat, item. cbn [lookup list_lookup take].
      repeat split; [constructor | exact Hne | congruence |].
      replace (i0 + Z.of_nat 0) with i0 by lia. reflexivity.
Qed.

(** X4. ParseStructTag fails exactly when one of the pieces between spaces
    is not empty and has no "="; the error names the first such piece and
    its index.  Empty pieces, that is repeated, leading or trailing spaces,
    are passed over. *)
Theorem ParseStructTag_error (tag : string) :
  match ParseStructTag tag with
  | inr e =>
      exists (i : nat) (item : string),
        splitOn " " tag !! i = Some item
        /\ Forall (fun it => it = "" \/ hasByte "=" it = true) (take i (splitOn " " tag))
        /\ item <> "" /\ hasByte "=" item = false
        /\ e = errorNew ("missing key in '" +:+ item +:+ "' (pair "
                         +:+ Itoa (Z.of_nat i) +:+ ")")
  | inl _ => Forall (fun it => it = "" \/ hasByte "=" it = true) (splitOn " " tag)
  end.
Proof. unfold ParseStructTag. apply (parsePairs_error 0). Qed.

Lemma splitOn_joinWith_byte (sep : ascii) (items : list string) :
  items <> [] ->
  Forall (fun it => hasByte sep it = false) items ->
  splitOn sep (joinWith (String sep "") items) = items.
Proof.
  induction items as [| it items IH]; intros Hne Hall; [contradiction |].
  apply Forall_cons in Hall as [Hit Hall].
  destruct items as [| it' items].
  - cbn [joinWith]. apply splitOn_no_byte. exact Hit.
  - rewrite joinWith_cons by discriminate.
    change (it +:+ String sep "" +:+ joinWith (String sep "") (it' :: items))
      with (it +:+ String sep (joinWith (String sep "") (it' :: items))).
    rewrite splitOn_app, IH by (discriminate || exact Hall).
    rewrite (splitOn_no_byte _ _ Hit). reflexivity.
Qed.

Lemma parsePairs_pairs (i0 : Z) (kvs : list (string * string)) (results : gmap string string) :
  Forall (fun kv => hasByte "=" (fst kv) = false) kvs ->
  parsePairs i0 (pairText <$> kvs) results
  = inl (fold_left (fun m kv => <[fst kv := snd kv]> m) kvs results).
Proof.
  revert i0 results. induction kvs as [| [k v] kvs IH]; intros i0 results Hall; [reflexivity |].
  apply Forall_cons in Hall as [Hk Hall]. cbn [fst] in Hk.
  rewrite fmap_cons. cbn [parsePairs fold_left].
  rewrite (Cut_pairText k v Hk).
  destruct (String.eqb_spec (pairText (k, v)) "") as [Heq | _].
  - exfalso. unfold pairText in Heq. cbn [fst snd] in Heq.
    destruct k; discriminate.
  - apply IH. exact Hall.
Qed.

Lemma fold_insert_list_to_map (kvs : list (string * string)) :
  fold_left (fun (m : gmap string string) kv => <[fst kv := snd kv]> m) kvs ∅
  = list_to_map (rev kvs).
Proof.
  induction kvs as [| [k v] kvs IH] using rev_ind; [reflexivity |].
  rewrite fold_left_app, rev_app_distr. cbn [fold_left rev app list_to_map fst snd].
  rewrite IH. reflexivity.
Qed.

(** X5. A tag written as keys and values joined by "=" and separated by single
    spaces is parsed back into those keys and values, a later value of a key
    replacing an earlier one, provided no key or value holds a space and no
    key holds "=". *)
Theorem ParseStructTag_of_pairs (kvs : list (string * string)) :
  Forall (fun kv => hasByte " " (fst kv) = false /\ hasByte "=" (fst kv) = false
                    /\ hasByte " " (snd kv) = false) kvs ->
  ParseStructTag (joinWith " " (pairText <$> kvs)) = inl (list_to_map (rev kvs)).
Proof.
  intros Hall. unfold ParseStructTag.
  destruct kvs as [| kv kvs]; [reflexivity |].
  rewrite splitOn_joinWith_byte.
  - rewrite parsePairs_pairs, fold_insert_list_to_map; [reflexivity |].
    eapply Forall_impl; [exact Hall |]. intros ? (_ & H & _). exact H.
  - discriminate.
  - apply Forall_fmap. eapply Forall_impl; [exact Hall |].
    intros [k v] (Hk & _ & Hv). cbn [fst snd] in *. unfold pairText, compose. cbn [fst snd].
    clear -Hk Hv. induction k as [| a k IH]; [exact Hv |].
    cbn in Hk. apply orb_false_iff in Hk as [Ha Hk].
    change (String a k +:+ "=" +:+ v) with (String a (k +:+ "=" +:+ v)).
    cbn [hasByte]. rewrite Ha. apply IH. exact Hk.
Qed.

Lemma ParseStructTag_of_pairs_witness :
  ParseStructTag "namespace=output inline_key=type"
  = inl (list_to_map [("inline_key", "type"); ("namespace", "output")]).
Proof.
  apply (ParseStructTag_of_pairs [("namespace", "output"); ("inline_key", "type")]).
  repeat constructor.
Defined.

End StructTagProperties.

Section StreamProperties.
Import Compress Cos CompressExamples Streams.

Lemma compressBuffer_state (enc : Encoder) (st : encState) (buf : Z) :
  0 <= buf ->
  let '(err, st') := compressBuffer enc st buf in
  closed st' = closed st
  /\ consumed st <= consumed st' <= consumed st + buf
  /\ (err = None -> consumed st' = consumed st + buf).
Proof.
  intros Hbuf. unfold compressBuffer. destruct (ReadFromErr enc (buffers st)); cbn.
  - repeat split; try lia. discriminate.
  - repeat split; lia.
Qed.

Lemma handleEncoderError_is_error (enc : Encoder) (err : error) :
  exists e, Some (handleEncoderError enc err) = Some e.
Proof. eauto. Qed.

Lemma zstdLoop_state (enc : Encoder) (opt : CompressOption) (r : reader) :
  readsFit r ->
  forall (buf : Z) (st : encState),
    0 <= buf ->
    let '(err, st') := zstdLoop enc opt r buf st in
    closed st' = true
    /\ consumed st <= consumed st' <= consumed st + buf + delivered r
    /\ (err = None -> consumed st' = consumed st + buf + delivered r).
Proof.
  assert (HatEOF : forall buf st rest,
    0 <= buf -> 0 <= rest ->
    let '(err, st') :=
      (if 0 <? buf
       then match compressBuffer enc st buf with
            | (Some err, st') => (Some (handleEncoderError enc err), encClose st')
            | (None, st') => (errorNew <$> CloseErr enc, encClose st')
            end
       else (errorNew <$> CloseErr enc, encClose st)) in
    closed st' = true
    /\ consumed st <= consumed st' <= consumed st + buf + rest
    /\ (err = None -> rest = 0 -> consumed st' = consumed st + buf + rest)).
  { intros buf st rest Hbuf Hrest. destruct (0 <? buf) eqn:Hpos.
    - pose proof (compressBuffer_state enc st buf Hbuf) as H.
      destruct (compressBuffer enc st buf) as [[err |] st']; destruct H as (Hc & Hle & Heq);
        cbn [closed consumed encClose].
      + repeat split; try lia. discriminate.
      + specialize (Heq eq_refl). repeat split; lia.
    - apply Z.ltb_ge in Hpos. cbn [closed consumed encClose]. repeat split; lia. }
  induction 1 as [| [n e] r [Hn0 Hn] Hfit IH]; intros buf st Hbuf.
  - cbn [zstdLoop delivered]. specialize (HatEOF buf st 0 Hbuf (Z.le_refl 0)).
    destruct (if 0 <? buf then _ else _) as [err st'].
    destruct HatEOF as (Hc & Hle & Heq).
    split; [exact Hc | split; [lia | intros He; rewrite Heq; auto]].
  - assert (Hdel : 0 <= delivered r).
    { clear -Hfit. induction Hfit as [| [n e] r [Hn0 _] _ IH]; cbn [delivered]; [lia |].
      cbn [fst] in Hn0. destruct e; [lia | destruct (n =? 0); lia | lia]. }
    cbn [fst] in Hn0, Hn.
    assert (Hafter :
      let '(err, st') :=
        (if (0 <? MaxWriterBuffSize opt) && (MaxWriterBuffSize opt <? buf + n)
         then (Some (handleEncoderError enc ErrUnexpectedEOF), encClose st)
         else if maxChunkSize <=? buf + n
              then match compressBuffer enc st (buf + n) with
                   | (Some err, st') => (Some (handleEncoderError enc err), encClose st')
                   | (None, st') => zstdLoop enc opt r 0 st'
                   end
              else zstdLoop enc opt r (buf + n) st) in
      closed st' = true
      /\ consumed st <= consumed st' <= consumed st + buf + (n + delivered r)
      /\ (err = None -> consumed st' = consumed st + buf + (n + delivered r))).
    { destruct ((0 <? MaxWriterBuffSize opt) && (MaxWriterBuffSize opt <? buf + n)).
      - cbn [closed consumed encClose]. repeat split; try lia. discriminate.
      - destruct (maxChunkSize <=? buf + n).
        + pose proof (compressBuffer_state enc st (buf + n) ltac:(lia)) as H.
          destruct (compressBuffer enc st (buf + n)) as [[err |] st1];
            destruct H as (Hc & Hle & Heq).
          * cbn [closed consumed encClose]. repeat split; try lia. discriminate.
          * specialize (Heq eq_refl). specialize (IH 0 st1 (Z.le_refl 0)).
            destruct (zstdLoop enc opt r 0 st1) as [err st'].
            destruct IH as (Hc' & Hle' & Heq').
            split; [exact Hc' | split; [lia | intros He; specialize (Heq' He); lia]].
        + specialize (IH (buf + n) st ltac:(lia)).
          destruct (zstdLoop enc opt r (buf + n) st) as [err st'].
          destruct IH as (Hc' & Hle' & Heq').
          split; [exact Hc' | split; [lia | intros He; specialize (Heq' He); lia]]. }
    cbn [zstdLoop delivered]. destruct e as [| | msg].
    + exact Hafter.
    + destruct (n =? 0) eqn:Hzero; [| exact Hafter].
      specialize (HatEOF buf st 0 Hbuf (Z.le_refl 0)).
      destruct (if 0 <? buf then _ else _) as [err st'].
      destruct HatEOF as (Hc & Hle & Heq).
    split; [exact Hc | split; [lia | intros He; rewrite Heq; auto]].
    + cbn [closed consumed encClose]. repeat split; try lia. discriminate.
Qed.

(** X6. zstdCompress closes the encoder on every path, hands it no more than
    the reader delivered, and when it returns nil it has handed it every
    byte that the reader delivered up to its end. *)
Theorem zstdCompress_hands_over_every_byte (r : reader) (enc : Encoder) (opt : CompressOption) :
  readsFit r ->
  closed (snd (zstdCompress r enc opt)) = true
  /\ 0 <= consumed (snd (zstdCompress r enc opt)) <= delivered r
  /\ (fst (zstdCompress r enc opt) = None ->
      consumed (snd (zstdCompress r enc opt)) = delivered r).
Proof.
  intros Hfit. unfold zstdCompress.
  pose proof (zstdLoop_state enc opt r Hfit 0 encReset (Z.le_refl 0)) as H.
  destruct (zstdLoop enc opt r 0 encReset) as [err st']. cbn [fst snd consumed encReset] in *.
  destruct H as (Hc & Hle & Heq).
  split; [exact Hc | split; [lia | intros He; rewrite Heq; auto]].
Qed.

Lemma zstdCompress_hands_over_every_byte_witness :
  readsFit bigFile
  /\ consumed (snd (zstdCompress bigFile bufferEncoder (NewDefaultCompressOption ZSTD)))
     = delivered bigFile.
Proof.
  assert (Hfit : readsFit bigFile).
  { apply Forall_replicate. cbn. unfold chunkLen. lia. }
  split; [exact Hfit |].
  apply (zstdCompress_hands_over_every_byte bigFile bufferEncoder
           (NewDefaultCompressOption ZSTD) Hfit).
  vm_compute. reflexivity.
Defined.

(** X7. When Execute with zstd compression returns nil, exactly one object
    was put, under the destination key, and it is the compression of every
    byte of the file; nothing was truncated. *)
Theorem Execute_zstd_puts_the_whole_file (os : OS) (enc : Encoder) (h : Handler) (m : Metrics)
    (task : Task) (fd : reader) :
  CompressAlgorithm (UploadRule h) = ZSTD ->
  Open os (FilePath task) = inl fd ->
  readsFit fd ->
  err (fst (Execute os enc h m (CosTask task))) = None ->
  exists key,
    dstPathOf os h task = inl key
    /\ requests (fst (Execute os enc h m (CosTask task))) = [Put key (delivered fd)]
    /\ truncated (fst (Execute os enc h m (CosTask task))) = false.
Proof.
  intros Halg Hopen Hfit. unfold Execute. cbn [fst]. unfold executeBody.
  destruct (Stat os (FilePath task)) as [info | msg]; [| discriminate].
  destruct (IsDir info); [discriminate |].
  destruct (dstPathOf os h task) as [key | e]; [| discriminate].
  rewrite Halg. change (String.eqb ZSTD NONE) with false. cbv iota.
  unfold CompressFile, NewDefaultCompressOption. rewrite Hopen.
  cbn [Compress.CompressAlgorithm]. change (String.eqb ZSTD ZSTD) with true. cbv iota.
  pose proof (zstdLoop_default_not_truncated enc ZSTD fd Hfit 0 encReset
                ltac:(rewrite maxChunkSize_value; lia)) as Hcap.
  pose proof (zstdLoop_state enc (NewDefaultCompressOption ZSTD) fd Hfit 0 encReset
                (Z.le_refl 0)) as Hst.
  unfold zstdCompress, NewDefaultCompressOption in *.
  destruct (zstdLoop enc _ fd 0 encReset) as [cerr st]. cbn [fst] in Hcap.
  destruct Hst as (_ & _ & Heq).
  destruct cerr as [e |].
  - cbn [errorIs] in Hcap. cbn [isError errorIs]. rewrite Hcap. cbn. discriminate.
  - cbn [isError andb errorIs]. destruct (ObjectPut (client h) key); [discriminate |].
    intros _. exists key. cbn [requests truncated]. rewrite (Heq eq_refl).
    cbn [consumed encReset]. repeat split.
Qed.

Lemma Execute_zstd_puts_the_whole_file_witness :
  requests (fst (Execute bigOS bufferEncoder zstdDaily noMetrics bigTask))
  = [Put "20240115/big.log.zst" (delivered bigFile)].
Proof.
  assert (Hfit : readsFit bigFile).
  { apply Forall_replicate. cbn. unfold chunkLen. lia. }
  destruct (Execute_zstd_puts_the_whole_file bigOS bufferEncoder zstdDaily noMetrics
              (mkTask "/var/log/app" "/var/log/app/big.log") bigFile
              eq_refl eq_refl Hfit ltac:(vm_compute; reflexivity)) as (key & Hkey & Hreq & _).
  vm_compute in Hkey. injection Hkey as <-. exact Hreq.
Defined.

(** X8. An algorithm other than none and zstd cannot be used, lz4 included
    although it has a suffix: Execute always returns an error and sends
    nothing to the object store; for a regular file that it can open and
    relate to the root the error is ErrUnsupportAlgorithm, counted under
    the code for a failed compression. *)
Theorem Execute_unsupported_algorithm (os : OS) (enc : Encoder) (h : Handler) (m : Metrics)
    (t : OutputTask) :
  CompressAlgorithm (UploadRule h) <> NONE ->
  CompressAlgorithm (UploadRule h) <> ZSTD ->
  let r := fst (Execute os enc h m t) in
  err r <> None /\ requests r = [] /\ truncated r = false
  /\ forall task info key fd,
       t = CosTask task ->
       Stat os (FilePath task) = inl info -> IsDir info = false ->
       dstPathOf os h task = inl key ->
       Open os (FilePath task) = inl fd ->
       err r = Some ErrUnsupportAlgorithm /\ errCode r = codeCompressFailed.
Proof.
  intros Hnone Hzstd. cbn zeta. unfold Execute. cbn [fst]. unfold executeBody.
  apply String.eqb_neq in Hnone, Hzstd.
  assert (Hsome : forall e : error, Some e <> None) by discriminate.
  destruct t as [task |];
    [| cbn; split; [apply Hsome |]; split; [reflexivity |]; split; [reflexivity |];
       intros; discriminate].
  destruct (Stat os (FilePath task)) as [info | msg] eqn:Hstat;
    [| cbn; split; [apply Hsome |]; split; [reflexivity |]; split; [reflexivity |];
       intros ? ? ? ? [= <-]; congruence].
  destruct (IsDir info) eqn:Hdir.
  { cbn. split; [apply Hsome |]. split; [reflexivity |]. split; [reflexivity |].
    intros ? ? ? ? [= <-]. congruence. }
  destruct (dstPathOf os h task) as [key | e] eqn:Hkey;
    [| cbn; split; [apply Hsome |]; split; [reflexivity |]; split; [reflexivity |];
       intros ? ? ? ? [= <-]; congruence].
  rewrite Hnone. unfold CompressFile, NewDefaultCompressOption.
  cbn [Compress.CompressAlgorithm]. rewrite Hzstd.
  destruct (Open os (FilePath task)) as [fd | msg] eqn:Hopen; cbn.
  - split; [apply Hsome |]. split; [reflexivity |]. split; [reflexivity |]. auto.
  - split; [apply Hsome |]. split; [reflexivity |]. split; [reflexivity |].
    intros ? ? ? ? [= <-]. congruence.
Qed.

Lemma Execute_unsupported_algorithm_witness :
  err (fst (Execute smallOS bufferEncoder lz4Daily noMetrics
              (CosTask (mkTask "/var/log/app" "/var/log/app/a.log"))))
  = Some ErrUnsupportAlgorithm
  /\ GetCompressAlgorithmSuffix LZ4 = ".lz4".
Proof.
  split; [| reflexivity].
  pose proof (Execute_unsupported_algorithm smallOS bufferEncoder lz4Daily noMetrics
                (CosTask (mkTask "/var/log/app" "/var/log/app/a.log"))
                ltac:(discriminate) ltac:(discriminate)) as H.
  cbn zeta in H. destruct H as (_ & _ & _ & H).
  apply (H (mkTask "/var/log/app" "/var/log/app/a.log")
           (mkFileInfo false mtime20240115 1000) "20240115/a.log.lz4" smallFile);
    vm_compute; reflexivity.
Defined.

(** X9. Every call of Execute adds one to the request counter, under the
    label of its error code and no other.  A call that returns nil is counted
    under code 0; the calls counted under code 0 that did not return nil are
    those that failed in filepath.Rel. *)
Theorem Execute_counts_every_request (os : OS) (enc : Encoder) (h : Handler) (m : Metrics)
    (t : OutputTask) :
  let r := fst (Execute os enc h m t) in
  let m' := snd (Execute os enc h m t) in
  counterValue [Name ID; Itoa (errCode r)] (OutputRequestTotal m')
  = S (counterValue [Name ID; Itoa (errCode r)] (OutputRequestTotal m))
  /\ (forall labels, labels <> [Name ID; Itoa (errCode r)] ->
        counterValue labels (OutputRequestTotal m') = counterValue labels (OutputRequestTotal m))
  /\ (err r = None -> errCode r = codeSuccess)
  /\ (errCode r = codeSuccess -> err r <> None ->
      exists task info e,
        t = CosTask task /\ Stat os (FilePath task) = inl info /\ IsDir info = false
        /\ Filepath.Rel (RootPath task) (FilePath task) = inr e /\ err r = Some e).
Proof.
  cbn zeta. unfold Execute. cbn [fst snd OutputRequestTotal].
  split; [apply Inc_counterValue |].
  split.
  { intros labels Hne. unfold counterValue, Inc. rewrite lookup_insert_ne by congruence.
    reflexivity. }
  unfold executeBody.
  destruct t as [task |]; [| cbn; split; discriminate].
  destruct (Stat os (FilePath task)) as [info | msg] eqn:Hstat; [| cbn; split; discriminate].
  destruct (IsDir info) eqn:Hdir; [cbn; split; discriminate |].
  unfold dstPathOf.
  destruct (Filepath.Rel (RootPath task) (FilePath task)) as [rel | e] eqn:Hrel.
  - destruct (String.eqb _ NONE).
    + destruct (ObjectUpload _ _ _); cbn; split; try discriminate; try reflexivity.
      intros _ Hc. congruence.
    + destruct (CompressFile _ _ _ _) as [cerr st].
      destruct (isError cerr && negb (errorIs cerr ErrUnexpectedEOF)) eqn:Hc.
      * cbn. split; [| discriminate]. intros ->. discriminate.
      * destruct (ObjectPut _ _); cbn; split; try discriminate; try reflexivity.
        intros _ Hc'. congruence.
  - cbn. split; [discriminate |]. intros _ _. exists task, info, e. auto.
Qed.

(** X10. Execute contacts the object store at most once.  When it made no
    request it returns an error; when it made one, it returns nil with code 0
    if the request succeeded and the request's error with the code for a
    failed API call if not. *)
Theorem Execute_makes_at_most_one_request (os : OS) (enc : Encoder) (h : Handler) (m : Metrics)
    (t : OutputTask) :
  let r := fst (Execute os enc h m t) in
  match requests r with
  | [] => err r <> None /\ errCode r <> codeCallAPIFailed
  | [req] =>
      (err r = None /\ errCode r = codeSuccess)
      \/ (err r <> None /\ errCode r = codeCallAPIFailed)
  | _ => False
  end.
Proof.
  cbn zeta. unfold Execute. cbn [fst]. unfold executeBody.
  destruct t as [task |]; [| cbn; split; discriminate].
  destruct (Stat os (FilePath task)) as [info | msg]; [| cbn; split; discriminate].
  destruct (IsDir info); [cbn; split; discriminate |].
  destruct (dstPathOf os h task) as [key | e]; [| cbn; split; discriminate].
  destruct (String.eqb _ NONE).
  - destruct (ObjectUpload _ _ _); cbn; [right | left]; split; (discriminate || reflexivity).
  - destruct (CompressFile _ _ _ _) as [cerr st].
    destruct (isError cerr && negb (errorIs cerr ErrUnexpectedEOF)) eqn:Hc.
    + cbn. split; [| discriminate]. intros ->. discriminate.
    + destruct (ObjectPut _ _); cbn; [right | left]; split; (discriminate || reflexivity).
Qed.

End StreamProperties.

Section ShutdownProperties.
Import Logarchive Daemon DaemonExamples Shutdown.

Lemma stopCalls_app (l l' : list call) : stopCalls (l ++ l') = stopCalls l ++ stopCalls l'.
Proof. unfold stopCalls. apply omap_app. Qed.

Lemma stopCalls_stops (names : list string) : stopCalls (CallStop <$> names) = names.
Proof. induction names as [| n names IH]; [reflexivity |]. cbn. f_equal. exact IH. Qed.

Lemma cancels_app (l l' : list call) : cancels (l ++ l') = (cancels l + cancels l')%nat.
Proof. unfold cancels. rewrite List.filter_app, length_app. reflexivity. Qed.

Lemma cancels_stops (names : list string) : cancels (CallStop <$> names) = 0%nat.
Proof. induction names as [| n names IH]; [reflexivity | exact IH]. Qed.

Lemma stopArchives_calls (c c' : Config) (order : list string) (err0 : option error) :
  archives c' = archives c ->
  exists err',
    stopArchives c' order err0 = (Returned err', CallStop <$> loadedOf c order)
    /\ (err' = None <-> err0 = None /\ allStop c order).
Proof.
  intros Hsame. revert err0. induction order as [| name rest IH]; intros err0.
  - exists err0. split; [reflexivity |]. split; [intros ->; split; [reflexivity | constructor] |].
    intros [-> _]. reflexivity.
  - cbn [stopArchives loadedOf List.filter]. rewrite Hsame.
    destruct (archives c !! name) as [ar |] eqn:Har.
    + rewrite bool_decide_eq_true_2 by eauto. rewrite bind_emit.
      destruct (StopErr ar) as [err2 |] eqn:Hstop.
      * destruct (IH (Some (errorNew (fmtV err0 +:+ "; stop archive: " +:+ Error err2))))
          as (err' & -> & Hiff).
        exists err'. split; [reflexivity |]. split.
        -- intros H. apply Hiff in H as [H _]. discriminate.
        -- intros [_ Hall]. apply Forall_cons in Hall as [Hname _].
           specialize (Hname ar Har). congruence.
      * destruct (IH err0) as (err' & -> & Hiff).
        exists err'. split; [reflexivity |]. rewrite Hiff. split.
        -- intros [-> Hall]. split; [reflexivity |]. constructor; [| exact Hall].
           intros ar' Har'. congruence.
        -- intros [-> Hall]. apply Forall_cons in Hall as [_ Hall]. auto.
    + rewrite bool_decide_eq_false_2 by (intros [? ?]; discriminate).
      destruct (IH err0) as (err' & -> & Hiff).
      exists err'. split; [reflexivity |]. rewrite Hiff. split.
      * intros [-> Hall]. split; [reflexivity |]. constructor; [| exact Hall].
        intros ar' Har'. congruence.
      * intros [-> Hall]. apply Forall_cons in Hall as [_ Hall]. auto.
Qed.

Lemma wrappedCancel_calls (ctx : Context) :
  exists calls, wrappedCancel ctx = (Returned tt, CallCancel :: calls)
                /\ stopCalls calls = [] /\ cancels calls = 0%nat.
Proof.
  unfold wrappedCancel.
  generalize (concat (snd <$> map_to_list (moduleInstances ctx))). intros insts.
  assert (H : exists calls,
             fold_right (fun (inst : Module) (k : M ()) =>
                           match CleanerUpper inst with
                           | Some _ => emit (CallCleanup (label inst));; k
                           | None => k
                           end) (ret ()) insts = (Returned tt, calls)
             /\ stopCalls calls = [] /\ cancels calls = 0%nat).
  { induction insts as [| inst insts (calls & IH & Hno & Hc)].
    - exists []. repeat split.
    - cbn [fold_right]. destruct (CleanerUpper inst).
      + rewrite bind_emit, IH. eexists. split; [reflexivity |]. split; assumption.
      + exists calls. repeat split; assumption. }
  destruct H as (calls & H & Hno & Hc).
  rewrite bind_emit, H. exists calls. repeat split; assumption.
Qed.

Lemma shutdown_calls (ctx : Context) (c : Config) (order : list string) :
  cfg ctx = Some c ->
  exists (err : option error) (c' : Config) (pre post : list call),
    shutdown ctx order
    = (Returned (err, mkContext (Some c') (moduleInstances ctx)),
       pre ++ (CallStop <$> loadedOf c order) ++ CallCancel :: post)
    /\ archives c' = archives c
    /\ stopCalls pre = [] /\ cancels pre = 0%nat
    /\ stopCalls post = [] /\ cancels post = 0%nat
    /\ (err = None <-> allStop c order).
Proof.
  intros Hcfg. unfold shutdown. rewrite Hcfg.
  destruct (wrappedCancel_calls ctx) as (post & Hcancel & Hpost & Hnocancel).
  assert (Hrun : forall (c' : Config) (pre : list call),
             archives c' = archives c ->
             exists err,
               (Returned tt, pre) ≫= (fun _ : unit =>
                  stopArchives c' order None ≫= (fun err =>
                    wrappedCancel ctx ;; ret (err, mkContext (Some c') (moduleInstances ctx))))
               = (Returned (err, mkContext (Some c') (moduleInstances ctx)),
                  pre ++ (CallStop <$> loadedOf c order) ++ CallCancel :: post)
               /\ (err = None <-> allStop c order)).
  { intros c' pre Hsame.
    destruct (stopArchives_calls c c' order None Hsame) as (err & Hstop & Hiff).
    exists err. rewrite Hstop, Hcancel. split; [| rewrite Hiff; tauto].
    unfold mbind, M_bind, bind, mret, M_ret, ret. cbn [fst snd]. rewrite app_nil_r. reflexivity. }
  destruct (ConfigMetric c) as [m |] eqn:Hmetric.
  - unfold MetricStop. destruct (metricDone m).
    + destruct (Hrun (mkConfig (ConfigLogging c) (Some m) (ArchivesRaw c) (archives c)) []
                  eq_refl) as (err & Heq & Hiff).
      exists err, (mkConfig (ConfigLogging c) (Some m) (ArchivesRaw c) (archives c)), [], post.
      split; [exact Heq |]. repeat split; try assumption; apply Hiff.
    + destruct (Hrun (mkConfig (ConfigLogging c)
                        (Some (mkMetric (OutPath m) (ScrapInterval m) true))
                        (ArchivesRaw c) (archives c)) [CallMetricStop] eq_refl)
        as (err & Heq & Hiff).
      exists err, (mkConfig (ConfigLogging c)
                     (Some (mkMetric (OutPath m) (ScrapInterval m) true))
                     (ArchivesRaw c) (archives c)), [CallMetricStop], post.
      split; [exact Heq |]. repeat split; try assumption; apply Hiff.
  - destruct (Hrun (mkConfig (ConfigLogging c) None (ArchivesRaw c) (archives c)) [] eq_refl)
      as (err & Heq & Hiff).
    exists err, (mkConfig (ConfigLogging c) None (ArchivesRaw c) (archives c)), [], post.
    split; [exact Heq |]. repeat split; try assumption; apply Hiff.
Qed.

(** X11. Stop on a running daemon.  With a logger it logs, stops the metric
    collector, calls Stop on every loaded archive in the order of the range,
    whatever the earlier ones returned, and then cancels the context; it
    returns nil exactly when every archive stopped without error, and only
    then clears the root context.  Without a log section in the
    configuration it panics before anything is stopped. *)
Theorem Stop_stops_every_archive (order : list string) (w : World) (c : Config) :
  cfg (logarchiveCtx w) = Some c ->
  match ConfigLogging c with
  | Some l0 =>
      logger l0 = true ->
      exists (err : option error) (w' : World) (new : list call),
        Stop order w = (Returned err, w')
        /\ log w' = log w ++ new
        /\ stopCalls new = loadedOf c order
        /\ cancels new = 1%nat
        /\ (err = None <-> allStop c order)
        /\ (err = None -> logarchiveCtx w' = emptyContext)
        /\ (err <> None ->
            exists c', cfg (logarchiveCtx w') = Some c' /\ archives c' = archives c)
  | None => Stop order w = (Panicked nilDeref, w)
  end.
Proof.
  intros Hcfg. destruct w as [ctx lg]. cbn [logarchiveCtx log] in *.
  destruct (ConfigLogging c) as [l0 |] eqn:Hlog.
  - intros Hlogger. unfold Stop, Logger. cbn [logarchiveCtx log].
    rewrite Hcfg, Hlog, Hlogger. unfold logError.
    destruct (shutdown_calls ctx c order Hcfg)
      as (err & c' & pre & post & Hshut & Hsame & Hpre & Hprec & Hpost & Hpostc & Hiff).
    unfold mbind, M_bind, bind, mret, M_ret, ret, emit. cbn [fst snd]. rewrite Hshut.
    cbn [fst snd app].
    assert (Hstops : stopCalls (CallLog "logarchive shutdown"
                                  :: pre ++ (CallStop <$> loadedOf c order) ++ CallCancel :: post)
                     = loadedOf c order).
    { change (stopCalls (CallLog "logarchive shutdown" :: ?l)) with (stopCalls l).
      rewrite !stopCalls_app, stopCalls_stops, Hpre.
      change (stopCalls (CallCancel :: post)) with (stopCalls post).
      rewrite Hpost, app_nil_r. reflexivity. }
    assert (Hcancels : cancels (CallLog "logarchive shutdown"
                                  :: pre ++ (CallStop <$> loadedOf c order) ++ CallCancel :: post)
                       = 1%nat).
    { change (cancels (CallLog "logarchive shutdown" :: ?l)) with (cancels l).
      rewrite !cancels_app, cancels_stops, Hprec.
      change (cancels (CallCancel :: post)) with (S (cancels post)).
      rewrite Hpostc. reflexivity. }
    destruct err as [e |].
    + eexists _, _, _. split; [reflexivity |]. cbn [log logarchiveCtx].
      split; [reflexivity |]. split; [exact Hstops |]. split; [exact Hcancels |].
      split; [exact Hiff |]. split; [discriminate |]. intros _. exists c'. auto.
    + eexists _, _, _. split; [reflexivity |]. cbn [log logarchiveCtx].
      split; [reflexivity |]. split; [exact Hstops |]. split; [exact Hcancels |].
      split; [exact Hiff |]. split; [reflexivity |]. intros H. congruence.
  - unfold Stop, Logger. cbn [logarchiveCtx log]. rewrite Hcfg, Hlog.
    cbn. rewrite app_nil_r. reflexivity.
Qed.

Lemma Stop_stops_every_archive_witness :
  exists (err : option error) (w' : World) (new : list call),
    Stop ["file"] runningWorld = (Returned err, w')
    /\ log w' = log runningWorld ++ new
    /\ stopCalls new = ["file"]
    /\ cancels new = 1%nat.
Proof.
  destruct (Stop_stops_every_archive ["file"] runningWorld
              (mkConfig (Some (mkLogging "info" true)) (Some (mkMetric "/tmp" 60 false)) ∅
                 {[ "file" := mkArchiveImpl None None ]}) eq_refl eq_refl)
    as (err & w' & new & H1 & H2 & H3 & H4 & _).
  exists err, w', new. auto.
Defined.

End ShutdownProperties.

Section StartupProperties.
Import Logarchive Daemon DaemonExamples Shutdown.

Variable modules : gmap string ModuleInfo.
Variable Unmarshal : string -> Module -> option Module + error.

Lemma loadingCall_quiet (l : list call) :
  Forall (fun c => loadingCall c = true) l ->
  startCalls l = [] /\ stopCalls l = [] /\ cancels l = 0%nat.
Proof.
  induction 1 as [| c l Hc _ (IH1 & IH2 & IH3)]; [repeat split |].
  destruct c; try discriminate; repeat split; assumption.
Qed.

Lemma cleanupFailed_calls (val : Module) (err : error) :
  exists err', cleanupFailed val err
               = (Returned err', match CleanerUpper val with
                                 | Some _ => [CallCleanup (label val)]
                                 | None => []
                                 end).
Proof.
  unfold cleanupFailed. destruct (CleanerUpper val) as [[err2 |] |]; eexists; reflexivity.
Qed.

Lemma LoadModuleByID_calls (ctx : Context) (id raw : string) :
  exists r, fst (LoadModuleByID modules Unmarshal ctx id raw) = Returned r
            /\ Forall (fun c => loadingCall c = true)
                 (snd (LoadModuleByID modules Unmarshal ctx id raw)).
Proof.
  unfold LoadModuleByID.
  destruct (modules !! id) as [info |]; [| eexists; split; [reflexivity | constructor]].
  destruct (New info) as [val0 |]; [| eexists; split; [reflexivity | constructor]].
  unfold cleanupFailed.
  destruct (0 <? String.length raw)%nat.
  - destruct (Unmarshal raw val0) as [[val |] | err];
      [| eexists; split; [reflexivity | repeat constructor] ..].
    cbn -[append].
    destruct (Provisioner val) as [[perr |] |], (Validator val) as [[verr |] |],
      (CleanerUpper val) as [[cerr |] |];
      cbn -[append]; (eexists; split; [reflexivity | repeat constructor]).
  - cbn -[append].
    destruct (Provisioner val0) as [[perr |] |], (Validator val0) as [[verr |] |],
      (CleanerUpper val0) as [[cerr |] |];
      cbn -[append]; (eexists; split; [reflexivity | repeat constructor]).
Qed.

Lemma ContextArchive_calls (ctx : Context) (c : Config) (name : string) :
  Forall (fun c => loadingCall c = true) (snd (ContextArchive modules Unmarshal ctx c name))
  /\ match fst (ContextArchive modules Unmarshal ctx c name) with
     | Returned (None, ctx', c') =>
         is_Some (archives c' !! name)
         /\ (forall n, is_Some (archives c !! n) -> is_Some (archives c' !! n))
         /\ (forall n, is_Some (ArchivesRaw c !! n) -> is_Some (ArchivesRaw c' !! n))
         /\ ConfigMetric c' = ConfigMetric c
     | _ => True
     end.
Proof.
  unfold ContextArchive. destruct (archives c !! name) as [ar |] eqn:Har.
  - cbn. split; [constructor |]. rewrite Har. repeat split; eauto.
  - destruct (LoadModuleByID_calls ctx name (default "" (ArchivesRaw c !! name)))
      as (r & Hr & Hcalls).
    destruct (LoadModuleByID modules Unmarshal ctx name _) as [o l]. cbn [fst snd] in *.
    subst o. destruct r as [[mv | er] cx]; unfold mbind, M_bind, bind; cbn [fst snd].
    + destruct (asArchive mv) as [ar |]; cbn [fst snd ret mret M_ret panic];
        rewrite app_nil_r; [| split; [exact Hcalls | exact I]].
      split; [exact Hcalls |]. cbn [archives ArchivesRaw ConfigMetric].
      split; [rewrite lookup_insert_eq; eauto |].
      split; [| split; [| reflexivity]].
      * intros n Hn. destruct (decide (name = n)) as [<- | Hne];
          [rewrite lookup_insert_eq; eauto | rewrite lookup_insert_ne by exact Hne; exact Hn].
      * intros n Hn. destruct (ArchivesRaw c !! name) eqn:Hraw; [| exact Hn].
        destruct (decide (name = n)) as [<- | Hne];
          [rewrite lookup_insert_eq; eauto | rewrite lookup_insert_ne by exact Hne; exact Hn].
    + cbn. rewrite app_nil_r. split; [exact Hcalls | exact I].
Qed.

Lemma loadArchives_calls (order : list string) :
  forall (ctx : Context) (c : Config),
    Forall (fun c => loadingCall c = true) (snd (loadArchives modules Unmarshal ctx c order))
    /\ match fst (loadArchives modules Unmarshal ctx c order) with
       | Returned (None, ctx', c') =>
           (forall n, n ∈ order -> is_Some (ArchivesRaw c !! n) -> is_Some (archives c' !! n))
           /\ (forall n, is_Some (archives c !! n) -> is_Some (archives c' !! n))
           /\ (forall n, is_Some (ArchivesRaw c !! n) -> is_Some (ArchivesRaw c' !! n))
           /\ ConfigMetric c' = ConfigMetric c
       | _ => True
       end.
Proof.
  induction order as [| name rest IH]; intros ctx c.
  - cbn. split; [constructor |]. repeat split; auto. intros n Hn. apply elem_of_nil in Hn as [].
  - cbn [loadArchives]. destruct (ArchivesRaw c !! name) as [raw |] eqn:Hraw.
    + destruct (ContextArchive_calls ctx c name) as (Hcalls1 & Hres1).
      destruct (ContextArchive modules Unmarshal ctx c name) as [o1 l1].
      cbn [fst snd] in *. unfold mbind, M_bind, bind.
      destruct o1 as [[[[e1 |] ctx1] c1] | msg]; cbn [fst snd];
        [cbn; rewrite app_nil_r; split; [exact Hcalls1 | exact I] | |
         split; [exact Hcalls1 | exact I]].
      destruct (IH ctx1 c1) as (Hcalls2 & Hres2).
      split; [apply Forall_app; split; assumption |].
      destruct (fst (loadArchives modules Unmarshal ctx1 c1 rest)) as [[[[e2 |] ctx2] c2] | msg];
        try exact I.
      destruct Hres1 as (Hname & Hkeep1 & Hraw1 & Hm1).
      destruct Hres2 as (Hall & Hkeep2 & Hraw2 & Hm2).
      split; [| split; [| split; [| congruence]]]; [| auto | auto].
      intros n Hn Hrawn. apply elem_of_cons in Hn as [-> | Hn]; [auto | auto].
    + destruct (IH ctx c) as (Hcalls & Hres). split; [exact Hcalls |].
      destruct (fst (loadArchives modules Unmarshal ctx c rest)) as [[[[e2 |] ctx2] c2] | msg];
        try exact I.
      destruct Hres as (Hall & Hkeep & Hraw' & Hm).
      split; [| auto]. intros n Hn Hrawn. apply elem_of_cons in Hn as [-> | Hn]; [| auto].
      rewrite Hraw in Hrawn. destruct Hrawn; discriminate.
Qed.

Lemma startCalls_app (l l' : list call) : startCalls (l ++ l') = startCalls l ++ startCalls l'.
Proof. unfold startCalls. apply omap_app. Qed.

Lemma startCalls_starts (names : list string) : startCalls (CallStart <$> names) = names.
Proof. induction names as [| n names IH]; [reflexivity |]. cbn. f_equal. exact IH. Qed.

Lemma startArchives_calls (c : Config) (order : list string) :
  forall started : list string,
    Forall (fun name => is_Some (archives c !! name)) started ->
    exists (r : option error) (l : list call),
      startArchives c order started = (Returned r, l)
      /\ cancels l = 0%nat
      /\ (r = None -> l = CallStart <$> loadedOf c order /\ allStartOk c order).
Proof.
  induction order as [| name rest IH]; intros started Hstarted.
  - exists None, []. repeat split. constructor.
  - cbn [startArchives loadedOf List.filter].
    destruct (archives c !! name) as [ar |] eqn:Har.
    + rewrite bool_decide_eq_true_2 by eauto. rewrite bind_emit.
      destruct (StartErr ar) as [err |] eqn:Hstart.
      * rewrite (stopStarted_calls c started err Hstarted), bind_returned.
        cbn [fst snd ret mret M_ret]. eexists _, _. split; [reflexivity |].
        split; [| discriminate].
        change (cancels (CallStart name :: ?l)) with (cancels l).
        rewrite app_nil_r. apply cancels_stops.
      * destruct (IH (started ++ [name])) as (r & l & -> & Hc & Hnone).
        { apply Forall_app. split; [exact Hstarted |]. constructor; [eauto | constructor]. }
        exists r, (CallStart name :: l). split; [reflexivity |]. split; [exact Hc |].
        intros Hr. destruct (Hnone Hr) as (-> & Hall). split; [reflexivity |].
        constructor; [| exact Hall]. intros ar' Har'. congruence.
    + rewrite bool_decide_eq_false_2 by (intros [? ?]; discriminate).
      destruct (IH started Hstarted) as (r & l & -> & Hc & Hnone).
      exists r, l. split; [reflexivity |]. split; [exact Hc |].
      intros Hr. destruct (Hnone Hr) as (-> & Hall). split; [reflexivity |].
      constructor; [| exact Hall]. intros ar' Har'. congruence.
Qed.

Lemma run_outcomes (ParseAtomicLevel : string -> option error) (newCfg : Config)
    (rawOrder startOrder : list string) :
  ConfigMetric newCfg = None ->
  (forall l, ConfigLogging newCfg = Some l -> ParseAtomicLevel (Level l) = None) ->
  let m := run modules Unmarshal ParseAtomicLevel newCfg rawOrder startOrder in
  match fst m with
  | Returned (ctx, None) =>
      exists c', cfg ctx = Some c'
                 /\ startCalls (snd m) = loadedOf c' startOrder
                 /\ allStartOk c' startOrder
                 /\ stopCalls (snd m) = [] /\ cancels (snd m) = 0%nat
                 /\ (forall n, n ∈ rawOrder -> is_Some (ArchivesRaw newCfg !! n) ->
                               is_Some (archives c' !! n))
  | Returned (ctx, Some _) => cancels (snd m) = 1%nat
  | Panicked _ => True
  end.
Proof.
  intros Hmetric Hlevel m. subst m.
  assert (Hgen : forall (lg : option Logging) (pre : list call),
            startCalls pre = [] -> stopCalls pre = [] -> cancels pre = 0%nat ->
            let cfg1 := mkConfig lg None (ArchivesRaw newCfg) ∅ in
            let m : M (Context * option error) :=
              (Returned tt, pre) ≫= (fun _ : unit =>
              r ← loadArchives modules Unmarshal (mkContext (Some cfg1) ∅) cfg1 rawOrder;
              let '(err, ctx, newCfg) := r in
              let ctx := mkContext (Some newCfg) (moduleInstances ctx) in
              match err with
              | Some err => wrappedCancel ctx ;; ret (ctx, Some err)
              | None =>
                  err ← startArchives newCfg startOrder [];
                  err ← match ConfigMetric newCfg with
                         | Some m => MetricStart m
                         | None => ret err
                         end;
                  match err with
                  | Some _ => wrappedCancel ctx ;; ret (ctx, err)
                  | None => ret (ctx, err)
                  end
              end) in
            match fst m with
            | Returned (ctx, None) =>
                exists c', cfg ctx = Some c'
                           /\ startCalls (snd m) = loadedOf c' startOrder
                           /\ allStartOk c' startOrder
                           /\ stopCalls (snd m) = [] /\ cancels (snd m) = 0%nat
                           /\ (forall n, n ∈ rawOrder -> is_Some (ArchivesRaw newCfg !! n) ->
                                         is_Some (archives c' !! n))
            | Returned (ctx, Some _) => cancels (snd m) = 1%nat
            | Panicked _ => True
            end).
  { intros lg pre Hpre1 Hpre2 Hpre3 cfg1 m. subst m.
    destruct (loadArchives_calls rawOrder (mkContext (Some cfg1) ∅) cfg1) as (Hcalls & Hres).
    destruct (loadArchives modules Unmarshal (mkContext (Some cfg1) ∅) cfg1 rawOrder)
      as [o l]. cbn [fst snd] in *.
    destruct (loadingCall_quiet l Hcalls) as (Hstart0 & Hstop0 & Hcancel0).
    destruct o as [[[[e |] ctx2] c2] | msg]; [| | exact I].
    - destruct (wrappedCancel_calls (mkContext (Some c2) (moduleInstances ctx2)))
        as (post & Hcancel & _ & Hpostc).
      unfold mbind, M_bind, bind. cbn -[wrappedCancel cancels stopCalls startCalls].
      rewrite Hcancel.
      cbn [fst snd ret]. rewrite app_nil_r, !cancels_app, Hcancel0, Hpre3.
      change (cancels (CallCancel :: post)) with (S (cancels post)). rewrite Hpostc. reflexivity.
    - destruct Hres as (Hall & _ & _ & Hm2). cbn [ConfigMetric cfg1] in Hm2.
      destruct (startArchives_calls c2 startOrder [] ltac:(constructor))
        as (r & ls & Hsa & Hc & Hnone).
      unfold mbind, M_bind, bind. cbn -[startArchives wrappedCancel cancels stopCalls startCalls].
      rewrite Hsa, Hm2.
      cbn -[startArchives wrappedCancel cancels stopCalls startCalls].
      destruct r as [err |].
      + destruct (wrappedCancel_calls (mkContext (Some c2) (moduleInstances ctx2)))
          as (post & Hcancel & _ & Hpostc).
        rewrite Hcancel. cbn [fst snd ret].
        rewrite !app_nil_r, !cancels_app, Hcancel0, Hc, Hpre3.
        change (cancels (CallCancel :: post)) with (S (cancels post)). rewrite Hpostc.
        reflexivity.
      + destruct (Hnone eq_refl) as (-> & Hok). cbn [fst snd ret]. rewrite !app_nil_r.
        exists c2. split; [reflexivity |].
        rewrite !startCalls_app, !stopCalls_app, !cancels_app, Hstart0, Hstop0, Hcancel0,
          Hpre1, Hpre2, Hpre3, startCalls_starts.
        assert (Hquiet : stopCalls (CallStart <$> loadedOf c2 startOrder) = []
                         /\ cancels (CallStart <$> loadedOf c2 startOrder) = 0%nat).
        { clear. induction (loadedOf c2 startOrder) as [| n l IH];
            [split; reflexivity | exact IH]. }
        destruct Hquiet as (-> & ->).
        split; [reflexivity |]. split; [exact Hok |]. split; [reflexivity |].
        split; [reflexivity |]. intros n Hn Hraw. apply Hall; assumption. }
  unfold run. destruct (ConfigLogging newCfg) as [l0 |] eqn:Hlog.
  - unfold LoggingProvision. rewrite (Hlevel l0 eq_refl), Hmetric.
    exact (Hgen (Some (mkLogging (Level l0) true)) [CallLoggingProvision]
             eq_refl eq_refl eq_refl).
  - rewrite Hmetric. exact (Hgen None [] eq_refl eq_refl eq_refl).
Qed.

Lemma LoadModuleByID_recorded (ctx ctx' : Context) (id raw : string) (val : Module) :
  fst (LoadModuleByID modules Unmarshal ctx id raw) = Returned (inl val, ctx') ->
  ctx' = Loading.recorded ctx id val.
Proof.
  unfold LoadModuleByID, Loading.recorded.
  destruct (modules !! id) as [info |]; [| discriminate].
  destruct (New info) as [val0 |]; [| discriminate].
  unfold cleanupFailed.
  destruct (0 <? String.length raw)%nat.
  - destruct (Unmarshal raw val0) as [[val1 |] | err]; [| discriminate ..].
    cbn -[append].
    destruct (Provisioner val1) as [[perr |] |], (Validator val1) as [[verr |] |],
      (CleanerUpper val1) as [[cerr |] |];
      cbn -[append]; intros [= <- <-]; reflexivity.
  - cbn -[append].
    destruct (Provisioner val0) as [[perr |] |], (Validator val0) as [[verr |] |],
      (CleanerUpper val0) as [[cerr |] |];
      cbn -[append]; intros [= <- <-]; reflexivity.
Qed.

(** X12. Context.Archive loads an archive once.  After a call that returned
    nil the archive is in the table of archives, and asking for it again
    returns it without a call to the module and without a change; when the
    call did load it, the archive in the table is the instance that was
    recorded last under that name in the context. *)
Theorem ContextArchive_loads_once (ctx ctx' : Context) (c c' : Config) (name : string)
    (l : list call) :
  ContextArchive modules Unmarshal ctx c name = (Returned (None, ctx', c'), l) ->
  exists ar,
    archives c' !! name = Some ar
    /\ (forall ctx'', ContextArchive modules Unmarshal ctx'' c' name
                      = (Returned (None, ctx'', c'), []))
    /\ (archives c !! name = None ->
        exists val, ctx' = Loading.recorded ctx name val /\ asArchive val = Some ar).
Proof.
  unfold ContextArchive at 1. destruct (archives c !! name) as [ar |] eqn:Har.
  - intros [= <- <- <-]. exists ar. split; [exact Har |]. split; [| discriminate].
    intros ctx''. unfold ContextArchive. rewrite Har. reflexivity.
  - destruct (LoadModuleByID modules Unmarshal ctx name _) as [[[[mv | er] cx] | msg] lc]
      eqn:Hload;
      unfold mbind, M_bind, bind; cbn [fst snd] in *; [| discriminate ..].
    destruct (asArchive mv) as [ar |] eqn:Has; [| discriminate].
    cbn [fst snd ret mret M_ret]. intros [= <- <- <-]. exists ar.
    cbn [archives]. split; [apply lookup_insert_eq |]. split.
    + intros ctx''. unfold ContextArchive. cbn [archives]. rewrite lookup_insert_eq. reflexivity.
    + intros _. exists mv. split; [| exact Has].
      eapply LoadModuleByID_recorded. rewrite Hload. reflexivity.
Qed.

(** X13. Start, for a configuration that decodes, has no metric collector
    and whose log level parses.  When it returns nil, the root context is the
    new one, every archive of the configuration is loaded, Start was called
    once on each loaded archive, in the order of the range, each returned
    nil, and nothing was stopped or cancelled.  When it returns an error,
    the root context is the one from before and the context made for this
    start was cancelled, once. *)
Theorem Start_installs_or_cancels (ParseAtomicLevel : string -> option error)
    (decodeConfig : string -> Config + error) (cfgBytes : string) (newCfg : Config)
    (rawOrder startOrder : list string) (w : World) :
  decodeConfig cfgBytes = inl newCfg ->
  ConfigMetric newCfg = None ->
  (forall l, ConfigLogging newCfg = Some l -> ParseAtomicLevel (Level l) = None) ->
  let r := Start modules Unmarshal ParseAtomicLevel decodeConfig cfgBytes rawOrder startOrder w in
  exists new,
    log (snd r) = log w ++ new
    /\ match fst r with
       | Returned None =>
           exists c', cfg (logarchiveCtx (snd r)) = Some c'
                      /\ startCalls new = loadedOf c' startOrder
                      /\ allStartOk c' startOrder
                      /\ stopCalls new = [] /\ cancels new = 0%nat
                      /\ (forall n, n ∈ rawOrder -> is_Some (ArchivesRaw newCfg !! n) ->
                                    is_Some (archives c' !! n))
       | Returned (Some _) => logarchiveCtx (snd r) = logarchiveCtx w /\ cancels new = 1%nat
       | Panicked _ => logarchiveCtx (snd r) = logarchiveCtx w
       end.
Proof.
  intros Hdec Hmetric Hlevel r. subst r. unfold Start. rewrite Hdec.
  pose proof (run_outcomes ParseAtomicLevel newCfg rawOrder startOrder Hmetric Hlevel) as Hrun.
  cbv zeta in Hrun.
  destruct (run modules Unmarshal ParseAtomicLevel newCfg rawOrder startOrder) as [o l].
  cbn [fst snd] in Hrun. exists l.
  destruct o as [[ctx [e |]] | msg]; cbn [fst snd log logarchiveCtx]; auto.
Qed.

Lemma wrappedCancel_quiet (ctx : Context) :
  exists calls, wrappedCancel ctx = (Returned tt, CallCancel :: calls)
                /\ startCalls calls = [] /\ cancels calls = 0%nat.
Proof.
  unfold wrappedCancel.
  generalize (concat (snd <$> map_to_list (moduleInstances ctx))). intros insts.
  assert (H : exists calls,
             fold_right (fun (inst : Module) (k : M ()) =>
                           match CleanerUpper inst with
                           | Some _ => emit (CallCleanup (label inst));; k
                           | None => k
                           end) (ret ()) insts = (Returned tt, calls)
             /\ startCalls calls = [] /\ cancels calls = 0%nat).
  { induction insts as [| inst insts (calls & IH & Hno & Hc)].
    - exists []. repeat split.
    - cbn [fold_right]. destruct (CleanerUpper inst).
      + rewrite bind_emit, IH. eexists. split; [reflexivity |]. split; assumption.
      + exists calls. repeat split; assumption. }
  destruct H as (calls & H & Hno & Hc).
  rewrite bind_emit, H. exists calls. repeat split; assumption.
Qed.

Lemma run_with_metric (ParseAtomicLevel : string -> option error) (newCfg : Config)
    (rawOrder startOrder : list string) (m0 : Metric) :
  ConfigMetric newCfg = Some m0 ->
  (forall l, ConfigLogging newCfg = Some l -> ParseAtomicLevel (Level l) = None) ->
  let m := run modules Unmarshal ParseAtomicLevel newCfg rawOrder startOrder in
  match fst m with
  | Returned (ctx, None) =>
      cancels (snd m) = 0%nat
      /\ last (snd m) = Some CallMetricStart
      /\ exists c', cfg ctx = Some c'
                    /\ (forall n, n ∈ rawOrder -> is_Some (ArchivesRaw newCfg !! n) ->
                                  is_Some (archives c' !! n))
  | Returned (ctx, Some _) => startCalls (snd m) = [] /\ cancels (snd m) = 1%nat
  | Panicked _ => True
  end.
Proof.
  intros Hmetric Hlevel m. subst m. unfold run.
  destruct (ConfigLogging newCfg) as [l0 |] eqn:Hlog.
  - unfold LoggingProvision. rewrite (Hlevel l0 eq_refl), Hmetric.
    unfold mbind, M_bind, bind.
    cbn -[loadArchives startArchives wrappedCancel cancels stopCalls startCalls last].
    set (cfg1 := mkConfig _ _ (ArchivesRaw newCfg) ∅).
    destruct (loadArchives_calls rawOrder (mkContext (Some cfg1) ∅) cfg1) as (Hcalls & Hres).
    destruct (loadArchives modules Unmarshal (mkContext (Some cfg1) ∅) cfg1 rawOrder)
      as [o l]. cbn [fst snd] in *.
    destruct (loadingCall_quiet l Hcalls) as (Hstart0 & Hstop0 & Hcancel0).
    destruct o as [[[[e |] ctx2] c2] | msg]; [| | exact I].
    + destruct (wrappedCancel_quiet (mkContext (Some c2) (moduleInstances ctx2)))
        as (post & Hcancel & Hposts & Hpostc).
      rewrite Hcancel. cbn [fst snd].
      rewrite !app_nil_r.
      change (CallLoggingProvision :: CallMetricProvision :: ?x)
        with ([CallLoggingProvision; CallMetricProvision] ++ x).
      rewrite !startCalls_app, !cancels_app, Hstart0, Hcancel0.
      change (startCalls (CallCancel :: post)) with (startCalls post).
      change (cancels (CallCancel :: post)) with (S (cancels post)).
      rewrite Hposts, Hpostc. split; reflexivity.
    + destruct Hres as (Hall & _ & _ & Hm2). cbn [ConfigMetric cfg1] in Hm2.
      destruct (startArchives_calls c2 startOrder [] ltac:(constructor))
        as (r & ls & Hsa & Hc & _).
      rewrite Hsa, Hm2. cbn [fst snd].
      rewrite !app_nil_r.
      change (CallLoggingProvision :: CallMetricProvision :: ?x)
        with ([CallLoggingProvision; CallMetricProvision] ++ x).
      rewrite !cancels_app, Hcancel0, Hc.
      split; [reflexivity |]. split.
      * rewrite !app_assoc. apply last_snoc.
      * exists c2. split; [reflexivity |]. intros n Hn Hraw. apply Hall; assumption.
  - rewrite Hmetric. exact I.
Qed.

(** X14. Start with a metric collector configured never returns the error
    of an archive that failed to start: the result of Metric.Start replaces
    it.  When Start returns an error, no archive had been started (the error
    is one of loading) and the new context was cancelled once; when it
    returns nil, the new context is installed and was not cancelled, every
    archive of the configuration is loaded and the last call is Metric.Start,
    whether or not every archive started. *)
Theorem Start_with_metric_hides_start_errors (ParseAtomicLevel : string -> option error)
    (decodeConfig : string -> Config + error) (cfgBytes : string) (newCfg : Config)
    (rawOrder startOrder : list string) (w : World) (m0 : Metric) :
  decodeConfig cfgBytes = inl newCfg ->
  ConfigMetric newCfg = Some m0 ->
  (forall l, ConfigLogging newCfg = Some l -> ParseAtomicLevel (Level l) = None) ->
  let r := Start modules Unmarshal ParseAtomicLevel decodeConfig cfgBytes rawOrder startOrder w in
  exists new,
    log (snd r) = log w ++ new
    /\ match fst r with
       | Returned None =>
           cancels new = 0%nat
           /\ last new = Some CallMetricStart
           /\ exists c', cfg (logarchiveCtx (snd r)) = Some c'
                         /\ (forall n, n ∈ rawOrder -> is_Some (ArchivesRaw newCfg !! n) ->
                                       is_Some (archives c' !! n))
       | Returned (Some _) =>
           logarchiveCtx (snd r) = logarchiveCtx w
           /\ startCalls new = [] /\ cancels new = 1%nat
       | Panicked _ => logarchiveCtx (snd r) = logarchiveCtx w
       end.
Proof.
  intros Hdec Hmetric Hlevel r. subst r. unfold Start. rewrite Hdec.
  pose proof (run_with_metric ParseAtomicLevel newCfg rawOrder startOrder m0 Hmetric Hlevel)
    as Hrun.
  cbv zeta in Hrun.
  destruct (run modules Unmarshal ParseAtomicLevel newCfg rawOrder startOrder) as [o l].
  cbn [fst snd] in Hrun. exists l.
  destruct o as [[ctx [e |]] | msg]; cbn [fst snd log logarchiveCtx]; auto.
Qed.

(** X15. A log level that does not parse.  Start returns the error of
    Logging.Provision and keeps the root context; the only call it made is
    that Provision: no module was made, and the context made for this start
    is not cancelled, because the error is returned from an inner scope and
    the deferred function looks at the outer variable. *)
Theorem Start_bad_log_level_is_not_cancelled (ParseAtomicLevel : string -> option error)
    (decodeConfig : string -> Config + error) (cfgBytes : string) (newCfg : Config)
    (rawOrder startOrder : list string) (w : World) (l : Logging) (err : error) :
  decodeConfig cfgBytes = inl newCfg ->
  ConfigLogging newCfg = Some l ->
  ParseAtomicLevel (Level l) = Some err ->
  let r := Start modules Unmarshal ParseAtomicLevel decodeConfig cfgBytes rawOrder startOrder w in
  fst r = Returned (Some err)
  /\ logarchiveCtx (snd r) = logarchiveCtx w
  /\ log (snd r) = log w ++ [CallLoggingProvision]
  /\ cancels (log (snd r)) = cancels (log w).
Proof.
  intros Hdec Hlog Hlevel r. subst r. unfold Start, run. rewrite Hdec, Hlog.
  unfold LoggingProvision. rewrite Hlevel. cbn [fst snd log logarchiveCtx].
  split; [reflexivity |]. split; [reflexivity |]. split; [reflexivity |].
  transitivity (cancels (log w ++ [CallLoggingProvision])); [reflexivity |].
  rewrite cancels_app. apply Nat.add_0_r.
Qed.

End StartupProperties.

Section StartupExamples.
Import Logarchive Daemon DaemonExamples Shutdown.

Lemma Start_installs_or_cancels_witness :
  exists new,
    log (snd startThree) = log noWorld ++ new
    /\ logarchiveCtx (snd startThree) = logarchiveCtx noWorld
    /\ cancels new = 1%nat.
Proof.
  destruct (Start_installs_or_cancels threeModules decodeOnto anyLevel decodeThree ""
              threeConfig ["a"; "b"; "c"] ["a"; "b"; "c"] noWorld
              eq_refl eq_refl (fun _ _ => eq_refl)) as (new & Hlog & Hres).
  exists new. split; [exact Hlog |]. exact Hres.
Defined.

Lemma ContextArchive_loads_once_witness :
  exists (ctx' : Context) (c' : Config) (l : list call),
    ContextArchive threeModules decodeOnto (mkContext (Some threeProvisioned) ∅)
      threeProvisioned "a" = (Returned (None, ctx', c'), l)
    /\ ContextArchive threeModules decodeOnto ctx' c' "a" = (Returned (None, ctx', c'), []).
Proof.
  destruct (ContextArchive threeModules decodeOnto (mkContext (Some threeProvisioned) ∅)
              threeProvisioned "a") as [[[[[e |] ctx'] c'] | msg] l] eqn:H;
    [vm_compute in H; discriminate | | vm_compute in H; discriminate].
  destruct (ContextArchive_loads_once threeModules decodeOnto _ _ _ _ _ _ H)
    as (ar & _ & Hagain & _).
  exists ctx', c', l. split; [reflexivity | apply Hagain].
Defined.

Lemma Start_with_metric_hides_start_errors_witness :
  exists new,
    log (snd startThreeMetric) = log noWorld ++ new
    /\ cancels new = 0%nat
    /\ last new = Some CallMetricStart
    /\ stopCalls new = ["a"; "b"].
Proof.
  destruct (Start_with_metric_hides_start_errors threeModules decodeOnto anyLevel
              (fun _ => inl threeConfigMetric) "" threeConfigMetric ["a"; "b"; "c"]
              ["a"; "b"; "c"] noWorld (mkMetric "/tmp" 0 false)
              eq_refl eq_refl (fun _ _ => eq_refl)) as (new & Hlog & Hres).
  assert (H : cancels new = 0%nat /\ last new = Some CallMetricStart) by (split; apply Hres).
  exists new. split; [exact Hlog |]. split; [apply H |]. split; [apply H |].
  assert (Hnew : new = log (snd startThreeMetric)) by (symmetry; exact Hlog).
  rewrite Hnew. vm_compute. reflexivity.
Defined.

Lemma Start_bad_log_level_is_not_cancelled_witness :
  fst (Start threeModules decodeOnto (fun _ => Some (errorNew "unrecognized level"))
         decodeThree "" ["a"; "b"; "c"] ["a"; "b"; "c"] noWorld)
  = Returned (Some (errorNew "unrecognized level")).
Proof.
  apply (Start_bad_log_level_is_not_cancelled threeModules decodeOnto
           (fun _ => Some (errorNew "unrecognized level")) decodeThree "" threeConfig
           ["a"; "b"; "c"] ["a"; "b"; "c"] noWorld (mkLogging "info" false)
           (errorNew "unrecognized level") eq_refl eq_refl eq_refl).
Defined.

End StartupExamples.

Section TrackingProperties.
Import FileArchive Tracking.

Lemma getFile_storeFile_is_Some (m : gmap string element) (w k w' k' : string) (v : fileInfo) :
  is_Some (getFile (storeFile m w k v) w' k') ->
  (w' = w /\ k' = k) \/ is_Some (getFile m w' k').
Proof.
  destruct (decide (w = w' /\ k = k')) as [[-> ->] | Hne]; [auto |].
  rewrite (getFile_storeFile_ne w' k' m w k v Hne). auto.
Qed.

Lemma getFile_removeFile_is_Some (m : gmap string element) (w k w' k' : string) :
  is_Some (getFile (removeFile m w k) w' k') -> is_Some (getFile m w' k').
Proof.
  destruct (decide (w = w' /\ k = k')) as [[-> ->] | Hne].
  - rewrite getFile_removeFile_eq. intros [? ?]. discriminate.
  - rewrite (getFile_removeFile_ne w' k' m w k Hne). auto.
Qed.

Lemma getFile_delete_is_Some (m : gmap string element) (name w' k' : string) :
  is_Some (getFile (delete name m) w' k') -> is_Some (getFile m w' k').
Proof.
  destruct (decide (name = w')) as [-> | Hne].
  - unfold getFile. rewrite lookup_delete_eq. intros [? ?]. discriminate.
  - rewrite (getFile_delete_ne w' k' m name Hne). auto.
Qed.

Lemma getFile_insert_is_Some (m : gmap string element) (name w' k' : string) (el : element) :
  is_Some (getFile (<[name := el]> m) w' k') ->
  (w' = name /\ is_Some (files el !! k')) \/ is_Some (getFile m w' k').
Proof.
  destruct (decide (name = w')) as [-> | Hne].
  - unfold getFile. rewrite lookup_insert_eq. auto.
  - rewrite (getFile_insert_ne w' k' m name el Hne). auto.
Qed.

Lemma walkHistorical_excluded (cfg : Config) (name : string) (entries : list walkEntry) :
  forall files files' : gmap string fileInfo,
    walkHistorical cfg name entries files = inl files' ->
    forall k, is_Some (files' !! k) -> is_Some (files !! k) \/ excluded cfg k = false.
Proof.
  induction entries as [| d rest IH]; intros files files'; cbn [walkHistorical].
  - intros [= <-]. auto.
  - destruct (walkErr d); [discriminate |].
    destruct (walkIsDir d); [apply IH |].
    destruct (excluded cfg (walkPath d)) eqn:Hex; [apply IH |].
    destruct (files !! walkPath d); [apply IH |].
    destruct (walkInfo d) as [info | msg]; [| discriminate].
    intros Hwalk k Hk. destruct (IH _ _ Hwalk k Hk) as [Hin | Hnot]; [| auto].
    destruct (decide (walkPath d = k)) as [<- | Hne]; [auto |].
    rewrite lookup_insert_ne in Hin by exact Hne. auto.
Qed.

Lemma noExcluded_cache (cfg : Config) (s s' : State) :
  tasks s' = tasks s -> deleteChan s' = deleteChan s -> calls s' = calls s ->
  (forall w k, is_Some (getFile (fileCache s') w k) ->
               is_Some (getFile (fileCache s) w k) \/ excluded cfg k = false) ->
  noExcluded cfg s -> noExcluded cfg s'.
Proof.
  intros Ht Hd Hc Hcache (Hfiles & Htasks & Hkeys & Hcalls).
  unfold noExcluded. rewrite Ht, Hd, Hc.
  split; [| split; [exact Htasks | split; [exact Hkeys | exact Hcalls]]].
  intros w k Hk. destruct (Hcache w k Hk); eauto.
Qed.

Lemma noExcluded_handleTaskNotify (cfg : Config) (now : Z) (e : notifyInfo) (s : State) :
  noExcluded cfg s -> noExcluded cfg (handleTaskNotify cfg now e s).
Proof.
  intros H. pose proof H as (Hfiles & Htasks & Hkeys & Hcalls). unfold handleTaskNotify.
  destruct (typ e); [exact H | |];
    (destruct (getFile (fileCache s) (watchPath e) (filePath e)) as [v |] eqn:Hv; [| exact H]);
    assert (Hex : excluded cfg (filePath e) = false) by (apply (Hfiles (watchPath e)); eauto).
  - destruct (negb (result e) && _).
    + apply (noExcluded_cache cfg s); try reflexivity; [| exact H].
      cbn [fileCache setFileCache]. intros w k Hk.
      apply getFile_storeFile_is_Some in Hk as [[_ ->] |]; eauto.
    + destruct (result e), (negb (KeepSourceFile (CollectRule cfg)));
        cbn [setFileCache setInputDiscardTotal setDeleteChan fileCache tasks deleteChan calls
               InputDiscardTotal];
        unfold noExcluded;
        cbn [setFileCache setInputDiscardTotal setDeleteChan fileCache tasks deleteChan calls
               InputDiscardTotal];
        (split; [| split; [exact Htasks | split; [| exact Hcalls]]]);
        try (apply Forall_app; split; [exact Hkeys | constructor; [exact Hex | constructor]]);
        try exact Hkeys;
        intros w k Hk;
        try apply getFile_removeFile_is_Some in Hk;
        apply getFile_storeFile_is_Some in Hk as [[_ ->] |]; eauto.
  - destruct (negb (result e) && _);
      cbn [setFileCache setDeleteChan fileCache tasks deleteChan calls];
      unfold noExcluded;
      cbn [setFileCache setDeleteChan fileCache tasks deleteChan calls];
      (split; [| split; [exact Htasks | split; [| exact Hcalls]]]);
      try (apply Forall_app; split; [exact Hkeys | constructor; [exact Hex | constructor]]);
      try exact Hkeys;
      intros w k Hk;
      try apply getFile_removeFile_is_Some in Hk;
      apply getFile_storeFile_is_Some in Hk as [[_ ->] |]; eauto.
Qed.

Lemma noExcluded_tickFile (cfg : Config) (t : Z) (stat : string -> FileInfo + string)
    (w k : string) (s : State) :
  noExcluded cfg s -> noExcluded cfg (tickFile cfg t stat w k s).
Proof.
  intros H. pose proof H as (Hfiles & Htasks & Hkeys & Hcalls). unfold tickFile.
  destruct (fileCache s !! w) as [cache |] eqn:Hw; [| exact H].
  destruct (files cache !! k) as [v |] eqn:Hk; [| exact H].
  assert (Hex : excluded cfg k = false).
  { apply (Hfiles w). unfold getFile. rewrite Hw, Hk. eauto. }
  destruct (negb _ || _); [exact H |].
  destruct (stat k) as [info | msg].
  - destruct (t <? add64 _ _).
    + apply (noExcluded_cache cfg s); try reflexivity; [| exact H].
      cbn [fileCache setFileCache]. intros w' k' Hk'.
      apply getFile_storeFile_is_Some in Hk' as [[_ ->] |]; eauto.
    + unfold trySubmitTask.
      destruct (uploadFailedCount v =? 0);
        cbn [tasks observeInputRequestSize];
        destruct (_ <? tasksCap)%nat;
        unfold noExcluded;
        cbn [setFileCache setTasks observeInputRequestSize fileCache tasks deleteChan calls];
        (split; [| split; [| split; [exact Hkeys | exact Hcalls]]]);
        try (apply Forall_app; split; [exact Htasks | constructor; [exact Hex | constructor]]);
        try exact Htasks; try exact Hfiles;
        intros w' k' Hk';
        apply getFile_storeFile_is_Some in Hk' as [[_ ->] |]; eauto.
  - apply (noExcluded_cache cfg s); try reflexivity; [| exact H].
    cbn [fileCache setFileCache]. intros w' k' Hk'.
    apply getFile_removeFile_is_Some in Hk'. eauto.
Qed.

Lemma noExcluded_tick (cfg : Config) (t : Z) (stat : string -> FileInfo + string)
    (order : list (string * string)) (s : State) :
  noExcluded cfg s -> noExcluded cfg (tick cfg t stat order s).
Proof.
  intros H. unfold tick.
  apply (noExcluded_cache cfg (fold_left (fun s wk => tickFile cfg t stat wk.1 wk.2 s) order s));
    try reflexivity; [auto |].
  revert s H. induction order as [| [w k] order IH]; intros s H; [exact H |].
  cbn [fold_left fst snd]. apply IH. apply noExcluded_tickFile. exact H.
Qed.

Lemma noExcluded_addWatchPath (cfg : Config) (os : OS) (root name : string) (s : State) :
  noExcluded cfg s -> noExcluded cfg (fst (addWatchPath cfg os root name s)).
Proof.
  intros H. unfold addWatchPath.
  destruct (fileCache s !! name); [exact H |].
  destruct (WatcherAdd os name); [exact H |].
  destruct (negb _).
  - destruct (walkHistorical cfg name (Walk os name) ∅) as [found | e] eqn:Hwalk; [| exact H].
    cbn [fst]. apply (noExcluded_cache cfg s); try reflexivity; [| exact H].
    cbn [fileCache setFileCache]. intros w k Hk.
    apply getFile_insert_is_Some in Hk as [[_ Hk] |]; [| eauto]. cbn [files] in Hk.
    destruct (walkHistorical_excluded _ _ _ _ _ Hwalk k Hk) as [Hin |]; [| auto].
    rewrite lookup_empty in Hin. destruct Hin; discriminate.
  - cbn [fst]. apply (noExcluded_cache cfg s); try reflexivity; [| exact H].
    cbn [fileCache setFileCache]. intros w k Hk.
    apply getFile_insert_is_Some in Hk as [[_ Hk] |]; [| eauto]. cbn [files] in Hk.
    rewrite lookup_empty in Hk. destruct Hk; discriminate.
Qed.

Lemma noExcluded_handleWatcherEvent (cfg : Config) (os : OS) (event : Event) (s : State) :
  noExcluded cfg s -> noExcluded cfg (fst (handleWatcherEvent cfg os event s)).
Proof.
  intros H. unfold handleWatcherEvent.
  destruct (HasRemove event && negb (HasRename event)).
  { cbn [fst]. apply (noExcluded_cache cfg s); try reflexivity; [| exact H].
    unfold removeCache. cbn [fileCache setFileCache]. intros w k Hk.
    apply getFile_delete_is_Some in Hk. eauto. }
  destruct (negb (HasCreate event)); [exact H |].
  destruct (Stat os (EvName event)) as [info | msg]; [| exact H].
  destruct (IsDir info).
  - destruct (matchedBasePath _ _) as [r |]; [| exact H].
    apply noExcluded_addWatchPath. exact H.
  - destruct (excluded cfg (EvName event)) eqn:Hex; [exact H |].
    destruct (fileCache s !! Filepath.Dir (EvName event)); [| exact H].
    cbn [fst]. apply (noExcluded_cache cfg s); try reflexivity; [| exact H].
    cbn [fileCache setFileCache]. intros w k Hk.
    apply getFile_storeFile_is_Some in Hk as [[_ ->] |]; eauto.
Qed.

Lemma noExcluded_step (cfg : Config) (s : State) (a : action) :
  noExcluded cfg s -> noExcluded cfg (step cfg s a).
Proof.
  intros H. pose proof H as (Hfiles & Htasks & Hkeys & Hcalls).
  destruct a as [now | os event | t stat order | execute | remove]; cbn [step].
  - destruct (notifyChan s) as [| e rest]; [exact H |].
    apply noExcluded_handleTaskNotify. exact H.
  - apply noExcluded_handleWatcherEvent. exact H.
  - apply noExcluded_tick. exact H.
  - unfold runOutputTask. destruct (tasks s) as [| tk rest] eqn:Hq; [exact H |].
    apply Forall_cons in Htasks as [Htk Hrest].
    unfold runTask. destruct (fillTaskInfo _ _ _);
      unfold noExcluded;
      cbn [notifyTaskExecuteResult sendNotify addCall setTasks setNotifyChan fileCache tasks
             deleteChan calls];
      repeat split; try assumption.
    apply Forall_app. split; [exact Hcalls | constructor; [exact Htk | constructor]].
  - unfold runDeleteFileTask. destruct (KeepSourceFile (CollectRule cfg)); [exact H |].
    destruct (deleteChan s) as [| e rest] eqn:Hq; [exact H |].
    apply Forall_cons in Hkeys as [He Hrest].
    unfold noExcluded;
      cbn [sendNotify addCall setDeleteChan setNotifyChan fileCache tasks deleteChan calls].
    repeat split; try assumption.
    apply Forall_app. split; [exact Hcalls | constructor; [exact He | constructor]].
Qed.

(** X16. A file that matches one of the ExcludeFiles patterns is left alone.
    Starting from an archive that holds no excluded file, whatever the event
    loop and the workers do, no excluded file enters the cache, the task
    queue or the delete queue, and neither output.Execute nor os.Remove is
    ever called on one. *)
Theorem excluded_files_are_left_alone (cfg : Config) (s0 : State) (actions : list action) :
  noExcluded cfg s0 ->
  let s := runSchedule cfg s0 actions in
  noExcluded cfg s
  /\ forall k, excluded cfg k = true ->
       (forall w, getFile (fileCache s) w k = None)
       /\ Forall (fun c => callFile c <> k) (calls s).
Proof.
  intros H0 s. subst s.
  assert (H : noExcluded cfg (runSchedule cfg s0 actions)).
  { unfold runSchedule. revert s0 H0. induction actions as [| a actions IH]; intros s0 H0;
      [exact H0 |].
    cbn [fold_left]. apply IH. apply noExcluded_step. exact H0. }
  split; [exact H |]. destruct H as (Hfiles & _ & _ & Hcalls).
  intros k Hk. split.
  - intros w. destruct (getFile _ w k) eqn:Hg; [| reflexivity].
    assert (excluded cfg k = false) by (apply (Hfiles w); eauto). congruence.
  - eapply Forall_impl; [exact Hcalls |]. cbn beta. intros c Hc Heq. congruence.
Qed.

Lemma excluded_files_are_left_alone_witness :
  noExcluded tmpConfig idle
  /\ calls (runSchedule tmpConfig idle tmpSchedule)
     = [CallExecute "/var/log/app" "/var/log/app" "/var/log/app/a.log" true;
        CallRemove "/var/log/app" "/var/log/app/a.log" true]
  /\ Forall (fun c => callFile c <> "/var/log/app/a.tmp")
       (calls (runSchedule tmpConfig idle tmpSchedule)).
Proof.
  assert (H0 : noExcluded tmpConfig idle).
  { unfold noExcluded, idle. cbn [fileCache tasks deleteChan calls].
    repeat split; try constructor.
    intros w k [v Hv]. unfold getFile in Hv. rewrite lookup_empty in Hv. discriminate. }
  split; [exact H0 |]. split; [vm_compute; reflexivity |].
  apply (excluded_files_are_left_alone tmpConfig idle tmpSchedule H0).
  vm_compute. reflexivity.
Defined.

Lemma tasks_handleTaskNotify (cfg : Config) (now : Z) (e : notifyInfo) (s : State) :
  tasks (handleTaskNotify cfg now e s) = tasks s.
Proof.
  unfold handleTaskNotify.
  destruct (typ e); [reflexivity | |];
    (destruct (getFile _ _ _); [| reflexivity]);
    destruct (negb (result e) && _); try reflexivity;
    destruct (result e), (negb (KeepSourceFile (CollectRule cfg))); reflexivity.
Qed.

Lemma tasks_handleWatcherEvent (cfg : Config) (os : OS) (event : Event) (s : State) :
  tasks (fst (handleWatcherEvent cfg os event s)) = tasks s.
Proof.
  unfold handleWatcherEvent, addWatchPath.
  repeat (match goal with
          | |- context [if ?b then _ else _] => destruct b
          | |- context [match ?x with _ => _ end] => destruct x
          end; try reflexivity).
Qed.

Lemma tasks_tickFile_bound (cfg : Config) (t : Z) (stat : string -> FileInfo + string)
    (w k : string) (s : State) :
  (List.length (tasks s) <= tasksCap)%nat ->
  (List.length (tasks (tickFile cfg t stat w k s)) <= tasksCap)%nat.
Proof.
  intros H. unfold tickFile.
  destruct (fileCache s !! w) as [cache |]; [| exact H].
  destruct (files cache !! k) as [v |]; [| exact H].
  destruct (negb _ || _); [exact H |].
  destruct (stat k) as [info | msg]; [| exact H].
  destruct (t <? add64 _ _); [exact H |].
  unfold trySubmitTask.
  destruct (uploadFailedCount v =? 0); cbn [tasks observeInputRequestSize];
    (destruct (_ <? tasksCap)%nat eqn:Hroom; [| exact H]);
    apply Nat.ltb_lt in Hroom; cbn [tasks setFileCache setTasks];
    rewrite length_app; cbn [List.length]; lia.
Qed.

(** X17. The queue of closures never holds more than its 1000 places: the
    tick handler submits a closure only while there is room, so it never has
    to wait for a worker, and the gauge it sets after its loop shows the
    length of the queue. *)
Theorem task_queue_stays_within_capacity (cfg : Config) (s0 : State) (actions : list action) :
  (List.length (tasks s0) <= tasksCap)%nat ->
  (List.length (tasks (runSchedule cfg s0 actions)) <= tasksCap)%nat
  /\ forall t stat order,
       let s' := tick cfg t stat order (runSchedule cfg s0 actions) in
       InputQueneSize s' = Z.of_nat (List.length (tasks s')) /\ 0 <= InputQueneSize s' <= 1000.
Proof.
  intros H0.
  assert (Htick : forall t stat order s,
             (List.length (tasks s) <= tasksCap)%nat ->
             (List.length (tasks (tick cfg t stat order s)) <= tasksCap)%nat).
  { intros t stat order s H. unfold tick. cbn [tasks setInputQueneSize].
    revert s H. induction order as [| [w k] order IH]; intros s H; [exact H |].
    cbn [fold_left fst snd]. apply IH. apply tasks_tickFile_bound. exact H. }
  assert (H : (List.length (tasks (runSchedule cfg s0 actions)) <= tasksCap)%nat).
  { unfold runSchedule. revert s0 H0. induction actions as [| a actions IH]; intros s0 H0;
      [exact H0 |].
    cbn [fold_left]. apply IH.
    destruct a as [now | os event | t stat order | execute | remove]; cbn [step].
    - destruct (notifyChan s0) as [| e rest]; [exact H0 |].
      rewrite tasks_handleTaskNotify. exact H0.
    - rewrite tasks_handleWatcherEvent. exact H0.
    - apply Htick. exact H0.
    - unfold runOutputTask. destruct (tasks s0) as [| tk rest] eqn:Hq; [rewrite Hq; exact H0 |].
      unfold runTask. cbn [List.length] in H0.
      destruct (fillTaskInfo _ _ _);
        cbn [notifyTaskExecuteResult sendNotify addCall setTasks setNotifyChan tasks]; lia.
    - unfold runDeleteFileTask. destruct (KeepSourceFile (CollectRule cfg)); [exact H0 |].
      destruct (deleteChan s0); exact H0. }
  split; [exact H |]. intros t stat order s'. subst s'.
  specialize (Htick t stat order _ H). unfold tasksCap in Htick.
  unfold tick in *. cbn [InputQueneSize setInputQueneSize tasks] in *. lia.
Qed.

Lemma task_queue_stays_within_capacity_witness :
  (List.length (tasks idle) <= tasksCap)%nat
  /\ (List.length (tasks (runSchedule tmpConfig idle tmpSchedule)) <= tasksCap)%nat.
Proof.
  assert (H0 : (List.length (tasks idle) <= tasksCap)%nat) by (cbn; lia).
  split; [exact H0 |].
  apply (task_queue_stays_within_capacity tmpConfig idle tmpSchedule H0).
Defined.

(** X18. Stop of the file archive is idempotent: after a first Stop,
    whatever closing the watcher returned, the archive has stopped and a
    second Stop returns nil without closing anything again. *)
Theorem Archive_Stop_is_idempotent (watcherClose watcherClose' : option error) (s : State) :
  let s1 := fst (Stop watcherClose s) in
  hasStopped s1 = true
  /\ Stop watcherClose' s1 = (s1, None)
  /\ (hasStopped s = false -> snd (Stop watcherClose s) = watcherClose)
  /\ fileCache s1 = fileCache s /\ tasks s1 = tasks s /\ calls s1 = calls s.
Proof.
  cbn zeta. unfold Stop, hasStopped. destruct (done s) eqn:Hdone; cbn [fst snd].
  - rewrite Hdone. repeat split. discriminate.
  - cbn [done setDone fileCache tasks calls]. repeat split.
Qed.

Lemma matchedBasePath_first (r : string) (rest : list string) (name : string) :
  Filepath.isRooted r = true -> Filepath.isRooted name = true ->
  matchedBasePath (r :: rest) name = Some r.
Proof.
  intros Hr Hname. cbn [matchedBasePath].
  destruct (Rel_rooted r name Hr Hname) as (rel & ->). reflexivity.
Qed.

(** X19. When the base paths and the name of a created directory are
    absolute, the base path chosen for the directory is always the first of
    Paths, also when the directory lies below another one: filepath.Rel
    relates any two absolute paths.  The directory is then watched with the
    first base path as its root. *)
Theorem new_directory_gets_the_first_base_path (cfg : Config) (os : OS) (event : Event)
    (s : State) (info : FileInfo) (r : string) (rest : list string) :
  Paths cfg = r :: rest ->
  Filepath.isRooted r = true -> Filepath.isRooted (EvName event) = true ->
  HasCreate event = true -> HasRemove event && negb (HasRename event) = false ->
  Stat os (EvName event) = inl info -> IsDir info = true ->
  handleWatcherEvent cfg os event s = addWatchPath cfg os r (EvName event) s
  /\ (fileCache s !! EvName event = None ->
      snd (handleWatcherEvent cfg os event s) = None ->
      exists el, fileCache (fst (handleWatcherEvent cfg os event s)) !! EvName event = Some el
                 /\ rootPath el = r).
Proof.
  intros Hpaths Hr Hname Hcreate Hremove Hstat Hdir.
  assert (Heq : handleWatcherEvent cfg os event s = addWatchPath cfg os r (EvName event) s).
  { unfold handleWatcherEvent. rewrite Hremove, Hcreate, Hstat, Hdir, Hpaths. cbn [negb].
    rewrite (matchedBasePath_first r rest _ Hr Hname). reflexivity. }
  split; [exact Heq |]. rewrite Heq. unfold addWatchPath. intros ->.
  destruct (WatcherAdd os (EvName event)); [discriminate |].
  destruct (KeepSourceFile (CollectRule cfg)); cbn [negb].
  - intros _. eexists. cbn [fst fileCache setFileCache]. rewrite lookup_insert_eq.
    split; reflexivity.
  - destruct (walkHistorical _ _ _ _) as [found | e]; [| discriminate].
    intros _. eexists. cbn [fst fileCache setFileCache]. rewrite lookup_insert_eq.
    split; reflexivity.
Qed.

Lemma new_directory_gets_the_first_base_path_witness :
  (exists el,
     fileCache (fst (handleWatcherEvent twoRoots dirOS (created "/var/log/b/sub") idle))
       !! "/var/log/b/sub" = Some el
     /\ rootPath el = "/var/log/a")
  /\ Cos.dstPathOf CompressExamples.bigOS CompressExamples.zstdDaily
       (Cos.mkTask "/var/log/a" "/var/log/b/sub/x.log") = inl "b/sub/x.log.zst".
Proof.
  split; [| vm_compute; reflexivity].
  apply (new_directory_gets_the_first_base_path twoRoots dirOS (created "/var/log/b/sub") idle
           (mkFileInfo true (mkTime 900 2024 1 15 8) 4096) "/var/log/a" ["/var/log/b"]);
    reflexivity.
Defined.

Lemma walkHistorical_files (cfg : Config) (name : string) (entries : list walkEntry) :
  forall files files' : gmap string fileInfo,
    walkHistorical cfg name entries files = inl files' ->
    (forall k, is_Some (files' !! k) <->
               is_Some (files !! k) \/ exists d, d ∈ entries /\ tracks cfg k d)
    /\ (forall k v, files' !! k = Some v ->
          files !! k = Some v
          \/ exists d info, d ∈ entries /\ walkPath d = k /\ walkInfo d = inl info
                            /\ v = freshFileInfo cfg info).
Proof.
  unfold tracks.
  induction entries as [| d rest IH]; intros files files'; cbn [walkHistorical].
  - intros [= <-]. split; [| auto]. intros k. split; [auto |].
    intros [H | (d & Hd & _)]; [exact H | apply elem_of_nil in Hd as []].
  - destruct (walkErr d); [discriminate |].
    assert (Hskip : (walkIsDir d = true \/ excluded cfg (walkPath d) = true
                     \/ is_Some (files !! walkPath d)) ->
              walkHistorical cfg name rest files = inl files' ->
              (forall k, is_Some (files' !! k) <->
                         is_Some (files !! k)
                         \/ exists d0, d0 ∈ d :: rest /\ walkPath d0 = k /\ walkIsDir d0 = false
                                        /\ excluded cfg k = false)
              /\ (forall k v, files' !! k = Some v ->
                    files !! k = Some v
                    \/ exists d0 info, d0 ∈ d :: rest /\ walkPath d0 = k
                                       /\ walkInfo d0 = inl info /\ v = freshFileInfo cfg info)).
    { intros Hwhy Hwalk. destruct (IH _ _ Hwalk) as (Hdom & Hval). split.
      - intros k. rewrite Hdom. split.
        + intros [H | (d0 & Hd0 & H)]; [auto |]. right. exists d0.
          split; [apply list_elem_of_further; exact Hd0 | exact H].
        + intros [H | (d0 & Hd0 & Hp & Hdir & Hex)]; [auto |].
          apply elem_of_cons in Hd0 as [-> | Hd0]; [| right; eauto].
          destruct Hwhy as [Hw | [Hw | Hw]]; [congruence | congruence |].
          left. rewrite <- Hp. exact Hw.
      - intros k v Hk. destruct (Hval k v Hk) as [H | (d0 & info & Hd0 & H)]; [auto |].
        right. exists d0, info. split; [apply list_elem_of_further; exact Hd0 | exact H]. }
    destruct (walkIsDir d) eqn:Hdir; [apply Hskip; auto |].
    destruct (excluded cfg (walkPath d)) eqn:Hex; [apply Hskip; auto |].
    destruct (files !! walkPath d) eqn:Hseen; [apply Hskip; eauto |].
    destruct (walkInfo d) as [info | msg] eqn:Hinfo; [| discriminate].
    intros Hwalk. destruct (IH _ _ Hwalk) as (Hdom & Hval). split.
    + intros k. rewrite Hdom. split.
      * intros [H | (d0 & Hd0 & H)].
        -- destruct (decide (walkPath d = k)) as [<- | Hne].
           ++ right. exists d. split; [apply list_elem_of_here | auto].
           ++ rewrite lookup_insert_ne in H by exact Hne. auto.
        -- right. exists d0. split; [apply list_elem_of_further; exact Hd0 | exact H].
      * intros [H | (d0 & Hd0 & Hp & Hd & He)].
        -- left. destruct (decide (walkPath d = k)) as [<- | Hne];
             [rewrite lookup_insert_eq; eauto | rewrite lookup_insert_ne by exact Hne; exact H].
        -- apply elem_of_cons in Hd0 as [-> | Hd0]; [| right; eauto].
           left. rewrite Hp, lookup_insert_eq. eauto.
    + intros k v Hk. destruct (Hval k v Hk) as [H | (d0 & info0 & Hd0 & H)].
      * destruct (decide (walkPath d = k)) as [<- | Hne].
        -- rewrite lookup_insert_eq in H. injection H as <-. right. exists d, info.
           split; [apply list_elem_of_here | auto].
        -- rewrite lookup_insert_ne in H by exact Hne. auto.
      * right. exists d0, info0. split; [apply list_elem_of_further; exact Hd0 | exact H].
Qed.

(** X20. addWatchPath on a directory that is in the cache changes nothing
    and does not ask the watcher.  On a directory that is not, a refusal of
    watcher.AddWith is returned and nothing changes.  Once the watcher has
    accepted the directory it stays registered with the watcher, also when
    the walk fails: then the error of the walk is returned and the cache is
    as before, so the directory is watched without being in the cache.
    Otherwise the directory is recorded under its root.  When the source
    files are removed after upload, the directory's files are then exactly
    the entries the walk hands over that are neither directories nor
    excluded, each waiting for its first upload with its protection ending
    at its modification time plus ModifyProtectTime.  When the source files
    are kept, no file that was there before is recorded. *)
Theorem addWatchPath_indexes_the_directory (cfg : Config) (os : OS) (root name : string)
    (s : State) :
  match fileCache s !! name with
  | Some _ => addWatchPath cfg os root name s = (s, None)
  | None =>
      match WatcherAdd os name with
      | Some msg => addWatchPath cfg os root name s = (s, Some (errorNew msg))
      | None =>
          watched (fst (addWatchPath cfg os root name s)) = watched s ++ [name]
          /\ match snd (addWatchPath cfg os root name s) with
             | Some _ => fst (addWatchPath cfg os root name s) = addWatch name s
             | None =>
                 exists found,
                   fst (addWatchPath cfg os root name s)
                   = setFileCache (<[name := mkElement root found]> (fileCache s))
                       (addWatch name s)
                   /\ if KeepSourceFile (CollectRule cfg) then found = ∅
                      else (forall k, is_Some (found !! k) <->
                                      exists d, d ∈ Walk os name /\ tracks cfg k d)
                           /\ (forall k v, found !! k = Some v ->
                                 exists d info, d ∈ Walk os name /\ walkPath d = k
                                                /\ walkInfo d = inl info
                                                /\ v = mkFileInfoEntry 0 0
                                                         (add64 (Unix (ModTime info))
                                                            (ModifyProtectTime (CollectRule cfg)))
                                                         fileStatusWaitUpload)
             end
      end
  end.
Proof.
  unfold addWatchPath. destruct (fileCache s !! name); [reflexivity |].
  destruct (WatcherAdd os name); [reflexivity |]. cbv zeta.
  destruct (KeepSourceFile (CollectRule cfg)); cbn [negb].
  - cbn [fst snd]. split; [reflexivity |]. exists ∅. split; reflexivity.
  - destruct (walkHistorical cfg name (Walk os name) ∅) as [found | e] eqn:Hwalk;
      [| split; reflexivity].
    cbn [fst snd]. split; [reflexivity |]. exists found. split; [reflexivity |].
    destruct (walkHistorical_files _ _ _ _ _ Hwalk) as (Hdom & Hval). split.
    + intros k. rewrite Hdom. split; [| auto].
      intros [[v Hv] | H]; [rewrite lookup_empty in Hv; discriminate | exact H].
    + intros k v Hk. destruct (Hval k v Hk) as [H | H];
        [rewrite lookup_empty in H; discriminate | exact H].
Qed.

End TrackingProperties.

Section FieldProperties.
Import Logarchive Fields Provisioning.

Variable modules : gmap string ModuleInfo.
Variable Unmarshal : string -> Module -> option Module + error.
Variable decodeObject : string -> gmap string jsonValue + error.
Variable encodeObject : gmap string jsonValue -> string + error.
Variable printObject : gmap string jsonValue -> string.

Lemma LoadModule_without_namespace (ctx : Context) (tag : StructTag) (val : fieldValue)
    (fieldName : string) (opts : gmap string string) :
  Registry.ParseStructTag (Get tag "logarchive") = inl opts ->
  opts !! "namespace" = None ->
  LoadModule modules Unmarshal decodeObject encodeObject printObject ctx (Some (tag, val))
    fieldName
  = (Panicked ("missing 'namespace' key in struct tag on field " +:+ fieldName), []).
Proof. intros Htag Hns. unfold LoadModule. rewrite Htag, Hns. reflexivity. Qed.

Lemma OutputRawTag_has_no_namespace :
  Registry.ParseStructTag (Get OutputRawTag "logarchive") = inl ∅.
Proof. reflexivity. Qed.

(** X21. Provision of the file archive never returns.  LoadModule reads the
    struct tag of OutputRaw under the key "logarchive", the tag of the field
    is written under the key "filearchive", so the namespace is missing and
    LoadModule panics, whatever the configuration and the environment are;
    no module has been called by then.  Without a logger Provision panics
    even earlier, on the nil logger. *)
Theorem Provision_never_returns
    (asOutputter : Module -> option Cos.OutputTask) (NewWatcher : option string)
    (Compile : string -> (string -> bool) + string)
    (WalkDir : string -> list FileArchive.walkEntry) (os : FileArchive.OS)
    (ctx : Context) (ar : Archive) :
  exists msg,
    Provision modules Unmarshal decodeObject encodeObject printObject asOutputter NewWatcher
      Compile WalkDir os ctx ar = (Panicked msg, [])
    /\ msg = match fst (Logger ctx) with
             | Returned true => "missing 'namespace' key in struct tag on field OutputRaw"
             | _ => nilDeref
             end.
Proof.
  unfold Provision.
  rewrite (LoadModule_without_namespace ctx OutputRawTag (RawMessage (OutputRaw ar)) "OutputRaw"
             ∅ OutputRawTag_has_no_namespace (lookup_empty _)).
  unfold Logger. destruct (cfg ctx) as [c |]; [| eexists; split; reflexivity].
  destruct (ConfigLogging c) as [l |]; [| eexists; split; reflexivity].
  destruct (logger l); eexists; split; reflexivity.
Qed.

Lemma Namespace_Name_of_joined (namespace name : string) :
  hasByte "." name = false ->
  Namespace (namespace +:+ "." +:+ name) = namespace
  /\ Name (namespace +:+ "." +:+ name) = name.
Proof.
  intros Hname. unfold Namespace, Name.
  change (namespace +:+ "." +:+ name) with (namespace +:+ String "." name).
  rewrite splitOn_app, (splitOn_no_byte _ _ Hname), rev_app_distr. cbn [rev app].
  rewrite rev_involutive, List.last_last, joinWith_splitOn. split; [reflexivity |].
  destruct (String.eqb_spec (namespace +:+ String "." name) "") as [Heq | _]; [| reflexivity].
  destruct namespace; discriminate.
Qed.

(** X22. LoadModule on a field of type json.RawMessage whose tag names a
    namespace and an inline key: the module loaded is the one registered as
    namespace "." name, the name being the value of the inline key in the raw
    message, and the configuration it decodes is the raw message without
    that key.  On success the field is set to its zero value and the result
    is the instance; on failure the field is left as it is and the error is
    that of LoadModuleByID behind "loading module '<name>': ".  The ID has
    the namespace as its Namespace and, when the name holds no dot, the
    name as its Name. *)
Theorem LoadModule_inline_module (ctx : Context) (tag : StructTag) (raw fieldName : string)
    (opts : gmap string string) (namespace key : string) (m : gmap string jsonValue)
    (name config : string) :
  Registry.ParseStructTag (Get tag "logarchive") = inl opts ->
  opts !! "namespace" = Some namespace ->
  opts !! "inline_key" = Some key -> key <> "" ->
  decodeObject raw = inl m -> m !! key = Some (JSONString name) -> name <> "" ->
  encodeObject (delete key m) = inl config ->
  let id := namespace +:+ "." +:+ name in
  (hasByte "." name = false -> Namespace id = namespace /\ Name id = name)
  /\ match LoadModuleByID modules Unmarshal ctx id config with
     | (Returned (inl val, ctx'), calls) =>
         LoadModule modules Unmarshal decodeObject encodeObject printObject ctx
           (Some (tag, RawMessage raw)) fieldName
         = (Returned (inl (LoadedOne val), RawMessage "", ctx'), calls)
     | (Returned (inr err, ctx'), calls) =>
         LoadModule modules Unmarshal decodeObject encodeObject printObject ctx
           (Some (tag, RawMessage raw)) fieldName
         = (Returned (inr (errorNew ("loading module '" +:+ name +:+ "': " +:+ Error err)),
                      RawMessage raw, ctx'), calls)
     | (Panicked msg, calls) =>
         LoadModule modules Unmarshal decodeObject encodeObject printObject ctx
           (Some (tag, RawMessage raw)) fieldName
         = (Panicked msg, calls)
     end.
Proof.
  intros Htag Hns Hkey Hne Hdec Hname Hnonempty Henc id. subst id.
  split; [apply Namespace_Name_of_joined |].
  unfold LoadModule. rewrite Htag, Hns, Hkey. change (default "" (Some key)) with key.
  apply String.eqb_neq in Hne, Hnonempty. rewrite Hne.
  unfold loadModuleInline, getModuleName. rewrite Hdec, Hname, Hnonempty, Henc.
  destruct (LoadModuleByID modules Unmarshal ctx (namespace +:+ "." +:+ name) config)
    as [[[[val | err] ctx'] | msg] calls];
    unfold mbind, M_bind, bind, finish; cbn [fst snd ret mret M_ret]; rewrite ?app_nil_r;
    reflexivity.
Qed.

End FieldProperties.

Section FieldExamples.
Import Logarchive Fields.

Lemma LoadModule_inline_module_witness :
  Namespace "output.cos" = "output" /\ Name "output.cos" = "cos"
  /\ exists err calls,
       LoadModule Registry.builtinModules (fun _ val => inl (Some val))
         (fun _ => inl {[ "type" := JSONString "cos" ]}) (fun _ => inl "{}") (fun _ => "map[]")
         emptyContext
         (Some ([("logarchive", "namespace=output inline_key=type")], RawMessage "{type: cos}"))
         "OutputRaw"
       = (Returned (inr err, RawMessage "{type: cos}", emptyContext), calls).
Proof.
  pose proof (LoadModule_inline_module Registry.builtinModules (fun _ val => inl (Some val))
                (fun _ => inl {[ "type" := JSONString "cos" ]}) (fun _ => inl "{}")
                (fun _ => "map[]") emptyContext
                [("logarchive", "namespace=output inline_key=type")] "{type: cos}" "OutputRaw"
                (list_to_map [("inline_key", "type"); ("namespace", "output")])
                "output" "type" {[ "type" := JSONString "cos" ]} "cos" "{}"
                eq_refl eq_refl eq_refl ltac:(discriminate) eq_refl eq_refl ltac:(discriminate)
                eq_refl) as [Hid Hload].
  destruct (Hid eq_refl) as [Hns Hname].
  split; [exact Hns |]. split; [exact Hname |].
  destruct (LoadModuleByID Registry.builtinModules (fun _ val => inl (Some val)) emptyContext
              ("output" +:+ "." +:+ "cos") "{}") as [[[[val | err] ctx'] | msg] calls] eqn:Hby;
    vm_compute in Hby; try discriminate.
  injection Hby as <- <- <-. eexists _, _. exact Hload.
Defined.

End FieldExamples.

Section DeletionProperties.
Import FileArchive Lifecycle Deletion.

Variables (w k : string).

Lemma good_delete_pending (keep : bool) (fi : option fileInfo) (q n nok dk dn x xf rm : Z) :
  good keep fi q n nok dk dn x xf rm -> 0 <= dk -> 0 <= dn ->
  match fi with
  | None => dk + dn = 0
  | Some _ => dk + dn <= 1
  end.
Proof.
  unfold good. intros (_ & _ & H) Hdk Hdn. destruct fi as [v |]; [| lia].
  destruct (status v); cbn zeta in H; first [contradiction | lia | destruct H; lia].
Qed.

Lemma lifecycle_delete_pending (cfg : Config) (s : State) :
  lifecycle w k cfg s ->
  0 <= deleteQueued w k s /\ 0 <= deleteNotified w k s
  /\ 0 <= deleteNotifiedOk w k s <= deleteNotified w k s
  /\ match getFile (fileCache s) w k with
     | None => deleteQueued w k s + deleteNotified w k s = 0
     | Some _ => deleteQueued w k s + deleteNotified w k s <= 1
     end.
Proof.
  intros H.
  assert (H1 : 0 <= deleteQueued w k s) by apply countZ_nonneg.
  assert (H2 : 0 <= deleteNotified w k s) by apply countZ_nonneg.
  assert (H3 : 0 <= deleteNotifiedOk w k s) by apply countZ_nonneg.
  assert (H4 : deleteNotifiedOk w k s <= deleteNotified w k s).
  { apply countZ_le. intros n Hn. unfold okDeleteNotifyFor in Hn.
    apply andb_true_iff in Hn as [Hn _]. exact Hn. }
  repeat split; try assumption.
  exact (good_delete_pending _ _ _ _ _ _ _ _ _ _ H H1 H2).
Qed.

(** States that differ neither in the file's cache entry nor in the
    pending results and the calls are alike to the invariant. *)
Lemma deletion_same (s s' : State) :
  getFile (fileCache s') w k = getFile (fileCache s) w k ->
  notifyChan s' = notifyChan s -> calls s' = calls s ->
  deletion w k s -> deletion w k s'.
Proof.
  intros Hf Hn Hc. unfold deletion, deleteNotified, deleteNotifiedOk, removals, failedRemovals.
  rewrite Hf, Hn, Hc. auto.
Qed.

Ltac unfold_deletion :=
  unfold deletion, deleteQueued, deleteNotified, deleteNotifiedOk, removals, failedRemovals in *;
  cbn [sendNotify addCall setDeleteChan setNotifyChan setFileCache setTasks setInputDiscardTotal
         observeInputRequestSize setInputQueneSize notifyTaskExecuteResult
         fileCache tasks notifyChan deleteChan calls] in *.

Lemma okDeleteNotifyFor_delete (w' k' : string) (r : bool) :
  okDeleteNotifyFor w k (mkNotify notifyTypeDeleteTask w' k' r) = isFile w k w' k' && r.
Proof. reflexivity. Qed.

Lemma okDeleteNotifyFor_output (w' k' : string) (r : bool) :
  okDeleteNotifyFor w k (mkNotify notifyTypeOutputTask w' k' r) = false.
Proof. reflexivity. Qed.

Lemma deletion_runOutputTask (cfg : Config) (execute : Cos.OutputTask -> option error) (s : State) :
  deletion w k s -> deletion w k (runOutputTask cfg execute s).
Proof.
  intros H. unfold runOutputTask. destruct (tasks s) as [| tk rest]; [exact H |].
  unfold runTask. destruct (fillTaskInfo _ _ _); unfold_deletion;
    rewrite ?countZ_snoc; cbn [removeFor failedRemoveFor];
    rewrite ?deleteNotifyFor_output, ?okDeleteNotifyFor_output, ?Z.add_0_r; exact H.
Qed.

Lemma deletion_runDeleteFileTask (cfg : Config) (remove : string -> option string) (s : State) :
  lifecycle w k cfg s -> deletion w k s -> deletion w k (runDeleteFileTask cfg remove s).
Proof.
  intros Hlife H. unfold runDeleteFileTask.
  destruct (KeepSourceFile (CollectRule cfg)); [exact H |].
  destruct (deleteChan s) as [| e rest] eqn:Hkeys; [exact H |].
  destruct (lifecycle_delete_pending cfg s Hlife) as (Hdk & Hdn & Hdnok & Hpending).
  pose proof (countZ_nonneg (keyFor w k) rest) as Hrest.
  unfold_deletion. rewrite Hkeys, countZ_cons in Hpending.
  rewrite !countZ_snoc. cbn [removeFor failedRemoveFor].
  rewrite deleteNotifyFor_delete, okDeleteNotifyFor_delete.
  change (keyFor w k e) with (isFile w k (keyWatchPath e) (keyFilePath e)) in Hpending.
  destruct (isFile w k (keyWatchPath e) (keyFilePath e)); cbn [andb];
    [| rewrite ?Z.add_0_r; exact H].
  destruct (getFile (fileCache s) w k) as [v |]; unfold beingRemoved in *; [| lia].
  destruct (remove (keyFilePath e)); cbn [negb]; lia.
Qed.

Lemma deletion_tickFile (cfg : Config) (t : Z) (stat : string -> FileInfo + string)
    (w' k' : string) (s : State) :
  lifecycle w k cfg s -> deletion w k s -> deletion w k (tickFile cfg t stat w' k' s).
Proof.
  intros Hlife H. unfold tickFile.
  destruct (fileCache s !! w') as [cache |] eqn:Hw'; [| exact H].
  destruct (files cache !! k') as [v1 |] eqn:Hk'; [| exact H].
  destruct (negb _ || _); [exact H |].
  assert (Hv1 : getFile (fileCache s) w' k' = Some v1).
  { unfold getFile. rewrite Hw'. exact Hk'. }
  destruct (lifecycle_delete_pending cfg s Hlife) as (Hdk & Hdn & Hdnok & Hpending).
  destruct (isFile w k w' k') eqn:Hfile.
  - apply isFile_true in Hfile as [-> ->]. rewrite Hv1 in Hpending.
    destruct (stat k) as [info | msg].
    + destruct (t <? add64 _ _).
      * unfold_deletion. rewrite (getFile_storeFile_same w k _ _ _ Hv1). rewrite Hv1 in H.
        exact H.
      * unfold trySubmitTask.
        destruct (uploadFailedCount v1 =? 0); cbn [tasks observeInputRequestSize];
          destruct (_ <? tasksCap)%nat; unfold_deletion;
          rewrite ?(getFile_storeFile_same w k _ _ _ Hv1); rewrite Hv1 in H; rewrite ?Hv1;
          exact H.
    + unfold_deletion. rewrite getFile_removeFile_eq. rewrite Hv1 in H.
      unfold beingRemoved in *. lia.
  - apply isFile_false in Hfile as Hne.
    destruct (stat k') as [info | msg].
    + destruct (t <? add64 _ _).
      * unfold_deletion. rewrite (getFile_storeFile_ne w k _ _ _ _ Hne). exact H.
      * unfold trySubmitTask.
        destruct (uploadFailedCount v1 =? 0); cbn [tasks observeInputRequestSize];
          destruct (_ <? tasksCap)%nat; unfold_deletion;
          rewrite ?(getFile_storeFile_ne w k _ _ _ _ Hne); exact H.
    + unfold_deletion. rewrite (getFile_removeFile_ne w k _ _ _ Hne). exact H.
Qed.

Lemma deletion_handleTaskNotify (cfg : Config) (now : Z) (s : State) (e : notifyInfo)
    (rest : list notifyInfo) :
  notifyChan s = e :: rest ->
  lifecycle w k cfg s -> deletion w k s ->
  deletion w k (handleTaskNotify cfg now e (setNotifyChan rest s)).
Proof.
  intros Hchan Hlife H.
  destruct (lifecycle_delete_pending cfg s Hlife) as (Hdk & Hdn & Hdnok & Hpending).
  pose proof (countZ_nonneg (deleteNotifyFor w k) rest) as Hrest.
  pose proof (countZ_nonneg (okDeleteNotifyFor w k) rest) as Hokrest.
  assert (Hle : countZ (okDeleteNotifyFor w k) rest <= countZ (deleteNotifyFor w k) rest).
  { apply countZ_le. intros n Hn. unfold okDeleteNotifyFor in Hn.
    apply andb_true_iff in Hn as [Hn _]. exact Hn. }
  assert (Hd : deleteNotifyFor w k e
               = match typ e with
                 | notifyTypeDeleteTask => isFile w k (watchPath e) (filePath e)
                 | _ => false
                 end).
  { unfold deleteNotifyFor, isDelete. destruct (typ e); reflexivity. }
  assert (Hdo : okDeleteNotifyFor w k e = deleteNotifyFor w k e && result e) by reflexivity.
  unfold deletion, deleteQueued, deleteNotified, deleteNotifiedOk, removals, failedRemovals in *.
  rewrite Hchan in *. rewrite !countZ_cons, ?Hdo, ?Hd in H.
  rewrite !countZ_cons, ?Hdo, ?Hd in Hpending. clear Hdnok Hdn.
  unfold handleTaskNotify.
  destruct (isFile w k (watchPath e) (filePath e)) eqn:Hfile.
  - apply isFile_true in Hfile as Hwk. destruct Hwk as [Hw Hk].
    rewrite Hw, Hk. cbn [fileCache setNotifyChan].
    destruct (typ e) eqn:Htyp; cbn [andb] in *.
    + cbn [setNotifyChan fileCache notifyChan calls]. rewrite Z.add_0_l in H. exact H.
    + rewrite !Z.add_0_l in H.
      destruct (getFile (fileCache s) w k) as [v |] eqn:Hv;
        [| cbn [setNotifyChan fileCache notifyChan calls]; rewrite Hv; exact H].
      destruct (negb (result e) && _).
      * cbn [setFileCache setNotifyChan fileCache notifyChan calls].
        rewrite (getFile_storeFile_same w k _ _ _ Hv). exact H.
      * destruct (result e), (KeepSourceFile (CollectRule cfg)); cbn [negb];
          cbn [setFileCache setNotifyChan setInputDiscardTotal setDeleteChan fileCache
                 notifyChan calls];
          rewrite ?getFile_removeFile_eq, ?(getFile_storeFile_same w k _ _ _ Hv);
          unfold beingRemoved in *; cbn [deleteFailedCount]; lia.
    + destruct (getFile (fileCache s) w k) as [v |] eqn:Hv.
      * unfold beingRemoved in H. destruct H as (Hc & Hrm & Hrmf).
        rewrite (add64_small (deleteFailedCount v)) by lia.
        destruct (result e); cbn [negb andb];
          [| destruct (deleteFailedCount v + 1 <? 3) eqn:Hlt;
             [apply Z.ltb_lt in Hlt | apply Z.ltb_ge in Hlt]];
          cbn [setFileCache setNotifyChan setDeleteChan fileCache notifyChan calls];
          rewrite ?getFile_removeFile_eq, ?(getFile_storeFile_same w k _ _ _ Hv);
          unfold beingRemoved; cbn [deleteFailedCount]; lia.
      * cbn [setNotifyChan fileCache notifyChan calls]. rewrite Hv.
        unfold beingRemoved in *. lia.
  - apply isFile_false in Hfile as Hne.
    assert (H' : beingRemoved (getFile (fileCache s) w k) (countZ (deleteNotifyFor w k) rest)
                   (countZ (okDeleteNotifyFor w k) rest) (countZ (removeFor w k) (calls s))
                   (countZ (failedRemoveFor w k) (calls s))).
    { destruct (typ e); cbn [andb] in H; rewrite ?Z.add_0_l in H; exact H. }
    clear H.
    destruct (typ e); [exact H' | |];
      cbn [fileCache setNotifyChan];
      (destruct (getFile (fileCache s) (watchPath e) (filePath e)) as [v1 |]; [| exact H']);
      repeat match goal with
             | |- context [if ?b then _ else _] => destruct b
             end;
      cbn [setFileCache setNotifyChan setInputDiscardTotal setDeleteChan fileCache
             notifyChan calls];
      rewrite ?(getFile_removeFile_ne w k _ _ _ Hne), ?(getFile_storeFile_ne w k _ _ _ _ Hne);
      exact H'.
Qed.

Lemma deletion_tick (cfg : Config) (t : Z) (stat : string -> FileInfo + string)
    (order : list (string * string)) (s : State) :
  lifecycle w k cfg s -> deletion w k s ->
  lifecycle w k cfg (tick cfg t stat order s) /\ deletion w k (tick cfg t stat order s).
Proof.
  intros Hlife H. unfold tick.
  assert (Hfold : lifecycle w k cfg
                    (fold_left (fun s wk => tickFile cfg t stat wk.1 wk.2 s) order s)
                  /\ deletion w k
                       (fold_left (fun s wk => tickFile cfg t stat wk.1 wk.2 s) order s)).
  { revert s Hlife H. induction order as [| [w' k'] order IH]; intros s Hlife H; [auto |].
    cbn [fold_left fst snd]. apply IH.
    - apply lifecycle_tickFile. exact Hlife.
    - apply deletion_tickFile; assumption. }
  destruct Hfold as [Hl Hd]. split.
  - eapply lifecycle_same; [.. | exact Hl]; reflexivity.
  - eapply deletion_same; [.. | exact Hd]; reflexivity.
Qed.

Lemma deletion_handleWatcherEvent (cfg : Config) (os : OS) (event : Event) (s : State) :
  EvName event <> w -> EvName event <> k ->
  deletion w k s -> deletion w k (fst (handleWatcherEvent cfg os event s)).
Proof.
  intros Hw Hk H. unfold handleWatcherEvent.
  destruct (HasRemove event && negb (HasRename event)).
  { cbn [fst]. apply (deletion_same s); try reflexivity; [| exact H].
    unfold removeCache. cbn [fileCache setFileCache]. apply getFile_delete_ne. exact Hw. }
  destruct (negb (HasCreate event)); [exact H |].
  destruct (Stat os (EvName event)) as [info | msg]; [| exact H].
  destruct (IsDir info).
  - destruct (matchedBasePath _ _) as [r |]; [| exact H].
    unfold addWatchPath.
    destruct (fileCache s !! EvName event); [exact H |].
    destruct (WatcherAdd os (EvName event)); [exact H |].
    destruct (KeepSourceFile (CollectRule cfg)); cbn [negb].
    + cbn [fst]. apply (deletion_same s); try reflexivity; [| exact H].
      cbn [fileCache setFileCache]. apply getFile_insert_ne. exact Hw.
    + destruct (walkHistorical _ _ _ _); [| exact H].
      cbn [fst]. apply (deletion_same s); try reflexivity; [| exact H].
      cbn [fileCache setFileCache]. apply getFile_insert_ne. exact Hw.
  - destruct (excluded cfg (EvName event)); [exact H |].
    destruct (fileCache s !! Filepath.Dir (EvName event)); [| exact H].
    cbn [fst]. apply (deletion_same s); try reflexivity; [| exact H].
    cbn [fileCache setFileCache]. apply getFile_storeFile_ne. tauto.
Qed.

Lemma deletion_run (cfg : Config) (actions : list action) (s : State) :
  outputIsCos cfg -> Forall (quietAction w k) actions ->
  lifecycle w k cfg s -> deletion w k s ->
  lifecycle w k cfg (runSchedule cfg s actions) /\ deletion w k (runSchedule cfg s actions).
Proof.
  intros Hcos Hquiet. revert s. unfold runSchedule.
  induction Hquiet as [| a actions Ha _ IH]; intros s Hlife H; [auto |].
  cbn [fold_left]. apply IH; [apply lifecycle_step; assumption |].
  destruct a as [now | os event | t stat order | execute | remove]; cbn [step].
  - destruct (notifyChan s) as [| e rest] eqn:Hchan; [exact H |].
    apply deletion_handleTaskNotify; assumption.
  - destruct Ha as [Hw Hk]. apply deletion_handleWatcherEvent; assumption.
  - apply deletion_tick; assumption.
  - apply deletion_runOutputTask. exact H.
  - apply (deletion_runDeleteFileTask cfg); assumption.
Qed.

Lemma fresh_deletion (s : State) : fresh w k s -> deletion w k s.
Proof.
  intros ((p & Hf) & _ & _ & _ & Hdn & _ & Hr).
  assert (Hrmf : failedRemovals w k s = 0).
  { pose proof (countZ_nonneg (failedRemoveFor w k) (calls s)).
    assert (failedRemovals w k s <= removals w k s); [| unfold failedRemovals in *; lia].
    apply countZ_le. intros [? ? ? ok | ? ? ok]; cbn; [discriminate |].
    intros Hc. apply andb_true_iff in Hc as [Hc _]. exact Hc. }
  assert (Hdnok : deleteNotifiedOk w k s = 0).
  { pose proof (countZ_nonneg (okDeleteNotifyFor w k) (notifyChan s)).
    assert (deleteNotifiedOk w k s <= deleteNotified w k s);
      [| unfold deleteNotifiedOk in *; lia].
    apply countZ_le. intros n Hn. unfold okDeleteNotifyFor in Hn.
    apply andb_true_iff in Hn as [Hn _]. exact Hn. }
  unfold deletion. rewrite Hf, Hdn, Hr, Hrmf, Hdnok. cbn. lia.
Qed.

(** X23. From the moment a file is newly tracked, and as long as no watcher
    event names it or its watch directory, os.Remove is called on it at most
    three times.  While the file is in the cache its deleteFailedCount is
    below 3 and counts the calls of os.Remove whose result the event loop
    has handled, all of them failures.  When the event loop handles a delete
    result of the file, it drops the file from the cache if the removal
    succeeded or was the third one, and otherwise puts the key back on the
    delete queue. *)
Theorem source_file_removal_is_bounded (cfg : Config) (s0 : State) (actions : list action) :
  outputIsCos cfg ->
  fresh w k s0 ->
  Forall (quietAction w k) actions ->
  let s := runSchedule cfg s0 actions in
  0 <= removals w k s <= 3
  /\ (forall v, getFile (fileCache s) w k = Some v ->
        0 <= deleteFailedCount v < 3
        /\ removals w k s = deleteFailedCount v + deleteNotified w k s
        /\ failedRemovals w k s + deleteNotifiedOk w k s = removals w k s)
  /\ (forall (now : Z) (e : notifyInfo) (rest : list notifyInfo) (v : fileInfo),
        deleteResultNext w k s e rest ->
        getFile (fileCache s) w k = Some v ->
        let s' := handleTaskNotify cfg now e (setNotifyChan rest s) in
        calls s' = calls s
        /\ removals w k s = deleteFailedCount v + 1
        /\ if result e || (removals w k s =? 3)
           then getFile (fileCache s') w k = None /\ deleteChan s' = deleteChan s
           else deleteChan s' = deleteChan s ++ [newCacheKey w k]
                /\ exists v', getFile (fileCache s') w k = Some v'
                              /\ deleteFailedCount v' = removals w k s).
Proof.
  intros Hcos Hfresh Hquiet s.
  destruct (deletion_run cfg actions s0 Hcos Hquiet (fresh_lifecycle w k cfg s0 Hfresh)
              (fresh_deletion s0 Hfresh)) as [Hlife H].
  fold s in Hlife, H.
  destruct (lifecycle_delete_pending cfg s Hlife) as (Hdk & Hdn & Hdnok & Hpending).
  pose proof (countZ_nonneg (removeFor w k) (calls s)) as Hrm.
  unfold deletion in H. fold (removals w k s) in Hrm.
  split; [| split].
  - destruct (getFile (fileCache s) w k) as [v |]; unfold beingRemoved in H; lia.
  - intros v Hv. rewrite Hv in H. unfold beingRemoved in H. lia.
  - intros now e rest v (Hchan & Htyp & Hw & Hk) Hv s'. subst s'.
    rewrite Hv in H, Hpending. unfold beingRemoved in H.
    assert (Hone : deleteNotified w k s = 1).
    { pose proof (countZ_nonneg (deleteNotifyFor w k) rest) as Hrest.
      assert (Hhead : deleteNotifyFor w k e = true).
      { unfold deleteNotifyFor, isDelete. rewrite Htyp, Hw, Hk. apply isFile_true. auto. }
      unfold deleteNotified in *. rewrite Hchan, countZ_cons, Hhead in *. lia. }
    unfold handleTaskNotify. rewrite Htyp, Hw, Hk. cbn [fileCache setNotifyChan]. rewrite Hv.
    rewrite (add64_small (deleteFailedCount v)) by lia.
    destruct (result e); cbn [negb andb orb].
    + cbn [setFileCache setNotifyChan fileCache deleteChan calls].
      rewrite getFile_removeFile_eq. repeat split; lia.
    + replace (removals w k s =? 3) with (negb (deleteFailedCount v + 1 <? 3))
        by (rewrite Z.ltb_antisym, negb_involutive; destruct (Z.leb_spec 3 (deleteFailedCount v + 1)),
              (Z.eqb_spec (removals w k s) 3); try reflexivity; lia).
      destruct (deleteFailedCount v + 1 <? 3); cbn [negb];
        cbn [setFileCache setNotifyChan setDeleteChan fileCache deleteChan calls].
      * split; [reflexivity |]. split; [lia |]. split; [reflexivity |].
        eexists. split; [apply (getFile_storeFile_same w k _ _ _ Hv) |].
        cbn [deleteFailedCount]. lia.
      * rewrite getFile_removeFile_eq. repeat split; lia.
Qed.

End DeletionProperties.

Section DeletionExamples.
Import FileArchive Lifecycle Quiescence Deletion.

Lemma source_file_removal_is_bounded_witness :
  fresh "/var/log/app" "/var/log/app/a.log" (appState (waiting 100))
  /\ Forall (quietAction "/var/log/app" "/var/log/app/a.log") neverRemoved
  /\ removals "/var/log/app" "/var/log/app/a.log"
       (runSchedule appConfig (appState (waiting 100)) neverRemoved) = 3
  /\ 0 <= removals "/var/log/app" "/var/log/app/a.log"
            (runSchedule appConfig (appState (waiting 100)) neverRemoved) <= 3.
Proof.
  assert (Hfresh : fresh "/var/log/app" "/var/log/app/a.log" (appState (waiting 100))).
  { split; [exists 100; vm_compute; reflexivity | vm_compute; repeat split; reflexivity]. }
  assert (Hquiet : Forall (quietAction "/var/log/app" "/var/log/app/a.log") neverRemoved).
  { repeat constructor. }
  split; [exact Hfresh | split; [exact Hquiet | split; [vm_compute; reflexivity |]]].
  apply (source_file_removal_is_bounded "/var/log/app" "/var/log/app/a.log" appConfig
           (appState (waiting 100)) neverRemoved appConfig_outputIsCos Hfresh Hquiet).
Defined.

(** Three removals that fail: os.Remove was called three times and the file
    has left the cache, still on disk. *)
Example three_failed_removals :
  calls (runSchedule appConfig (appState (waiting 100)) neverRemoved)
  = [CallExecute "/var/log/app" "/var/log/app" "/var/log/app/a.log" true;
     CallRemove "/var/log/app" "/var/log/app/a.log" false;
     CallRemove "/var/log/app" "/var/log/app/a.log" false;
     CallRemove "/var/log/app" "/var/log/app/a.log" false]
  /\ getFile (fileCache (runSchedule appConfig (appState (waiting 100)) neverRemoved))
       "/var/log/app" "/var/log/app/a.log" = None.
Proof. vm_compute. split; reflexivity. Qed.

End DeletionExamples.

Section PoolUseProperties.
Import FileArchive FileArchive.Pool PoolStates PoolUse.

Lemma cacheKeyPool_applyOp (p : Pools) (op : poolOp) :
  cacheKeyPool p = [] -> cacheKeyPool (applyOp p op) = [].
Proof.
  intros H. destruct op as [choice typ w f r | info | choice w f | key]; cbn [applyOp].
  - unfold newNotifyInfo. destruct (poolGet _ choice (notifyPool p)) as [[n | c] pool]; exact H.
  - destruct info; exact H.
  - unfold newCacheKey, poolGet. rewrite H. destruct choice as [i |]; reflexivity.
  - destruct key; exact H.
Qed.

Lemma poolGet_typed (new : pooled) (choice : option nat) (pool : list pooled) :
  isNotifyInfo new -> Forall isNotifyInfo pool ->
  isNotifyInfo (fst (poolGet new choice pool)) /\ Forall isNotifyInfo (snd (poolGet new choice pool)).
Proof.
  intros Hnew Hpool. unfold poolGet. destruct choice as [i |]; [| auto].
  destruct (pool !! i) as [x |] eqn:Hx; [| auto]. cbn [fst snd]. split.
  - eapply Forall_lookup_1; eauto.
  - apply Forall_delete. exact Hpool.
Qed.

Lemma notifyPool_applyOp (p : Pools) (op : poolOp) :
  releasesKey op = false -> notifyPoolTyped p -> notifyPoolTyped (applyOp p op).
Proof.
  unfold notifyPoolTyped. intros Hop H.
  destruct op as [choice typ w f r | info | choice w f | key]; cbn [applyOp].
  - unfold newNotifyInfo.
    destruct (poolGet_typed (PooledNotifyInfo (mkNotify notifyTypeUnKnown "" "" false)) choice
                (notifyPool p) ltac:(eexists; reflexivity) H) as [_ Hrest].
    destruct (poolGet _ choice (notifyPool p)) as [[n | c] pool]; exact Hrest.
  - destruct info; [| exact H]. cbn. constructor; [eexists; reflexivity | exact H].
  - unfold newCacheKey. destruct (poolGet _ choice (cacheKeyPool p)) as [[n | c] pool]; exact H.
  - destruct key; [discriminate | exact H].
Qed.

(** X24. The pool of cache keys is never filled: releaseCacheKey puts every
    key into the other pool, so newCacheKey finds its pool empty, allocates
    and never panics.  As long as no key has been released, notifyPool holds
    values of type *notifyInfo only and newNotifyInfo returns the value it
    was asked for, whichever value the pool hands out. *)
Theorem key_pool_is_never_filled (ops : list poolOp) :
  cacheKeyPool (after ops) = []
  /\ (forall choice w f,
        newCacheKey choice w f (after ops) = (Returned (mkCacheKey w f), after ops))
  /\ (Forall (fun op => releasesKey op = false) ops ->
      notifyPoolTyped (after ops)
      /\ forall choice typ w f r,
           fst (newNotifyInfo choice typ w f r (after ops)) = Returned (mkNotify typ w f r)).
Proof.
  unfold after.
  assert (Hkeys : cacheKeyPool (fold_left applyOp ops emptyPools) = []).
  { assert (H0 : cacheKeyPool emptyPools = []) by reflexivity.
    revert H0. generalize emptyPools. induction ops as [| op ops IH]; intros p H0; [exact H0 |].
    cbn [fold_left]. apply IH. apply cacheKeyPool_applyOp. exact H0. }
  split; [exact Hkeys |]. split.
  - intros choice w f. unfold newCacheKey, poolGet. rewrite Hkeys.
    destruct (fold_left applyOp ops emptyPools) as [np kp]. cbn in Hkeys. subst kp.
    destruct choice; reflexivity.
  - intros Hops.
    assert (Htyped : notifyPoolTyped (fold_left applyOp ops emptyPools)).
    { assert (H0 : notifyPoolTyped emptyPools) by constructor.
      clear Hkeys. revert H0. generalize emptyPools.
      induction Hops as [| op ops Hop _ IH]; intros p H0; [exact H0 |].
      cbn [fold_left]. apply IH. apply notifyPool_applyOp; assumption. }
    split; [exact Htyped |]. intros choice typ w f r. unfold newNotifyInfo.
    destruct (poolGet_typed (PooledNotifyInfo (mkNotify notifyTypeUnKnown "" "" false)) choice
                (notifyPool (fold_left applyOp ops emptyPools)) ltac:(eexists; reflexivity)
                Htyped) as [[n Hn] _].
    destruct (poolGet _ choice _) as [x pool]. cbn [fst] in Hn. subst x. reflexivity.
Qed.

Lemma key_pool_is_never_filled_witness :
  Forall (fun op => releasesKey op = false) keepingOps
  /\ notifyPoolTyped (after keepingOps)
  /\ cacheKeyPool (after keepingOps) = [].
Proof.
  assert (Hops : Forall (fun op => releasesKey op = false) keepingOps) by repeat constructor.
  split; [exact Hops |].
  destruct (key_pool_is_never_filled keepingOps) as (Hkeys & _ & Htyped).
  split; [exact (proj1 (Htyped Hops)) | exact Hkeys].
Defined.

End PoolUseProperties.

Section StartProperties.
Import Provisioning FileArchive Lifecycle Quiescence.

Lemma startWorkers_rounds (keep : bool) (PoolSize : Z) (fuel : nat) :
  forall i : Z,
    (Z.to_nat (PoolSize - i) <= fuel)%nat ->
    startWorkers fuel i PoolSize keep
    = mjoin (replicate (Z.to_nat (PoolSize - i)) (round keep)).
Proof.
  induction fuel as [| fuel IH]; intros i Hfuel.
  - replace (Z.to_nat (PoolSize - i)) with 0%nat by lia. reflexivity.
  - cbn [startWorkers]. destruct (i <? PoolSize) eqn:Hi.
    + apply Z.ltb_lt in Hi.
      replace (Z.to_nat (PoolSize - i)) with (S (Z.to_nat (PoolSize - (i + 1)))) by lia.
      cbn [replicate mjoin list_join]. rewrite IH by lia. reflexivity.
    + apply Z.ltb_ge in Hi.
      replace (Z.to_nat (PoolSize - i)) with 0%nat by lia. reflexivity.
Qed.

Lemma calls_handleTaskNotify (cfg : Config) (now : Z) (e : notifyInfo) (s : State) :
  calls (handleTaskNotify cfg now e s) = calls s.
Proof.
  unfold handleTaskNotify.
  destruct (typ e); [reflexivity | |];
    (destruct (getFile _ _ _); [| reflexivity]);
    destruct (negb (result e) && _); try reflexivity;
    destruct (result e), (negb (KeepSourceFile (CollectRule cfg))); reflexivity.
Qed.

Lemma calls_handleWatcherEvent (cfg : Config) (os : OS) (event : Event) (s : State) :
  calls (fst (handleWatcherEvent cfg os event s)) = calls s.
Proof.
  unfold handleWatcherEvent, addWatchPath.
  repeat (match goal with
          | |- context [if ?b then _ else _] => destruct b
          | |- context [match ?x with _ => _ end] => destruct x
          end; try reflexivity).
Qed.

Lemma calls_tickFile (cfg : Config) (t : Z) (stat : string -> FileInfo + string)
    (w k : string) (s : State) :
  calls (tickFile cfg t stat w k s) = calls s.
Proof.
  unfold tickFile.
  destruct (fileCache s !! w) as [cache |]; [| reflexivity].
  destruct (files cache !! k) as [v |]; [| reflexivity].
  destruct (negb _ || _); [reflexivity |].
  destruct (stat k) as [info | msg]; [| reflexivity].
  destruct (t <? add64 _ _); [reflexivity |].
  unfold trySubmitTask.
  destruct (uploadFailedCount v =? 0); cbn [tasks observeInputRequestSize];
    destruct (_ <? tasksCap)%nat; reflexivity.
Qed.

Lemma calls_tick (cfg : Config) (t : Z) (stat : string -> FileInfo + string)
    (order : list (string * string)) (s : State) :
  calls (tick cfg t stat order s) = calls s.
Proof.
  unfold tick. cbn [calls setInputQueneSize].
  revert s. induction order as [| [w k] order IH]; intros s; [reflexivity |].
  cbn [fold_left fst snd]. rewrite IH. apply calls_tickFile.
Qed.

(** X25. Start returns nil and starts max 0 PoolSize output workers, each
    followed by a delete worker unless the source files are kept, and then
    the event loop. *)
Theorem Start_goroutines (cfg : Config) :
  Start cfg
  = (mjoin (replicate (Z.to_nat (PoolSize cfg)) (round (KeepSourceFile (CollectRule cfg))))
       ++ [EventLoop],
     None).
Proof.
  unfold Start. rewrite startWorkers_rounds by lia.
  replace (PoolSize cfg - 0) with (PoolSize cfg) by lia. reflexivity.
Qed.

(** X26. A pool size below one.  With a PoolSize of zero or less Start
    starts the event loop and no worker, and returns nil.  Whatever the
    event loop then does, no file is uploaded and none is removed, and the
    closures it submits stay in the queue. *)
Theorem Start_without_workers (cfg : Config) (s : State) (actions : list action) :
  PoolSize cfg <= 0 ->
  Forall (fun a => performer a ∈ fst (Start cfg)) actions ->
  Start cfg = ([EventLoop], None)
  /\ calls (runSchedule cfg s actions) = calls s
  /\ exists new, tasks (runSchedule cfg s actions) = tasks s ++ new.
Proof.
  intros Hpool Hactions.
  assert (Hstart : Start cfg = ([EventLoop], None)).
  { unfold Start. rewrite startWorkers_rounds by lia.
    replace (Z.to_nat (PoolSize cfg - 0)) with 0%nat by lia. reflexivity. }
  rewrite Hstart in Hactions. cbn [fst] in Hactions.
  split; [exact Hstart |].
  unfold runSchedule. revert s.
  induction Hactions as [| a actions Ha _ IH]; intros s.
  - split; [reflexivity | exists []; symmetry; apply app_nil_r].
  - cbn [fold_left].
    assert (Hstep : calls (step cfg s a) = calls s
                    /\ exists new, tasks (step cfg s a) = tasks s ++ new).
    { apply list_elem_of_singleton in Ha.
      destruct a as [now | os event | t stat order | execute | remove]; cbn [step];
        try discriminate.
      - destruct (notifyChan s) as [| e rest];
          [split; [reflexivity | exists []; symmetry; apply app_nil_r] |].
        rewrite calls_handleTaskNotify, tasks_handleTaskNotify.
        split; [reflexivity | exists []; symmetry; apply app_nil_r].
      - rewrite calls_handleWatcherEvent, tasks_handleWatcherEvent.
        split; [reflexivity | exists []; symmetry; apply app_nil_r].
      - split; [apply calls_tick |].
        destruct (tick_tasks cfg t stat order s) as (new & Hnew & _). exists new. exact Hnew. }
    destruct Hstep as (Hcalls & new1 & Htasks).
    destruct (IH (step cfg s a)) as (IHcalls & new2 & IHtasks).
    split; [congruence |]. exists (new1 ++ new2). rewrite IHtasks, Htasks, app_assoc.
    reflexivity.
Qed.

(** X27. Validate stops at the first path that os.Stat cannot find and
    returns the error of that call; the paths after it are not looked at.  It
    returns nil exactly when every path of the archive exists. *)
Theorem Validate_reports_the_first_missing_path (stat : string -> FileInfo + string)
    (paths : list string) :
  match Validate stat paths with
  | None => Forall (fun path => exists info, stat path = inl info) paths
  | Some err =>
      exists (before : list string) (path : string) (after : list string) (msg : string),
        paths = before ++ path :: after
        /\ Forall (fun path => exists info, stat path = inl info) before
        /\ stat path = inr msg
        /\ err = errorNew msg
        /\ forall stat', (forall p, p ∈ before ++ [path] -> stat' p = stat p) ->
                         Validate stat' paths = Some err
  end.
Proof.
  induction paths as [| path rest IH]; [constructor |].
  cbn [Validate]. destruct (stat path) as [info | msg] eqn:Hstat.
  - destruct (Validate stat rest) as [err |].
    + destruct IH as (before & p & after & msg & -> & Hbefore & Hp & -> & Hsame).
      exists (path :: before), p, after, msg.
      split; [reflexivity |]. split; [constructor; eauto |]. split; [exact Hp |].
      split; [reflexivity |]. intros stat' Hstat'. cbn [Validate].
      rewrite (Hstat' path), Hstat by (cbn; apply list_elem_of_here).
      apply Hsame. intros q Hq. apply Hstat'. cbn. apply list_elem_of_further. exact Hq.
    + constructor; eauto.
  - exists [], path, rest, msg. split; [reflexivity |]. split; [constructor |].
    split; [exact Hstat |]. split; [reflexivity |]. intros stat' Hstat'. cbn [Validate].
    rewrite (Hstat' path), Hstat by (cbn; apply list_elem_of_here). reflexivity.
Qed.

Lemma Start_without_workers_witness :
  PoolSize negativePool <= 0
  /\ Start negativePool = ([EventLoop], None)
  /\ calls (runSchedule negativePool (appState (waiting 0)) eventLoopOnly) = [].
Proof.
  assert (Hpool : PoolSize negativePool <= 0) by (vm_compute; discriminate).
  assert (Hactions : Forall (fun a => performer a ∈ fst (Start negativePool)) eventLoopOnly).
  { repeat constructor. }
  destruct (Start_without_workers negativePool (appState (waiting 0)) eventLoopOnly
              Hpool Hactions) as (Hstart & Hcalls & _).
  split; [exact Hpool |]. split; [exact Hstart | exact Hcalls].
Defined.

End StartProperties.
